(** * requestr: a shallow embedding of the request assembler, the response
      parser, the pipelined splitter, the HPACK codec, the HTTP/2 framer and
      the byte encoder, with the properties the specification states of them.

    The sources are TypeScript.  A JavaScript string is a sequence of UTF-16
    code units and a [Buffer] is a sequence of bytes; both are lists of
    integers here, and the conversions between them ([Buffer.from],
    [toString("utf-8")]) are the UTF-8 encoder and decoder, written out.
    JavaScript numbers are modelled by [Z]; every number the embedded code
    computes is an integer, exact in the source as long as it stays below
    2^53.  Bit operators go through [ToInt32] as they do in the language. *)

From Stdlib Require Import String Ascii ZArith List Bool Lia.
Import ListNotations.
Local Open Scope Z_scope.

(* ====================================================================== *)
(** * The fragment of the JavaScript runtime the sources call              *)
(* ====================================================================== *)

Module JS.

Definition jsstring := list Z.
Definition Buffer := list Z.

(** A literal: the code units of an ASCII text. *)
Definition str (s : string) : jsstring :=
  map (fun a => Z.of_N (N_of_ascii a)) (list_ascii_of_string s).
Arguments str s%_string.

Definition CR : Z := 13.
Definition LF : Z := 10.
Definition TAB : Z := 9.
Definition NUL : Z := 0.
Definition BACKSLASH : Z := 92.
Definition CRLF : jsstring := [CR; LF].

Definition len {A : Type} (l : list A) : Z := Z.of_nat (length l).

(** ** Numbers and the 32-bit operators *)

Definition ToInt32 (x : Z) : Z := (x + 2 ^ 31) mod 2 ^ 32 - 2 ^ 31.

(** [a & b], [a | b], [a << m] and [a >> m]. *)
Definition band (a b : Z) : Z := Z.land (ToInt32 a) (ToInt32 b).
Definition bor (a b : Z) : Z := Z.lor (ToInt32 a) (ToInt32 b).
Definition shl (a m : Z) : Z := ToInt32 (ToInt32 a * 2 ^ (m mod 32)).
Definition shr (a m : Z) : Z := Z.shiftr (ToInt32 a) (m mod 32).

(** A JavaScript number that may be [NaN] (the result of [parseInt]). *)
Inductive number : Type :=
| Num (z : Z)
| NaN.

(** A call either returns or throws: [Throws] stands for the [RangeError] of
    a [Buffer] access out of range and for the [URIError] of the URI
    functions. *)
Inductive outcome (A : Type) : Type :=
| Returns (a : A)
| Throws.
Arguments Returns {A} a.
Arguments Throws {A}.

Definition bind {A B : Type} (m : outcome A) (f : A -> outcome B) : outcome B :=
  match m with
  | Returns a => f a
  | Throws => Throws
  end.

(** ** Strings *)

Fixpoint streq (a b : jsstring) : bool :=
  match a, b with
  | [], [] => true
  | x :: a', y :: b' => (x =? y) && streq a' b'
  | _, _ => false
  end.

Fixpoint starts_with (p s : jsstring) : bool :=
  match p, s with
  | [], _ => true
  | x :: p', y :: s' => (x =? y) && starts_with p' s'
  | _ :: _, [] => false
  end.

Definition clamp (lo hi x : Z) : Z := Z.max lo (Z.min hi x).

(** [s.substring(a, b)]: both ends clamped to the string, swapped when
    [a > b]. *)
Definition substring (s : jsstring) (a b : Z) : jsstring :=
  let a' := clamp 0 (len s) a in
  let b' := clamp 0 (len s) b in
  let from := Z.min a' b' in
  let to := Z.max a' b' in
  firstn (Z.to_nat (to - from)) (skipn (Z.to_nat from) s).

(** [s.substring(a)]. *)
Definition substringFrom (s : jsstring) (a : Z) : jsstring :=
  substring s a (len s).

(** The scan of [indexOf]: the first position, counted from [i], at which
    [needle] starts in [s]; [-1] when there is none. *)
Fixpoint index_scan (needle s : jsstring) (i : Z) : Z :=
  if starts_with needle s then i
  else match s with
       | [] => -1
       | _ :: s' => index_scan needle s' (i + 1)
       end.

(** [s.indexOf(needle, from)]. *)
Definition indexOfFrom (s needle : jsstring) (from : Z) : Z :=
  let k := clamp 0 (len s) from in
  index_scan needle (skipn (Z.to_nat k) s) k.

(** [s.indexOf(needle)]. *)
Definition indexOf (s needle : jsstring) : Z := indexOfFrom s needle 0.

(** [s.repeat(n)]. *)
Fixpoint repeat_str (s : jsstring) (n : nat) : jsstring :=
  match n with
  | O => []
  | S n' => s ++ repeat_str s n'
  end.

(** [lines.join(sep)]. *)
Fixpoint join (lines : list jsstring) (sep : jsstring) : jsstring :=
  match lines with
  | [] => []
  | [l] => l
  | l :: rest => l ++ sep ++ join rest sep
  end.

(** White space and line terminators: what [trim] strips and what [\s]
    matches in a regular expression. *)
Definition is_space (c : Z) : bool :=
  ((9 <=? c) && (c <=? 13)) || (c =? 32) || (c =? 160) || (c =? 5760)
  || ((8192 <=? c) && (c <=? 8202)) || (c =? 8232) || (c =? 8233)
  || (c =? 8239) || (c =? 8287) || (c =? 12288) || (c =? 65279).

(** What [.] does not match in a regular expression. *)
Definition is_line_terminator (c : Z) : bool :=
  (c =? 10) || (c =? 13) || (c =? 8232) || (c =? 8233).

Definition is_digit (c : Z) : bool := (48 <=? c) && (c <=? 57).

Fixpoint trimStart (s : jsstring) : jsstring :=
  match s with
  | c :: s' => if is_space c then trimStart s' else s
  | [] => []
  end.

Definition trimEnd (s : jsstring) : jsstring := rev (trimStart (rev s)).

Definition trim (s : jsstring) : jsstring := trimEnd (trimStart s).

(** [toLowerCase] on one code unit.  The mapping is that of the language for
    ASCII and Latin-1; the case tables of Unicode above U+00FF are not part
    of the model, and such code units are left as they are. *)
Definition lower_unit (c : Z) : Z :=
  if ((65 <=? c) && (c <=? 90))
     || ((192 <=? c) && (c <=? 222) && negb (c =? 215))
  then c + 32 else c.

Definition toLowerCase (s : jsstring) : jsstring := map lower_unit s.

(** [toUpperCase] on the digits of a number written in a radix. *)
Definition upper_unit (c : Z) : Z :=
  if (97 <=? c) && (c <=? 122) then c - 32 else c.

Definition toUpperCase_ascii (s : jsstring) : jsstring := map upper_unit s.

(** [s.split(":")[0]]. *)
Fixpoint before_colon (s : jsstring) : jsstring :=
  match s with
  | [] => []
  | c :: s' => if c =? 58 then [] else c :: before_colon s'
  end.

(** [s.split(/\r?\n/)]: a line ends at [LF] or at [CR LF]; a lone [CR] stays
    in its line.  [cur] holds the line being read, reversed. *)
Fixpoint split_lines_from (s : jsstring) (cur : jsstring) : list jsstring :=
  match s with
  | [] => [rev cur]
  | c :: s' =>
      if c =? LF then
        match cur with
        | d :: cur' =>
            if d =? CR then rev cur' :: split_lines_from s' []
            else rev cur :: split_lines_from s' []
        | [] => [] :: split_lines_from s' []
        end
      else split_lines_from s' (c :: cur)
  end.

Definition split_lines (s : jsstring) : list jsstring := split_lines_from s [].

(** ** Numbers and text *)

Definition digit_char (d : Z) : Z := if d <? 10 then 48 + d else 87 + d.

(** The digits of [n > 0] in [radix], most significant first; [fuel] bounds
    their number. *)
Fixpoint digits_of (fuel : nat) (radix n : Z) (acc : jsstring) : jsstring :=
  match fuel with
  | O => acc
  | S fuel' =>
      if n <? radix then digit_char n :: acc
      else digits_of fuel' radix (n / radix) (digit_char (n mod radix) :: acc)
  end.

(** [n.toString(radix)] for an integer [n >= 0]. *)
Definition toStringRadix (n radix : Z) : jsstring :=
  digits_of (S (Z.to_nat (Z.log2 n))) radix n [].

(** [s.padStart(n, "0")]. *)
Definition padStart0 (s : jsstring) (n : nat) : jsstring :=
  repeat_str [48] (n - length s) ++ s.

Fixpoint take_digits (s : jsstring) : jsstring :=
  match s with
  | c :: s' => if is_digit c then c :: take_digits s' else []
  | [] => []
  end.

Fixpoint drop_digits (s : jsstring) : jsstring :=
  match s with
  | c :: s' => if is_digit c then drop_digits s' else s
  | [] => []
  end.

Definition decimal_value (ds : jsstring) : Z :=
  fold_left (fun acc c => acc * 10 + (c - 48)) ds 0.

(** [parseInt(s, 10)]: leading white space, an optional sign, then the
    longest run of digits; [NaN] when there is no digit. *)
Definition parseInt10 (s : jsstring) : number :=
  let t := trimStart s in
  let '(sign, u) :=
    match t with
    | 45 :: u => (-1, u)
    | 43 :: u => (1, u)
    | _ => (1, t)
    end in
  match take_digits u with
  | [] => NaN
  | ds => Num (sign * decimal_value ds)
  end.

(** ** Buffers and UTF-8 *)

(** [Buffer.from(array)]: every entry is reduced to a byte. *)
Definition Buffer_from_array (a : list Z) : Buffer := map (fun x => x mod 256) a.

(** [buffer[i] & mask]: an index outside the buffer reads [undefined], which
    the operator turns into 0. *)
Definition byte_at (b : Buffer) (i : Z) : Z :=
  if (i <? 0) || (len b <=? i) then 0 else nth (Z.to_nat i) b 0.

(** The bytes of the buffer from index [i] on; none for an index outside. *)
Definition bytes_from (b : Buffer) (i : Z) : Buffer :=
  if i <? 0 then [] else skipn (Z.to_nat i) b.

(** [buffer.subarray(a, b)]: a negative index counts from the end, both are
    clamped, and an end before the start gives the empty buffer. *)
Definition rel_index (n i : Z) : Z :=
  if i <? 0 then Z.max (n + i) 0 else Z.min i n.

Definition subarray (b : Buffer) (s e : Z) : Buffer :=
  let s' := rel_index (len b) s in
  let e' := rel_index (len b) e in
  firstn (Z.to_nat (e' - s')) (skipn (Z.to_nat s') b).

Definition subarrayFrom (b : Buffer) (s : Z) : Buffer := subarray b s (len b).

(** [buffer.readUInt8(o)], [readUIntBE(o, 3)] and [readUInt32BE(o)]: a read
    that leaves the buffer throws. *)
Definition in_range (b : Buffer) (o n : Z) : bool :=
  (0 <=? o) && (o + n <=? len b).

Definition readUInt8 (b : Buffer) (o : Z) : outcome Z :=
  if in_range b o 1 then Returns (byte_at b o) else Throws.

Definition readUInt24BE (b : Buffer) (o : Z) : outcome Z :=
  if in_range b o 3
  then Returns (byte_at b o * 65536 + byte_at b (o + 1) * 256 + byte_at b (o + 2))
  else Throws.

Definition readUInt32BE (b : Buffer) (o : Z) : outcome Z :=
  if in_range b o 4
  then Returns (byte_at b o * 16777216 + byte_at b (o + 1) * 65536
                + byte_at b (o + 2) * 256 + byte_at b (o + 3))
  else Throws.

(** The bytes [writeUInt8], [writeUIntBE(v, o, 3)] and [writeUInt32BE] store
    for an integer [v]; a value outside the field's range throws. *)
Definition uint8_bytes (v : Z) : outcome Buffer :=
  if (0 <=? v) && (v <? 256) then Returns [v] else Throws.

Definition uint24_bytes (v : Z) : outcome Buffer :=
  if (0 <=? v) && (v <? 16777216)
  then Returns [v / 65536; (v / 256) mod 256; v mod 256]
  else Throws.

Definition uint32_bytes (v : Z) : outcome Buffer :=
  if (0 <=? v) && (v <? 4294967296)
  then Returns [v / 16777216; (v / 65536) mod 256; (v / 256) mod 256; v mod 256]
  else Throws.

(** [Buffer.from(s)], [Buffer.from(s, "utf-8")]: the UTF-8 encoding of the
    string; a surrogate without its partner becomes U+FFFD. *)
Definition utf8_of_code_point (c : Z) : Buffer :=
  if c <? 128 then [c]
  else if c <? 2048 then [192 + c / 64; 128 + c mod 64]
  else if c <? 65536 then [224 + c / 4096; 128 + (c / 64) mod 64; 128 + c mod 64]
  else [240 + c / 262144; 128 + (c / 4096) mod 64; 128 + (c / 64) mod 64;
        128 + c mod 64].

Definition is_high_surrogate (c : Z) : bool := (55296 <=? c) && (c <=? 56319).
Definition is_low_surrogate (c : Z) : bool := (56320 <=? c) && (c <=? 57343).

Fixpoint utf8_encode (s : jsstring) : Buffer :=
  match s with
  | [] => []
  | c :: rest =>
      if is_high_surrogate c then
        match rest with
        | d :: rest' =>
            if is_low_surrogate d
            then utf8_of_code_point (65536 + (c - 55296) * 1024 + (d - 56320))
                   ++ utf8_encode rest'
            else utf8_of_code_point 65533 ++ utf8_encode rest
        | [] => utf8_of_code_point 65533
        end
      else if is_low_surrogate c then utf8_of_code_point 65533 ++ utf8_encode rest
      else utf8_of_code_point c ++ utf8_encode rest
  end.

(** [buffer.toString("utf-8")]: the decoder of the Encoding standard, which
    replaces every malformed sequence by U+FFFD.  The state is the number of
    continuation bytes still needed, the code point read so far and the range
    allowed for the next byte. *)
Record utf8_state : Type := {
  needed : nat;
  code_point : Z;
  lower : Z;
  upper : Z
}.

Definition utf8_init : utf8_state :=
  {| needed := 0; code_point := 0; lower := 128; upper := 191 |}.

Definition units_of_code_point (c : Z) : jsstring :=
  if c <? 65536 then [c]
  else [55296 + (c - 65536) / 1024; 56320 + (c - 65536) mod 1024].

(** A byte read with no sequence open. *)
Definition utf8_lead (b : Z) : jsstring * utf8_state :=
  if (0 <=? b) && (b <=? 127) then ([b], utf8_init)
  else if (194 <=? b) && (b <=? 223)
  then ([], {| needed := 1; code_point := b mod 32; lower := 128; upper := 191 |})
  else if (224 <=? b) && (b <=? 239)
  then ([], {| needed := 2; code_point := b mod 16;
               lower := if b =? 224 then 160 else 128;
               upper := if b =? 237 then 159 else 191 |})
  else if (240 <=? b) && (b <=? 244)
  then ([], {| needed := 3; code_point := b mod 8;
               lower := if b =? 240 then 144 else 128;
               upper := if b =? 244 then 143 else 191 |})
  else ([65533], utf8_init).

Definition utf8_step (st : utf8_state) (b : Z) : jsstring * utf8_state :=
  match needed st with
  | O => utf8_lead b
  | S n =>
      if (lower st <=? b) && (b <=? upper st) then
        let cp := code_point st * 64 + b mod 64 in
        match n with
        | O => (units_of_code_point cp, utf8_init)
        | S _ => ([], {| needed := n; code_point := cp; lower := 128; upper := 191 |})
        end
      else
        let '(out, st') := utf8_lead b in (65533 :: out, st')
  end.

Fixpoint utf8_decode_from (st : utf8_state) (bs : Buffer) : jsstring :=
  match bs with
  | [] => match needed st with O => [] | S _ => [65533] end
  | b :: bs' =>
      let '(out, st') := utf8_step st b in out ++ utf8_decode_from st' bs'
  end.

Definition utf8_decode (bs : Buffer) : jsstring := utf8_decode_from utf8_init bs.

(** [buffer.toString("binary")]: one code unit per byte. *)
Definition latin1_decode (bs : Buffer) : jsstring := bs.

(** ** [Map<string, V>] and plain objects used as maps

    A [Map] keeps its keys in the order of first insertion, and setting a key
    that is present replaces its value in place. *)
Definition Map (V : Type) : Type := list (jsstring * V).

Fixpoint Map_get {V : Type} (m : Map V) (k : jsstring) : option V :=
  match m with
  | [] => None
  | (k', v) :: m' => if streq k k' then Some v else Map_get m' k
  end.

Fixpoint Map_set {V : Type} (m : Map V) (k : jsstring) (v : V) : Map V :=
  match m with
  | [] => [(k, v)]
  | (k', v') :: m' =>
      if streq k k' then (k, v) :: m' else (k', v') :: Map_set m' k v
  end.

(** A plain object written by [o[k] = v] with a string [v].  The key
    [__proto__] reaches the prototype setter, which ignores a string, so no
    property is created.  The list keeps the order of creation; enumeration
    would move keys that are array indices to the front, which nothing below
    depends on. *)
Definition Object_set {V : Type} (o : Map V) (k : jsstring) (v : V) : Map V :=
  if streq k (str "__proto__") then o else Map_set o k v.

(** [String(n)], [n.toString()] and a number in a template literal, for an
    integer [n]. *)
Definition number_toString (n : Z) : jsstring :=
  if n <? 0 then 45 :: toStringRadix (- n) 10 else toStringRadix n 10.

(** [n.toString(radix)] for an integer [n] of either sign. *)
Definition number_toStringRadix (n radix : Z) : jsstring :=
  if n <? 0 then 45 :: toStringRadix (- n) radix else toStringRadix n radix.

(** [Buffer.alloc(n)]: [n] zero bytes. *)
Definition Buffer_alloc (n : Z) : Buffer := repeat 0 (Z.to_nat n).

(** [readUInt16BE(o)] and the bytes [writeUInt16BE] stores, with the range
    checks of the other accessors. *)
Definition readUInt16BE (b : Buffer) (o : Z) : outcome Z :=
  if in_range b o 2
  then Returns (byte_at b o * 256 + byte_at b (o + 1))
  else Throws.

Definition uint16_bytes (v : Z) : outcome Buffer :=
  if (0 <=? v) && (v <? 65536) then Returns [v / 256; v mod 256] else Throws.

(** [Map<number, number>], with the order and the replacement in place of
    every [Map]. *)
Definition NumMap : Type := list (Z * Z).

Fixpoint NumMap_set (m : NumMap) (k v : Z) : NumMap :=
  match m with
  | [] => [(k, v)]
  | (k', v') :: m' =>
      if k =? k' then (k, v) :: m' else (k', v') :: NumMap_set m' k v
  end.

End JS.

Import JS.

(* ====================================================================== *)
(** * builder.ts: the request assembler                                    *)
(* ====================================================================== *)

Module RequestBuilder.

(** An entry of [_headers]: [{ name, value, raw? }]. *)
Record header_entry : Type := {
  name : jsstring;
  value : jsstring;
  raw : option jsstring
}.

Inductive scheme_t : Type := http | https.

Definition scheme_text (s : scheme_t) : jsstring :=
  match s with http => str "http" | https => str "https" end.

(** [string | Buffer]. *)
Inductive body_t : Type :=
| BodyString (s : jsstring)
| BodyBuffer (b : Buffer).

Inductive MalformationType : Type :=
| space_before_colon | space_after_colon | tab_separator
| no_space_after_colon | double_space | crlf_injection | lf_only | cr_only
| null_byte | oversized_header | empty_header_name | empty_header_value.

Record t : Type := {
  _url : jsstring;
  _method : jsstring;
  _path : jsstring;
  _host : jsstring;
  _port : Z;
  _scheme : scheme_t;
  _httpVersion : jsstring;
  _headers : list header_entry;
  _body : body_t;
  _lineEnding : jsstring;
  _requestLineSeparator : jsstring
}.

(** [new RequestBuilder()]. *)
Definition new : t := {|
  _url := [];
  _method := str "GET";
  _path := str "/";
  _host := [];
  _port := 80;
  _scheme := http;
  _httpVersion := str "1.1";
  _headers := [];
  _body := BodyString [];
  _lineEnding := CRLF;
  _requestLineSeparator := str " "
|}.

Definition with_headers (b : t) (hs : list header_entry) : t := {|
  _url := _url b; _method := _method b; _path := _path b; _host := _host b;
  _port := _port b; _scheme := _scheme b; _httpVersion := _httpVersion b;
  _headers := hs;
  _body := _body b; _lineEnding := _lineEnding b;
  _requestLineSeparator := _requestLineSeparator b
|}.

(** [this._headers.push(e)]. *)
Definition push_header (b : t) (e : header_entry) : t :=
  with_headers b (_headers b ++ [e]).

Definition method (m : jsstring) (b : t) : t := {|
  _url := _url b; _method := m; _path := _path b; _host := _host b;
  _port := _port b; _scheme := _scheme b; _httpVersion := _httpVersion b;
  _headers := _headers b; _body := _body b; _lineEnding := _lineEnding b;
  _requestLineSeparator := _requestLineSeparator b
|}.

Definition path (p : jsstring) (b : t) : t := {|
  _url := _url b; _method := _method b; _path := p; _host := _host b;
  _port := _port b; _scheme := _scheme b; _httpVersion := _httpVersion b;
  _headers := _headers b; _body := _body b; _lineEnding := _lineEnding b;
  _requestLineSeparator := _requestLineSeparator b
|}.

Definition host (h : jsstring) (b : t) : t := {|
  _url := _url b; _method := _method b; _path := _path b; _host := h;
  _port := _port b; _scheme := _scheme b; _httpVersion := _httpVersion b;
  _headers := _headers b; _body := _body b; _lineEnding := _lineEnding b;
  _requestLineSeparator := _requestLineSeparator b
|}.

Definition header (n v : jsstring) (b : t) : t :=
  push_header b {| name := n; value := v; raw := None |}.

Definition rawHeader (rawLine : jsstring) (b : t) : t :=
  push_header b {| name := []; value := []; raw := Some rawLine |}.

(** The line [malformedHeader] computes for a malformation kind. *)
Definition malformed_line (n v : jsstring) (type : MalformationType) : jsstring :=
  match type with
  | space_before_colon => n ++ str " : " ++ v
  | space_after_colon => n ++ str ":  " ++ v
  | tab_separator => n ++ str ":" ++ [TAB] ++ v
  | no_space_after_colon => n ++ str ":" ++ v
  | double_space => n ++ str ":  " ++ v
  | crlf_injection => n ++ str ": " ++ v ++ CRLF ++ str "Injected: header"
  | null_byte => n ++ str ": " ++ v ++ [NUL] ++ str "injected"
  | oversized_header => n ++ str ": " ++ repeat_str (str "A") (Z.to_nat 8192) ++ v
  | empty_header_name => str ": " ++ v
  | empty_header_value => n ++ str ": "
  | lf_only | cr_only => n ++ str ": " ++ v
  end.

Definition malformedHeader (n v : jsstring) (type : MalformationType) (b : t) : t :=
  push_header b {| name := []; value := []; raw := Some (malformed_line n v type) |}.

Definition body (x : body_t) (b : t) : t := {|
  _url := _url b; _method := _method b; _path := _path b; _host := _host b;
  _port := _port b; _scheme := _scheme b; _httpVersion := _httpVersion b;
  _headers := _headers b; _body := x; _lineEnding := _lineEnding b;
  _requestLineSeparator := _requestLineSeparator b
|}.

Definition lineEnding (ending : jsstring) (b : t) : t := {|
  _url := _url b; _method := _method b; _path := _path b; _host := _host b;
  _port := _port b; _scheme := _scheme b; _httpVersion := _httpVersion b;
  _headers := _headers b; _body := _body b; _lineEnding := ending;
  _requestLineSeparator := _requestLineSeparator b
|}.

Definition requestLineSeparator (sep : jsstring) (b : t) : t := {|
  _url := _url b; _method := _method b; _path := _path b; _host := _host b;
  _port := _port b; _scheme := _scheme b; _httpVersion := _httpVersion b;
  _headers := _headers b; _body := _body b; _lineEnding := _lineEnding b;
  _requestLineSeparator := sep
|}.

(** [if (this._body)]: the empty string is the only falsy body. *)
Definition body_truthy (x : body_t) : bool :=
  match x with
  | BodyString [] => false
  | _ => true
  end.

(** The first entry of [lines]. *)
Definition request_line (b : t) : jsstring :=
  _method b ++ _requestLineSeparator b ++ _path b ++ _requestLineSeparator b
  ++ str "HTTP/" ++ _httpVersion b.

(** The entry of [lines] a header gives. *)
Definition header_line (h : header_entry) : jsstring :=
  match raw h with
  | Some r => r
  | None => name h ++ str ": " ++ value h
  end.

(** The array [lines] of [build] and [buildBuffer], with its last, empty
    entry. *)
Definition build_lines (b : t) : list jsstring :=
  [request_line b] ++ map header_line (_headers b) ++ [[]].

Definition build (b : t) : jsstring :=
  let request := join (build_lines b) (_lineEnding b) in
  if body_truthy (_body b) then
    request ++ match _body b with
               | BodyString s => s
               | BodyBuffer x => utf8_decode x
               end
  else request.

Definition buildBuffer (b : t) : Buffer :=
  let headerPart := utf8_encode (join (build_lines b) (_lineEnding b)) in
  if body_truthy (_body b) then
    headerPart ++ match _body b with
                  | BodyString s => utf8_encode s
                  | BodyBuffer x => x
                  end
  else headerPart.

(** [if (h.raw)]: a raw line that is absent or empty takes the other
    branch. *)
Definition raw_truthy (h : header_entry) : option jsstring :=
  match raw h with
  | Some (c :: r) => Some (c :: r)
  | _ => None
  end.

(** [this._headers.find(h => h.name.toLowerCase() === "host")], then the
    value before its first colon. *)
Definition getHostHeader (b : t) : option jsstring :=
  match find (fun h => streq (toLowerCase (name h)) (str "host")) (_headers b) with
  | Some h => Some (before_colon (value h))
  | None => None
  end.

(** [this._host || this.getHostHeader() || ""]. *)
Definition authority (b : t) : jsstring :=
  match _host b with
  | _ :: _ => _host b
  | [] => match getHostHeader b with
          | Some (c :: h) => c :: h
          | _ => []
          end
  end.

(** The loop body shared by the two HTTP/2 projections for a raw entry: the
    name before the first colon, trimmed and lower-cased, and the value
    after it, trimmed; nothing when the colon is missing or comes first. *)
Definition raw_name_value (r : jsstring) : option (jsstring * jsstring) :=
  let colonIdx := indexOf r (str ":") in
  if 0 <? colonIdx then
    Some (toLowerCase (trim (substring r 0 colonIdx)),
          trim (substringFrom r (colonIdx + 1)))
  else None.

Definition name_truthy (n : jsstring) : bool :=
  match n with [] => false | _ => true end.

Definition buildHttp2Headers_step (headers : Map jsstring) (h : header_entry)
  : Map jsstring :=
  match raw_truthy h with
  | Some r =>
      match raw_name_value r with
      | Some (n, v) =>
          if name_truthy n && negb (starts_with (str ":") n)
          then Map_set headers n v
          else headers
      | None => headers
      end
  | None =>
      if negb (streq (toLowerCase (name h)) (str "host"))
      then Map_set headers (toLowerCase (name h)) (value h)
      else headers
  end.

Definition buildHttp2Headers (b : t) : Map jsstring :=
  let headers := [] in
  let headers := Map_set headers (str ":method") (_method b) in
  let headers := Map_set headers (str ":path") (_path b) in
  let headers := Map_set headers (str ":scheme") (scheme_text (_scheme b)) in
  let headers := Map_set headers (str ":authority") (authority b) in
  fold_left buildHttp2Headers_step (_headers b) headers.

Record Http2Request : Type := {
  h2_method : jsstring;
  h2_path : jsstring;
  h2_authority : jsstring;
  h2_scheme : scheme_t;
  h2_headers : Map jsstring;
  h2_body : option body_t
}.

Definition buildHttp2Request_step (headers : Map jsstring) (h : header_entry)
  : Map jsstring :=
  match raw_truthy h with
  | Some r =>
      match raw_name_value r with
      | Some (n, v) =>
          if name_truthy n && negb (starts_with (str ":") n)
             && negb (streq n (str "host"))
          then Object_set headers n v
          else headers
      | None => headers
      end
  | None =>
      if negb (streq (toLowerCase (name h)) (str "host"))
      then Object_set headers (toLowerCase (name h)) (value h)
      else headers
  end.

Definition buildHttp2Request (b : t) : Http2Request := {|
  h2_method := _method b;
  h2_path := _path b;
  h2_authority := authority b;
  h2_scheme := _scheme b;
  h2_headers := fold_left buildHttp2Request_step (_headers b) [];
  h2_body := if body_truthy (_body b) then Some (_body b) else None
|}.

(** The setters of the connection fields. *)
Definition port (p : Z) (b : t) : t := {|
  _url := _url b; _method := _method b; _path := _path b; _host := _host b;
  _port := p; _scheme := _scheme b; _httpVersion := _httpVersion b;
  _headers := _headers b; _body := _body b; _lineEnding := _lineEnding b;
  _requestLineSeparator := _requestLineSeparator b
|}.

Definition scheme (s : scheme_t) (b : t) : t := {|
  _url := _url b; _method := _method b; _path := _path b; _host := _host b;
  _port := _port b; _scheme := s; _httpVersion := _httpVersion b;
  _headers := _headers b; _body := _body b; _lineEnding := _lineEnding b;
  _requestLineSeparator := _requestLineSeparator b
|}.

(** [buildUrl()]: the stored URL when there is one; else scheme, host, the
    port unless it is the default of the scheme, and the path; else the path
    alone. *)
Definition buildUrl (b : t) : jsstring :=
  match _url b with
  | _ :: _ => _url b
  | [] =>
      match _host b with
      | _ :: _ =>
          let port :=
            if (match _scheme b with https => true | http => false end
                && (_port b =? 443))
               || (match _scheme b with http => true | https => false end
                   && (_port b =? 80))
            then []
            else str ":" ++ number_toString (_port b) in
          scheme_text (_scheme b) ++ str "://" ++ _host b ++ port ++ _path b
      | [] => _path b
      end
  end.

End RequestBuilder.

(* ====================================================================== *)
(** * encoder.ts: the byte encoder                                         *)
(* ====================================================================== *)

Module Encoder.

Inductive EncodingType : Type :=
| url | double_url | unicode | hex | octal | html_entity | base64
| overlong_utf8.

(** The characters [encodeURIComponent] leaves as they are. *)
Definition uri_unreserved (c : Z) : bool :=
  ((65 <=? c) && (c <=? 90)) || ((97 <=? c) && (c <=? 122)) || is_digit c
  || (c =? 45) || (c =? 95) || (c =? 46) || (c =? 33) || (c =? 126)
  || (c =? 42) || (c =? 39) || (c =? 40) || (c =? 41).

(** [%XX], upper-case, for one byte. *)
Definition percent_byte (b : Z) : jsstring :=
  37 :: toUpperCase_ascii (padStart0 (toStringRadix b 16) 2).

Definition percent_bytes (bs : Buffer) : jsstring := flat_map percent_byte bs.

(** [encodeURIComponent(s)]; a surrogate without its partner throws
    [URIError]. *)
Fixpoint encodeURIComponent (s : jsstring) : outcome jsstring :=
  match s with
  | [] => Returns []
  | c :: rest =>
      if uri_unreserved c then
        bind (encodeURIComponent rest) (fun r => Returns (c :: r))
      else if is_low_surrogate c then Throws
      else if is_high_surrogate c then
        match rest with
        | d :: rest' =>
            if is_low_surrogate d then
              bind (encodeURIComponent rest') (fun r =>
                Returns (percent_bytes
                           (utf8_of_code_point
                              (65536 + (c - 55296) * 1024 + (d - 56320))) ++ r))
            else Throws
        | [] => Throws
        end
      else
        bind (encodeURIComponent rest) (fun r =>
          Returns (percent_bytes (utf8_of_code_point c) ++ r))
  end.

(** [.replace(/[!'()*]/g, c => "%" + hex)]. *)
Definition escape_sub_delim (c : Z) : jsstring :=
  if (c =? 33) || (c =? 39) || (c =? 40) || (c =? 41) || (c =? 42)
  then 37 :: toUpperCase_ascii (toStringRadix c 16)
  else [c].

Definition urlEncode (s : jsstring) : outcome jsstring :=
  bind (encodeURIComponent s) (fun e => Returns (flat_map escape_sub_delim e)).

(** [Array.from(s).map(c => c.charCodeAt(0))]: the iteration goes by code
    points, so of a surrogate pair only the first unit is seen. *)
Fixpoint char_codes (s : jsstring) : list Z :=
  match s with
  | [] => []
  | c :: rest =>
      if is_high_surrogate c then
        match rest with
        | d :: rest' =>
            if is_low_surrogate d then c :: char_codes rest'
            else c :: char_codes rest
        | [] => [c]
        end
      else c :: char_codes rest
  end.

Definition urlEncodeAll (s : jsstring) : jsstring :=
  flat_map (fun c => 37 :: padStart0 (toUpperCase_ascii (toStringRadix c 16)) 2)
           (char_codes s).

Definition unicodeEncode (s : jsstring) : jsstring :=
  flat_map (fun c => [BACKSLASH; 117] ++ padStart0 (toStringRadix c 16) 4)
           (char_codes s).

Definition hexEncode (s : jsstring) : jsstring :=
  flat_map (fun c => [BACKSLASH; 120] ++ padStart0 (toStringRadix c 16) 2)
           (char_codes s).

Definition octalEncode (s : jsstring) : jsstring :=
  flat_map (fun c => [BACKSLASH] ++ padStart0 (toStringRadix c 8) 3)
           (char_codes s).

Definition htmlEntityEncode (s : jsstring) (useHex : bool) : jsstring :=
  flat_map (fun c => if useHex then str "&#x" ++ toStringRadix c 16 ++ str ";"
                     else str "&#" ++ toStringRadix c 10 ++ str ";")
           (char_codes s).

Definition overlongUtf8Encode (s : jsstring) : jsstring :=
  latin1_decode
    (Buffer_from_array
       (flat_map (fun code => if code <? 128
                              then [bor 192 (shr code 6); bor 128 (band code 63)]
                              else [code])
                 (char_codes s))).

(** [buffer.toString("base64")]. *)
Definition base64_char (v : Z) : Z :=
  if v <? 26 then 65 + v
  else if v <? 52 then 97 + (v - 26)
  else if v <? 62 then 48 + (v - 52)
  else if v =? 62 then 43 else 47.

Fixpoint base64_encode (bs : Buffer) : jsstring :=
  match bs with
  | [] => []
  | [a] => [base64_char (a / 4); base64_char ((a mod 4) * 16); 61; 61]
  | [a; b] =>
      [base64_char (a / 4); base64_char ((a mod 4) * 16 + b / 16);
       base64_char ((b mod 16) * 4); 61]
  | a :: b :: c :: rest =>
      [base64_char (a / 4); base64_char ((a mod 4) * 16 + b / 16);
       base64_char ((b mod 16) * 4 + c / 64); base64_char (c mod 64)]
      ++ base64_encode rest
  end.

Definition encode (s : jsstring) (type : EncodingType) : outcome jsstring :=
  match type with
  | url => urlEncode s
  | double_url => bind (urlEncode s) urlEncode
  | unicode => Returns (unicodeEncode s)
  | hex => Returns (hexEncode s)
  | octal => Returns (octalEncode s)
  | html_entity => Returns (htmlEntityEncode s true)
  | base64 => Returns (base64_encode (utf8_encode s))
  | overlong_utf8 => Returns (overlongUtf8Encode s)
  end.

Definition is_hex_digit (c : Z) : bool :=
  is_digit c || ((97 <=? c) && (c <=? 102)) || ((65 <=? c) && (c <=? 70)).

Definition hex_digit_value (c : Z) : Z :=
  if is_digit c then c - 48
  else if (97 <=? c) && (c <=? 102) then c - 87 else c - 55.

Fixpoint take_while (f : Z -> bool) (s : jsstring) : jsstring :=
  match s with
  | c :: s' => if f c then c :: take_while f s' else []
  | [] => []
  end.

(** [s.replace(/PREFIX(DIGITS+);/g, (_, d) => String.fromCharCode(parseInt(d,
    radix)))]: the matches are taken from the left and do not overlap;
    [skip] counts the characters of a match still to be passed.  The code
    unit is the value modulo 2^16 (exact for a value below 2^53). *)
Fixpoint replace_entities (prefix : jsstring) (is_dig : Z -> bool)
    (dig_val : Z -> Z) (radix : Z) (s : jsstring) (skip : nat) : jsstring :=
  match s with
  | [] => []
  | c :: s' =>
      match skip with
      | S k => replace_entities prefix is_dig dig_val radix s' k
      | O =>
          let ds := take_while is_dig (skipn (length prefix) s) in
          if starts_with prefix s
             && negb (length ds =? 0)%nat
             && starts_with (str ";") (skipn (length prefix + length ds) s)
          then
            (fold_left (fun acc d => acc * radix + dig_val d) ds 0) mod 65536
            :: replace_entities prefix is_dig dig_val radix s'
                 (length prefix + length ds)
          else c :: replace_entities prefix is_dig dig_val radix s' 0
      end
  end.

Definition htmlEntityDecode (s : jsstring) : jsstring :=
  replace_entities (str "&#") is_digit (fun c => c - 48) 10
    (replace_entities (str "&#x") is_hex_digit hex_digit_value 16 s 0) 0.

Section Decode.

(** The runtime's [decodeURIComponent], which throws on a malformed escape,
    and its base64 reader [Buffer.from(s, "base64")] are taken as given. *)
Variable decodeURIComponent : jsstring -> outcome jsstring.
Variable Buffer_from_base64 : jsstring -> Buffer.

Definition decode (s : jsstring) (type : EncodingType) : outcome jsstring :=
  match type with
  | url => decodeURIComponent s
  | double_url => bind (decodeURIComponent s) decodeURIComponent
  | base64 => Returns (utf8_decode (Buffer_from_base64 s))
  | html_entity => Returns (htmlEntityDecode s)
  | _ => Returns s
  end.

End Decode.

(** [s.replace(/PAT/g, rep)] for a pattern that is a fixed, non-empty text. *)
Fixpoint replace_all (pat rep : jsstring) (s : jsstring) (skip : nat) : jsstring :=
  match s with
  | [] => []
  | c :: s' =>
      match skip with
      | S k => replace_all pat rep s' k
      | O =>
          if starts_with pat s
          then rep ++ replace_all pat rep s' (length pat - 1)
          else c :: replace_all pat rep s' 0
      end
  end.

Definition pathTraversal (depth : nat) (encoding : option EncodingType)
  : outcome jsstring :=
  let traversal := repeat_str (str "../") depth in
  match encoding with
  | Some e => encode traversal e
  | None => Returns traversal
  end.

Definition pathTraversalVariants (depth : nat) : outcome (list jsstring) :=
  let base := repeat_str (str "../") depth in
  bind (urlEncode base) (fun enc1 =>
  bind (bind (urlEncode base) urlEncode) (fun enc2 =>
  Returns
    [ base;
      repeat_str (str ".." ++ [BACKSLASH]) depth;
      enc1;
      enc2;
      replace_all (str "..") (str "..%00") base 0;
      replace_all (str "..") (str "..%2500") base 0;
      replace_all (str "/") (str "%2f") base 0;
      replace_all (str "/") (str "%252f") base 0;
      repeat_str (str "....//") depth;
      repeat_str (str "..;/") depth;
      repeat_str (str ".." ++ [BACKSLASH] ++ str "/") depth;
      repeat_str (str "..%c0%af") depth;
      repeat_str (str "..%c1%9c") depth ])).

End Encoder.

(* ====================================================================== *)
(** * http2.ts: HPACK and the frame layer                                  *)
(* ====================================================================== *)

Module Http2.

(** [Http2FrameType] and [Http2Flags]. *)
Definition DATA : Z := 0.
Definition HEADERS : Z := 1.
Definition END_STREAM : Z := 1.
Definition END_HEADERS : Z := 4.
Definition PADDED : Z := 8.
Definition PRIORITY : Z := 32.

(** The other frame types, the flag of SETTINGS and PING, and the two
    settings the client announces. *)
Module Http2FrameType.
Definition PRIORITY : Z := 2.
Definition RST_STREAM : Z := 3.
Definition SETTINGS : Z := 4.
Definition PING : Z := 6.
Definition GOAWAY : Z := 7.
Definition WINDOW_UPDATE : Z := 8.
End Http2FrameType.

Module Http2Flags.
Definition ACK : Z := 1.
End Http2Flags.

Module Http2Settings.
Definition MAX_CONCURRENT_STREAMS : Z := 3.
Definition INITIAL_WINDOW_SIZE : Z := 4.
End Http2Settings.

(** [HTTP2_PREFACE]. *)
Definition HTTP2_PREFACE : Buffer :=
  str "PRI * HTTP/2.0" ++ CRLF ++ CRLF ++ str "SM" ++ CRLF ++ CRLF.

(** [Http2RequestOptions]; [o_headers] holds the entries of [headers] as
    [Object.entries] lists them. *)
Record Http2RequestOptions : Type := {
  o_method : jsstring;
  o_path : jsstring;
  o_authority : jsstring;
  o_scheme : option RequestBuilder.scheme_t;
  o_headers : option (list (jsstring * jsstring));
  o_body : option RequestBuilder.body_t
}.

(** The static table; index 0 is unused. *)
Definition HPACK_STATIC_TABLE : list (jsstring * jsstring) := [
    ([], []);
    (str ":authority", []);
    (str ":method", str "GET");
    (str ":method", str "POST");
    (str ":path", str "/");
    (str ":path", str "/index.html");
    (str ":scheme", str "http");
    (str ":scheme", str "https");
    (str ":status", str "200");
    (str ":status", str "204");
    (str ":status", str "206");
    (str ":status", str "304");
    (str ":status", str "400");
    (str ":status", str "404");
    (str ":status", str "500");
    (str "accept-charset", []);
    (str "accept-encoding", str "gzip, deflate");
    (str "accept-language", []);
    (str "accept-ranges", []);
    (str "accept", []);
    (str "access-control-allow-origin", []);
    (str "age", []);
    (str "allow", []);
    (str "authorization", []);
    (str "cache-control", []);
    (str "content-disposition", []);
    (str "content-encoding", []);
    (str "content-language", []);
    (str "content-length", []);
    (str "content-location", []);
    (str "content-range", []);
    (str "content-type", []);
    (str "cookie", []);
    (str "date", []);
    (str "etag", []);
    (str "expect", []);
    (str "expires", []);
    (str "from", []);
    (str "host", []);
    (str "if-match", []);
    (str "if-modified-since", []);
    (str "if-none-match", []);
    (str "if-range", []);
    (str "if-unmodified-since", []);
    (str "last-modified", []);
    (str "link", []);
    (str "location", []);
    (str "max-forwards", []);
    (str "proxy-authenticate", []);
    (str "proxy-authorization", []);
    (str "range", []);
    (str "referer", []);
    (str "refresh", []);
    (str "retry-after", []);
    (str "server", []);
    (str "set-cookie", []);
    (str "strict-transport-security", []);
    (str "transfer-encoding", []);
    (str "user-agent", []);
    (str "vary", []);
    (str "via", []);
    (str "www-authenticate", [])
  ].

Definition table : Type := list (jsstring * jsstring).

(** The position of the first entry from [i] on that satisfies [p], counted
    from [i]; 0 when the loop ends without one. *)
Fixpoint first_index (p : jsstring * jsstring -> bool) (l : table) (i : Z) : Z :=
  match l with
  | [] => 0
  | e :: l' => if p e then i else first_index p l' (i + 1)
  end.

Module HpackEncoder.

Definition maxDynamicTableSize : Z := 4096.

(** The loop [while (value >= 128)] of [encodeInteger] and the last group;
    [fuel] bounds the number of groups. *)
Fixpoint encodeInteger_loop (fuel : nat) (value : Z) : list Z :=
  match fuel with
  | O => [value]
  | S fuel' =>
      if 128 <=? value
      then (value mod 128 + 128) :: encodeInteger_loop fuel' (value / 128)
      else [value]
  end.

Definition encodeInteger (value prefixBits prefixValue : Z) : Buffer :=
  let maxPrefix := shl 1 prefixBits - 1 in
  if value <? maxPrefix then Buffer_from_array [bor prefixValue value]
  else
    let value' := value - maxPrefix in
    Buffer_from_array
      (bor prefixValue maxPrefix
       :: encodeInteger_loop (S (Z.to_nat (Z.log2 value'))) value').

(** The Huffman flag changes nothing: the string is written literally. *)
Definition encodeString (s : jsstring) (huffman : bool) : Buffer :=
  let strBytes := utf8_encode s in
  let lengthBuf := encodeInteger (len strBytes) 7 0 in
  lengthBuf ++ strBytes.

Definition findStaticTableIndex (name : jsstring) : Z :=
  let lowerName := toLowerCase name in
  first_index (fun e => streq (fst e) lowerName) (tl HPACK_STATIC_TABLE) 1.

Definition findStaticTableExactIndex (name value : jsstring) : Z :=
  let lowerName := toLowerCase name in
  first_index (fun e => streq (fst e) lowerName && streq (snd e) value)
              (tl HPACK_STATIC_TABLE) 1.

(** The bytes one header adds in [encodeHeadersLiteral]. *)
Definition encodeHeaderLiteral (h : jsstring * jsstring) : Buffer :=
  let '(name, value) := h in
  let staticIndex := findStaticTableIndex name in
  if 0 <? staticIndex then
    Buffer_from_array [bor 0 staticIndex] ++ encodeString value false
  else
    Buffer_from_array [0] ++ encodeString name false ++ encodeString value false.

Definition encodeHeadersLiteral (headers : Map jsstring) : Buffer :=
  flat_map encodeHeaderLiteral headers.

(** The bytes one header adds in [encodeHeaders]. *)
Definition encodeHeader (h : jsstring * jsstring) : Buffer :=
  let '(name, value) := h in
  let exactIndex := findStaticTableExactIndex name value in
  if 0 <? exactIndex then encodeInteger exactIndex 7 128
  else
    let nameIndex := findStaticTableIndex name in
    if 0 <? nameIndex then
      encodeInteger nameIndex 6 64 ++ encodeString value false
    else
      Buffer_from_array [64] ++ encodeString name false
      ++ encodeString value false.

Definition encodeHeaders (headers : Map jsstring) : Buffer :=
  flat_map encodeHeader headers.

End HpackEncoder.

Module HpackDecoder.

(** The [do ... while (byte & 0x80)] loop of [decodeInteger] over the bytes
    that follow the prefix; past the end of the buffer the byte read is
    [undefined], which ends the loop. *)
Fixpoint decodeInteger_loop (rest : Buffer) (value m bytesRead : Z) : Z * Z :=
  match rest with
  | [] => (value + shl (band 0 127) m, bytesRead + 1)
  | byte :: rest' =>
      let value' := value + shl (band byte 127) m in
      if negb (band byte 128 =? 0)
      then decodeInteger_loop rest' value' (m + 7) (bytesRead + 1)
      else (value', bytesRead + 1)
  end.

(** [{ value, bytesRead }]. *)
Definition decodeInteger (buffer : Buffer) (offset prefixBits : Z) : Z * Z :=
  let maxPrefix := shl 1 prefixBits - 1 in
  let value := band (byte_at buffer offset) maxPrefix in
  if value =? maxPrefix
  then decodeInteger_loop (bytes_from buffer (offset + 1)) value 0 1
  else (value, 1).

(** The two branches on the Huffman flag do the same. *)
Definition decodeString (buffer : Buffer) (offset : Z) : jsstring * Z :=
  let '(length, lenBytes) := decodeInteger buffer offset 7 in
  let strStart := offset + lenBytes in
  let strBytes := subarray buffer strStart (strStart + length) in
  (utf8_decode strBytes, lenBytes + length).

Definition getTableEntry (dynamicTable : table) (index : Z)
  : option (jsstring * jsstring) :=
  if index <=? 0 then None
  else if index <? len HPACK_STATIC_TABLE
  then nth_error HPACK_STATIC_TABLE (Z.to_nat index)
  else nth_error dynamicTable (Z.to_nat (index - len HPACK_STATIC_TABLE)).

(** The name and the value of a literal field whose index was read with
    [prefixBits], and the offset after it. *)
Definition decodeLiteral (dynamicTable : table) (buffer : Buffer)
    (offset prefixBits : Z) : jsstring * jsstring * Z :=
  let '(nameIndex, indexBytes) := decodeInteger buffer offset prefixBits in
  let offset := offset + indexBytes in
  let '(name, offset) :=
    if 0 <? nameIndex then
      (match getTableEntry dynamicTable nameIndex with
       | Some entry => fst entry
       | None => []
       end, offset)
    else
      let '(nameStr, nameBytes) := decodeString buffer offset in
      (nameStr, offset + nameBytes) in
  let '(value, valueBytes) := decodeString buffer offset in
  (name, value, offset + valueBytes).

(** One turn of the loop of [decodeHeaders]: the new offset, the headers and
    the dynamic table. *)
Definition decodeField (dynamicTable : table) (buffer : Buffer) (offset : Z)
    (headers : Map jsstring) : Z * Map jsstring * table :=
  let byte := byte_at buffer offset in
  if negb (band byte 128 =? 0) then
    let '(index, bytesRead) := decodeInteger buffer offset 7 in
    (offset + bytesRead,
     match getTableEntry dynamicTable index with
     | Some entry => Map_set headers (fst entry) (snd entry)
     | None => headers
     end,
     dynamicTable)
  else if negb (band byte 64 =? 0) then
    let '(name, value, offset') := decodeLiteral dynamicTable buffer offset 6 in
    (offset', Map_set headers name value, (name, value) :: dynamicTable)
  else if negb (band byte 32 =? 0) then
    let '(maxSize, bytesRead) := decodeInteger buffer offset 5 in
    (offset + bytesRead, headers, if maxSize =? 0 then [] else dynamicTable)
  else
    let prefix := if negb (band byte 16 =? 0) then 4 else 4 in
    let '(name, value, offset') := decodeLiteral dynamicTable buffer offset prefix in
    (offset', Map_set headers name value, dynamicTable).

(** The loop [while (offset < buffer.length)].  A length read from the wire
    can be negative after the 32-bit shift, which moves the offset back, so
    the loop need not end; [None] says it did not end within [fuel] turns. *)
Fixpoint decodeHeaders_loop (fuel : nat) (dynamicTable : table) (buffer : Buffer)
    (offset : Z) (headers : Map jsstring) : option (Map jsstring * table) :=
  if offset <? len buffer then
    match fuel with
    | O => None
    | S fuel' =>
        let '(offset', headers', dynamicTable') :=
          decodeField dynamicTable buffer offset headers in
        decodeHeaders_loop fuel' dynamicTable' buffer offset' headers'
    end
  else Some (headers, dynamicTable).

(** [decodeHeaders(buffer)] on a decoder whose dynamic table is
    [dynamicTable]: the headers and the table it leaves. *)
Definition decodeHeaders (fuel : nat) (dynamicTable : table) (buffer : Buffer)
  : option (Map jsstring * table) :=
  decodeHeaders_loop fuel dynamicTable buffer 0 [].

End HpackDecoder.

Module Http2Frame.
Record t : Type := {
  length : Z;
  type : Z;
  flags : Z;
  streamId : Z;
  payload : Buffer
}.
End Http2Frame.

Module Http2Response.
Record t : Type := {
  streamId : Z;
  statusCode : number;
  headers : Map (list jsstring);
  body : Buffer;
  frames : list Http2Frame.t
}.
End Http2Response.

Module Http2FrameBuilder.

Definition buildFrame (type flags streamId : Z) (payload : Buffer)
  : outcome Buffer :=
  bind (uint24_bytes (len payload)) (fun b_length =>
  bind (uint8_bytes type) (fun b_type =>
  bind (uint8_bytes flags) (fun b_flags =>
  bind (uint32_bytes (band streamId 2147483647)) (fun b_stream =>
  Returns (b_length ++ b_type ++ b_flags ++ b_stream ++ payload))))).

(** The payload of a SETTINGS frame: six bytes for every setting, in the
    order of the map; the writes fill the allocated buffer from left to
    right. *)
Fixpoint settings_payload (settings : NumMap) : outcome Buffer :=
  match settings with
  | [] => Returns []
  | (id, value) :: rest =>
      bind (uint16_bytes id) (fun b_id =>
      bind (uint32_bytes value) (fun b_value =>
      bind (settings_payload rest) (fun payload =>
      Returns (b_id ++ b_value ++ payload))))
  end.

Definition buildSettingsFrame (settings : NumMap) (ack : bool) : outcome Buffer :=
  if ack then buildFrame Http2FrameType.SETTINGS Http2Flags.ACK 0 (Buffer_alloc 0)
  else
    bind (settings_payload settings) (fun payload =>
    buildFrame Http2FrameType.SETTINGS 0 0 payload).

Definition buildHeadersFrame (streamId : Z) (headers : Map jsstring)
    (endStream endHeaders useLiteralEncoding : bool) : outcome Buffer :=
  let headerBlock :=
    if useLiteralEncoding then HpackEncoder.encodeHeadersLiteral headers
    else HpackEncoder.encodeHeaders headers in
  let flags := 0 in
  let flags := if endStream then bor flags END_STREAM else flags in
  let flags := if endHeaders then bor flags END_HEADERS else flags in
  buildFrame HEADERS flags streamId headerBlock.

(** With a pad length above 0 the payload is the pad length, the data and
    that many zero bytes. *)
Definition buildDataFrame (streamId : Z) (data : Buffer) (endStream : bool)
    (padLength : option Z) : outcome Buffer :=
  let flags := 0 in
  let flags := if endStream then bor flags END_STREAM else flags in
  match padLength with
  | Some p =>
      if 0 <? p then
        let flags := bor flags PADDED in
        bind (uint8_bytes p) (fun b_pad =>
        buildFrame DATA flags streamId (b_pad ++ data ++ Buffer_alloc p))
      else buildFrame DATA flags streamId data
  | None => buildFrame DATA flags streamId data
  end.

Definition buildWindowUpdateFrame (streamId increment : Z) : outcome Buffer :=
  bind (uint32_bytes (band increment 2147483647)) (fun payload =>
  buildFrame Http2FrameType.WINDOW_UPDATE 0 streamId payload).

(** The payload is eight bytes: the first bytes of [data], at most eight,
    and zero bytes after them. *)
Definition buildPingFrame (data : Buffer) (ack : bool) : outcome Buffer :=
  let n := Z.min 8 (len data) in
  let payload := firstn (Z.to_nat n) data ++ Buffer_alloc (8 - n) in
  let flags := if ack then Http2Flags.ACK else 0 in
  buildFrame Http2FrameType.PING flags 0 payload.

Definition buildPriorityFrame (streamId dependency weight : Z)
    (exclusive : bool) : outcome Buffer :=
  let depValue := if exclusive then bor dependency 2147483648 else dependency in
  bind (uint32_bytes depValue) (fun b_dep =>
  bind (uint8_bytes (weight - 1)) (fun b_weight =>
  buildFrame Http2FrameType.PRIORITY 0 streamId (b_dep ++ b_weight))).

(** The header map [buildRequest] builds: the four pseudo-headers, then the
    entries of [options.headers] under their names in lower case. *)
Definition buildRequest_headers (options : Http2RequestOptions) : Map jsstring :=
  let headers := [] in
  let headers := Map_set headers (str ":method") (o_method options) in
  let headers := Map_set headers (str ":path") (o_path options) in
  let headers :=
    Map_set headers (str ":scheme")
      (match o_scheme options with
       | Some s => RequestBuilder.scheme_text s
       | None => str "https"
       end) in
  let headers := Map_set headers (str ":authority") (o_authority options) in
  match o_headers options with
  | Some entries =>
      fold_left (fun hs e => Map_set hs (toLowerCase (fst e)) (snd e))
                entries headers
  | None => headers
  end.

(** [options.body && options.body.length > 0]. *)
Definition buildRequest_hasBody (options : Http2RequestOptions) : bool :=
  match o_body options with
  | Some (RequestBuilder.BodyString (_ :: _)) => true
  | Some (RequestBuilder.BodyBuffer (_ :: _)) => true
  | _ => false
  end.

(** The bytes of the body: [Buffer.from(body)] for a string. *)
Definition buildRequest_bodyBuffer (options : Http2RequestOptions) : Buffer :=
  match o_body options with
  | Some (RequestBuilder.BodyString s) => utf8_encode s
  | Some (RequestBuilder.BodyBuffer x) => x
  | None => []
  end.

(** [buildRequest(options)]: the preface, the SETTINGS frame, the HEADERS
    frame of stream 1 and, for a body that is not empty, its DATA frame. *)
Definition buildRequest (options : Http2RequestOptions) : outcome Buffer :=
  let settings := [] in
  let settings := NumMap_set settings Http2Settings.MAX_CONCURRENT_STREAMS 100 in
  let settings := NumMap_set settings Http2Settings.INITIAL_WINDOW_SIZE 65535 in
  bind (buildSettingsFrame settings false) (fun settingsFrame =>
  let headers := buildRequest_headers options in
  let hasBody := buildRequest_hasBody options in
  let streamId := 1 in
  bind (buildHeadersFrame streamId headers (negb hasBody) true false)
       (fun headersFrame =>
  if hasBody then
    let bodyBuffer := buildRequest_bodyBuffer options in
    bind (buildDataFrame streamId bodyBuffer true None) (fun dataFrame =>
    Returns (HTTP2_PREFACE ++ settingsFrame ++ headersFrame ++ dataFrame))
  else Returns (HTTP2_PREFACE ++ settingsFrame ++ headersFrame))).

End Http2FrameBuilder.

Module Http2FrameParser.

(** [{ frame, bytesRead } | null]. *)
Definition parseFrame (buffer : Buffer) (offset : Z)
  : outcome (option (Http2Frame.t * Z)) :=
  if len buffer - offset <? 9 then Returns None
  else
    bind (readUInt24BE buffer offset) (fun length =>
    bind (readUInt8 buffer (offset + 3)) (fun type =>
    bind (readUInt8 buffer (offset + 4)) (fun flags =>
    bind (readUInt32BE buffer (offset + 5)) (fun word =>
    let streamId := band word 2147483647 in
    if len buffer - offset <? 9 + length then Returns None
    else
      let payload := subarray buffer (offset + 9) (offset + 9 + length) in
      Returns (Some ({| Http2Frame.length := length;
                        Http2Frame.type := type;
                        Http2Frame.flags := flags;
                        Http2Frame.streamId := streamId;
                        Http2Frame.payload := payload |},
                     9 + length)))))).

Record priority_t : Type := {
  exclusive : bool;
  dependency : Z;
  weight : Z
}.

(** [parseHeadersPayload(frame)] on a parser whose HPACK decoder holds
    [dynamicTable].  The outer [option] is that of [decodeHeaders]. *)
Definition parseHeadersPayload (fuel : nat) (dynamicTable : table)
    (frame : Http2Frame.t)
  : outcome (option (Map jsstring * option priority_t * table)) :=
  let payload := Http2Frame.payload frame in
  let offset := 0 in
  bind (if negb (band (Http2Frame.flags frame) PADDED =? 0)
        then bind (readUInt8 payload offset) (fun p => Returns (p, offset + 1))
        else Returns (0, offset)) (fun '(padLength, offset) =>
  bind (if negb (band (Http2Frame.flags frame) PRIORITY =? 0)
        then
          bind (readUInt32BE payload offset) (fun depField =>
          bind (readUInt8 payload (offset + 4)) (fun w =>
          Returns (Some {| exclusive := negb (band depField 2147483648 =? 0);
                           dependency := band depField 2147483647;
                           weight := w + 1 |},
                   offset + 5)))
        else Returns (None, offset)) (fun '(priority, offset) =>
  let headerBlockEnd := len payload - padLength in
  let headerBlock := subarray payload offset headerBlockEnd in
  Returns
    (match HpackDecoder.decodeHeaders fuel dynamicTable headerBlock with
     | Some (headers, dynamicTable') => Some (headers, priority, dynamicTable')
     | None => None
     end))).

(** The frames [extractResponse] keeps. *)
Definition streamFrames (frames : list Http2Frame.t) (streamId : Z)
  : list Http2Frame.t :=
  filter (fun f => (Http2Frame.streamId f =? streamId)
                   || (Http2Frame.streamId f =? 0)) frames.

(** The loop over the decoded header map: the status code and the response
    headers. *)
Definition responseHeaders_step (acc : number * Map (list jsstring))
    (h : jsstring * jsstring) : number * Map (list jsstring) :=
  let '(statusCode, headers) := acc in
  let '(name, value) := h in
  if streq name (str ":status") then (parseInt10 value, headers)
  else if negb (starts_with (str ":") name) then
    match Map_get headers name with
    | Some existing => (statusCode, Map_set headers name (existing ++ [value]))
    | None => (statusCode, Map_set headers name [value])
    end
  else (statusCode, headers).

(** [extractResponse(frames, streamId)]: [Http2Response | null], or nothing
    when the header block did not decode within [fuel] turns. *)
Definition extractResponse (fuel : nat) (dynamicTable : table)
    (frames : list Http2Frame.t) (streamId : Z)
  : outcome (option (option Http2Response.t)) :=
  let streamFrames := streamFrames frames streamId in
  match find (fun f => Http2Frame.type f =? HEADERS) streamFrames with
  | None => Returns (Some None)
  | Some headersFrame =>
      bind (parseHeadersPayload fuel dynamicTable headersFrame) (fun r =>
      match r with
      | None => Returns None
      | Some (headerMap, _, _) =>
          let '(statusCode, headers) :=
            fold_left responseHeaders_step headerMap (Num 200, []) in
          let dataFrames :=
            filter (fun f => Http2Frame.type f =? DATA) streamFrames in
          let body := concat (map Http2Frame.payload dataFrames) in
          Returns (Some (Some {| Http2Response.streamId := streamId;
                                 Http2Response.statusCode := statusCode;
                                 Http2Response.headers := headers;
                                 Http2Response.body := body;
                                 Http2Response.frames := streamFrames |}))
      end)
  end.

(** The loop of [parseAllFrames]: it ends when the offset reaches the end
    of the buffer or no whole frame is left.  Every turn moves the offset by
    nine bytes at least; [None] says the loop did not end within [fuel]
    turns. *)
Fixpoint parseAllFrames_loop (fuel : nat) (buffer : Buffer) (offset : Z)
    (frames : list Http2Frame.t) : outcome (option (list Http2Frame.t)) :=
  if offset <? len buffer then
    match fuel with
    | O => Returns None
    | S fuel' =>
        bind (parseFrame buffer offset) (fun result =>
        match result with
        | None => Returns (Some frames)
        | Some (frame, bytesRead) =>
            parseAllFrames_loop fuel' buffer (offset + bytesRead)
                                (frames ++ [frame])
        end)
    end
  else Returns (Some frames).

Definition parseAllFrames (fuel : nat) (buffer : Buffer)
  : outcome (option (list Http2Frame.t)) :=
  parseAllFrames_loop fuel buffer 0 [].

(** The loop [for (i = 0; i < payload.length; i += 6)] of
    [parseSettingsPayload], which makes [n] turns. *)
Fixpoint parseSettingsPayload_loop (n : nat) (payload : Buffer) (i : Z)
    (settings : NumMap) : outcome NumMap :=
  match n with
  | O => Returns settings
  | S n' =>
      bind (readUInt16BE payload i) (fun id =>
      bind (readUInt32BE payload (i + 2)) (fun value =>
      parseSettingsPayload_loop n' payload (i + 6) (NumMap_set settings id value)))
  end.

Definition parseSettingsPayload (frame : Http2Frame.t) : outcome NumMap :=
  let payload := Http2Frame.payload frame in
  parseSettingsPayload_loop (Z.to_nat ((len payload + 5) / 6)) payload 0 [].

End Http2FrameParser.

End Http2.

(* ====================================================================== *)
(** * response.ts and client.ts: the response parser and the splitter      *)
(* ====================================================================== *)

(** A pattern of ASCII letters under the flag [i]: a letter matches its two
    cases and nothing else, any other character only itself. *)
Fixpoint starts_with_ci (p s : jsstring) : bool :=
  match p, s with
  | [], _ => true
  | x :: p', y :: s' => (upper_unit x =? upper_unit y) && starts_with_ci p' s'
  | _ :: _, [] => false
  end.

Definition LFLF : jsstring := [LF; LF].
Definition CRLFCRLF : jsstring := [CR; LF; CR; LF].

Module RawResponse.
(** [timing], which only the transport fills, is left out. *)
Record t : Type := {
  raw : jsstring;
  rawBuffer : Buffer;
  statusCode : Z;
  statusMessage : jsstring;
  httpVersion : jsstring;
  headers : Map (list jsstring);
  body : jsstring;
  bodyBuffer : Buffer;
  parseError : option jsstring
}.
End RawResponse.

Module ResponseParser.

(** [statusLine.match(re)] for the status-line pattern, anchored at both
    ends and insensitive to case: the text HTTP and a slash; one or more
    digits, an optional dot and any digits (group 1); white space; one or
    more digits (group 2); optional white space; the rest of the line
    (group 3).  The result is the three groups, or nothing.  Every
    quantifier is followed by a class disjoint from its own, so the greedy
    reading is the only one; the dot of group 3 stops at a line
    terminator. *)
Definition statusMatch (statusLine : jsstring)
  : option (jsstring * jsstring * jsstring) :=
  if starts_with_ci (str "HTTP/") statusLine then
    let s1 := skipn 5 statusLine in
    let major := take_digits s1 in
    let s2 := drop_digits s1 in
    let '(dot, s3) := match s2 with
                      | 46 :: r => ([46], r)
                      | _ => ([], s2)
                      end in
    let minor := take_digits s3 in
    let s4 := drop_digits s3 in
    let s5 := trimStart s4 in
    let code := take_digits s5 in
    let s6 := drop_digits s5 in
    let message := trimStart s6 in
    match major, (length s5 <? length s4)%nat, code with
    | _ :: _, true, _ :: _ =>
        if existsb is_line_terminator message then None
        else Some (major ++ dot ++ minor, code, message)
    | _, _, _ => None
    end
  else None.

(** The body of the loop over [lines[1..]]. *)
Definition header_step (headers : Map (list jsstring)) (line : jsstring)
  : Map (list jsstring) :=
  match line with
  | [] => headers
  | _ :: _ =>
      let colonIndex := indexOf line (str ":") in
      if 0 <? colonIndex then
        let name := toLowerCase (trim (substring line 0 colonIndex)) in
        let value := trim (substringFrom line (colonIndex + 1)) in
        match Map_get headers name with
        | Some existing => Map_set headers name (existing ++ [value])
        | None => Map_set headers name [value]
        end
      else headers
  end.

(** Where the header section ends and how long the separator is. *)
Definition header_end (rawString : jsstring) : Z * Z :=
  let headerEndIndex := indexOf rawString CRLFCRLF in
  if headerEndIndex =? -1 then
    let headerEndIndex := indexOf rawString LFLF in
    if headerEndIndex =? -1 then (len rawString, 0)
    else (headerEndIndex, 2)
  else (headerEndIndex, 4).

(** [lines[0] || ""]. *)
Definition first_line (lines : list jsstring) : jsstring :=
  match lines with
  | l :: _ => l
  | [] => []
  end.

(** [ResponseParser.parse(raw)].  Nothing in the [try] block throws, so the
    [catch] branch is not reached. *)
Definition parse (raw : Buffer) : RawResponse.t :=
  let rawString := utf8_decode raw in
  let '(headerEndIndex, separatorLength) := header_end rawString in
  let headerSection := substring rawString 0 headerEndIndex in
  let bodyStart := headerEndIndex + separatorLength in
  let lines := split_lines headerSection in
  let statusLine := first_line lines in
  let '(httpVersion, statusCode, statusMessage, parseError) :=
    match statusMatch statusLine with
    | Some (version, code, message) =>
        (version, decimal_value code, message, None)
    | None =>
        ([], 0, [], Some (str "Invalid status line: " ++ statusLine))
    end in
  {| RawResponse.raw := rawString;
     RawResponse.rawBuffer := raw;
     RawResponse.statusCode := statusCode;
     RawResponse.statusMessage := statusMessage;
     RawResponse.httpVersion := httpVersion;
     RawResponse.headers := fold_left header_step (tl lines) [];
     RawResponse.body := substringFrom rawString bodyStart;
     RawResponse.bodyBuffer := subarrayFrom raw bodyStart;
     RawResponse.parseError := parseError |}.

End ResponseParser.

(* ====================================================================== *)
(** * response.ts: the analyzer                                            *)
(* ====================================================================== *)

Module ResponseAnalyzer.





Record SmugglingIndicators : Type := {
  hasContentLength : bool;
  hasTransferEncoding : bool;
  hasBothCLTE : bool;
  contentLengthCount : Z;
  transferEncodingCount : Z
}.

Definition checkSmugglingIndicators (response : RawResponse.t)
  : SmugglingIndicators :=
  let clValues :=
    match Map_get (RawResponse.headers response) (str "content-length") with
    | Some l => l
    | None => []
    end in
  let teValues :=
    match Map_get (RawResponse.headers response) (str "transfer-encoding") with
    | Some l => l
    | None => []
    end in
  {| hasContentLength := 0 <? len clValues;
     hasTransferEncoding := 0 <? len teValues;
     hasBothCLTE := (0 <? len clValues) && (0 <? len teValues);
     contentLengthCount := len clValues;
     transferEncodingCount := len teValues |}.

End ResponseAnalyzer.

Module RawHttp.

(** [headerSection.match(re)] for the pattern: the text content-length and
    a colon in any case, optional white space, one or more digits (the
    group).  The result is the digits of the leftmost match, wherever in the
    section it is. *)
Fixpoint clMatch (s : jsstring) : option jsstring :=
  match s with
  | [] => None
  | _ :: s' =>
      if starts_with_ci (str "content-length:") s then
        match take_digits (trimStart (skipn 15 s)) with
        | [] => clMatch s'
        | ds => Some ds
        end
      else clMatch s'
  end.

(** [headerSection.match(re)] for the pattern: the text transfer-encoding
    and a colon, optional white space, the text chunked, all in any case; as
    a truth value. *)
Fixpoint teMatch (s : jsstring) : bool :=
  match s with
  | [] => false
  | _ :: s' =>
      (starts_with_ci (str "transfer-encoding:") s
       && starts_with_ci (str "chunked") (trimStart (skipn 18 s)))
      || teMatch s'
  end.

Definition chunked_terminator : jsstring := [48; CR; LF; CR; LF].

(** The search for the end of the headers: [headerEnd] and [sepLen], with
    [headerEnd = -1] when neither separator is found. *)
Definition find_header_end (remaining : jsstring) : Z * Z :=
  let headerEnd := indexOf remaining CRLFCRLF in
  if headerEnd =? -1 then (indexOf remaining LFLF, 2) else (headerEnd, 4).

(** [bodyEnd] for a response whose header section ends at [headerEnd]. *)
Definition bodyEnd_of (remaining : jsstring) (headerEnd sepLen : Z) : Z :=
  let headerSection := substring remaining 0 headerEnd in
  match clMatch headerSection with
  | Some digits =>
      let contentLength := decimal_value digits in
      headerEnd + sepLen + contentLength
  | None =>
      if teMatch headerSection then
        let chunkedEnd := indexOfFrom remaining chunked_terminator headerEnd in
        if negb (chunkedEnd =? -1) then chunkedEnd + 5 else len remaining
      else headerEnd + sepLen
  end.

(** The loop of [parseMultipleResponses]; [n] is the number of responses
    still expected. *)
Fixpoint parseMultipleResponses_loop (n : nat) (remaining : jsstring)
  : list RawResponse.t :=
  match n with
  | O => []
  | S n' =>
      match remaining with
      | [] => []
      | _ :: _ =>
          let '(headerEnd, sepLen) := find_header_end remaining in
          if headerEnd =? -1 then [ResponseParser.parse (utf8_encode remaining)]
          else
            let bodyEnd := bodyEnd_of remaining headerEnd sepLen in
            let responseStr := substring remaining 0 bodyEnd in
            ResponseParser.parse (utf8_encode responseStr)
            :: parseMultipleResponses_loop n' (substringFrom remaining bodyEnd)
      end
  end.

(** [parseMultipleResponses(buffer)] in a send that expects
    [expectedResponses] responses. *)
Definition parseMultipleResponses (expectedResponses : nat) (buffer : Buffer)
  : list RawResponse.t :=
  parseMultipleResponses_loop expectedResponses (utf8_decode buffer).

(** [RawHttp.absoluteURI(options)]: a GET request whose request target is
    an absolute URI.  A missing option, port 0 and the empty path take the
    defaults. *)
Definition absoluteURI (host : jsstring) (port : option Z)
    (path : option jsstring) (protocol : option RequestBuilder.scheme_t)
  : jsstring :=
  let port := match port with
              | Some p => if p =? 0 then 80 else p
              | None => 80
              end in
  let protocol := match protocol with
                  | Some s => s
                  | None => RequestBuilder.http
                  end in
  let path := match path with
              | Some (c :: p) => c :: p
              | _ => str "/"
              end in
  let portSuffix :=
    if (match protocol with RequestBuilder.http => true | _ => false end
        && (port =? 80))
       || (match protocol with RequestBuilder.https => true | _ => false end
           && (port =? 443))
    then []
    else str ":" ++ number_toString port in
  RequestBuilder.build
    (RequestBuilder.header (str "Host") host
       (RequestBuilder.path
          (RequestBuilder.scheme_text protocol ++ str "://" ++ host
           ++ portSuffix ++ path)
          (RequestBuilder.method (str "GET") RequestBuilder.new))).

Module Chunk.
(** [{ size?, data, malformed? }]; a [malformed] that is left out counts as
    [false].  The size is an integer. *)
Record t : Type := {
  size : option Z;
  data : jsstring;
  malformed : bool
}.
End Chunk.

(** What the loop of [createChunkedBody] adds for one chunk: the size line
    and the data line. *)
Definition chunk_text (chunk : Chunk.t) : jsstring :=
  let size := match Chunk.size chunk with
              | Some n => n
              | None => len (utf8_encode (Chunk.data chunk))
              end in
  (if Chunk.malformed chunk
   then number_toStringRadix size 16 ++ str "; extension=value" ++ CRLF
   else number_toStringRadix size 16 ++ CRLF)
  ++ (Chunk.data chunk ++ CRLF).

(** [RawHttp.createChunkedBody(chunks)]. *)
Definition createChunkedBody (chunks : list Chunk.t) : jsstring :=
  let body := fold_left (fun body chunk => body ++ chunk_text chunk) chunks [] in
  body ++ str "0" ++ CRLFCRLF.

End RawHttp.

(* ====================================================================== *)
(** * diff.ts: the comparison of raw texts                                 *)
(* ====================================================================== *)

Module Diff.

(** [escapeChar(char)], on the code unit of the character. *)
Definition escapeChar (code : Z) : jsstring :=
  if code =? 13 then [BACKSLASH; 114]
  else if code =? 10 then [BACKSLASH; 110]
  else if code =? 9 then [BACKSLASH; 116]
  else if code =? 0 then [BACKSLASH; 48]
  else if (code <? 32) || (126 <? code)
       then [BACKSLASH; 120] ++ padStart0 (toStringRadix code 16) 2
       else [code].

Record difference : Type := {
  index : Z;
  char1 : jsstring;
  char2 : jsstring
}.

Record comparison : Type := {
  identical : bool;
  differences : list difference;
  lengthDiff : Z
}.

(** [str[i] ?? ""], then [char ? escapeChar(char) : "<missing>"]: a position
    past the end of a text reads as missing. *)
Definition char_label (char : option Z) : jsstring :=
  match char with
  | Some code => escapeChar code
  | None => str "<missing>"
  end.

(** [char1 !== char2]. *)
Definition char_differs (char1 char2 : option Z) : bool :=
  match char1, char2 with
  | Some a, Some b => negb (a =? b)
  | None, None => false
  | _, _ => true
  end.

(** The body of the loop of [compareRaw] at the position [i]. *)
Definition compareRaw_step (str1 str2 : jsstring) (i : nat) : list difference :=
  let char1 := nth_error str1 i in
  let char2 := nth_error str2 i in
  if char_differs char1 char2
  then [{| index := Z.of_nat i; char1 := char_label char1;
           char2 := char_label char2 |}]
  else [].

Definition compareRaw (str1 str2 : jsstring) : comparison :=
  let maxLen := Nat.max (length str1) (length str2) in
  let differences := flat_map (compareRaw_step str1 str2) (seq 0 maxLen) in
  {| identical := match differences with [] => true | _ => false end;
     differences := differences;
     lengthDiff := len str2 - len str1 |}.

End Diff.

(* ====================================================================== *)
(** * Notions the properties are stated with                               *)
(* ====================================================================== *)

(** Seven-bit text: every code unit, or byte, is below 128. *)
Definition ascii_text (s : jsstring) : Prop :=
  forallb (fun c => (0 <=? c) && (c <? 128)) s = true.

(** A name without upper-case letters A to Z. *)
Definition lower_case_name (s : jsstring) : Prop :=
  forallb (fun c => negb ((65 <=? c) && (c <=? 90))) s = true.

(** The status-line pattern of the specification, read as a relation on the
    line: the text HTTP and a slash in any case; one or more digits, an
    optional dot, any digits; one or more white-space characters; one or
    more digits; any white space; and a rest without line terminator. *)
Definition status_line_regex (line : jsstring) : Prop :=
  exists h major dot minor ws1 code ws2 message,
    line = h ++ major ++ dot ++ minor ++ ws1 ++ code ++ ws2 ++ message
    /\ map upper_unit h = str "HTTP/"
    /\ major <> [] /\ forallb is_digit major = true
    /\ (dot = [] \/ dot = [46])
    /\ forallb is_digit minor = true
    /\ ws1 <> [] /\ forallb is_space ws1 = true
    /\ code <> [] /\ forallb is_digit code = true
    /\ forallb is_space ws2 = true
    /\ existsb is_line_terminator message = false.

(** A response the splitter frames on its own: it has a header/body
    separator, and it ends where its body rule says.  With a content length
    in the header section it ends that many code units after the separator;
    otherwise, with a chunked transfer encoding, five code units past the
    first chunked terminator found from the separator on; otherwise at the
    end of the separator.  The header section is searched the way the code
    searches it. *)
Definition framed (r : jsstring) : bool :=
  let '(headerEnd, sepLen) := RawHttp.find_header_end r in
  negb (headerEnd =? -1)
  && let headerSection := substring r 0 headerEnd in
     match RawHttp.clMatch headerSection with
     | Some digits => len r =? headerEnd + sepLen + decimal_value digits
     | None =>
         if RawHttp.teMatch headerSection then
           let chunkedEnd := indexOfFrom r RawHttp.chunked_terminator headerEnd in
           negb (chunkedEnd =? -1) && (len r =? chunkedEnd + 5)
         else len r =? headerEnd + sepLen
     end.


(** The size HPACK gives a table entry, within the encoder's table size. *)
Definition entry_within_table_size (h : jsstring * jsstring) : Prop :=
  len (fst h) + len (snd h) + 32 <= Http2.HpackEncoder.maxDynamicTableSize.

(** A header the round trip is stated for: seven-bit name and value, no
    upper-case letter in the name, and an entry that fits the table. *)
Definition hpack_header_ok (h : jsstring * jsstring) : Prop :=
  ascii_text (fst h) /\ ascii_text (snd h) /\ lower_case_name (fst h)
  /\ entry_within_table_size h.

(** The status code and the header multimap of a response, read off a
    decoded header map: the value of [:status] as a number, 200 when there
    is none; and every header that is not a pseudo-header, in order, each
    with its one value. *)
Definition response_status (headerMap : Map jsstring) : number :=
  match Map_get headerMap (str ":status") with
  | Some v => parseInt10 v
  | None => Num 200
  end.

Definition response_headers (headerMap : Map jsstring) : Map (list jsstring) :=
  map (fun h => (fst h, [snd h]))
      (filter (fun h => negb (starts_with (str ":") (fst h))) headerMap).

(** ** Auxiliary functions of the proofs *)

(** The first position at which [p] starts in [s]. *)
Fixpoint first_occurrence (p s : jsstring) : option nat :=
  if starts_with p s then Some O
  else match s with
       | [] => None
       | _ :: s' => option_map S (first_occurrence p s')
       end.

(** The integers from [lo] on, [n] of them: a property of every integer of a
    range is checked by evaluation on this list. *)
Fixpoint range_from (lo : Z) (n : nat) : list Z :=
  match n with
  | O => []
  | S n' => lo :: range_from (lo + 1) n'
  end.

(** ** Strings of the language *)

(** Every code unit is below 2^16. *)
Definition code_units (s : jsstring) : Prop :=
  forallb (fun c => (0 <=? c) && (c <? 65536)) s = true.

(** A high surrogate directly followed by a low one: the two code units the
    iteration by code points takes as one character. *)
Fixpoint has_surrogate_pair (s : jsstring) : bool :=
  match s with
  | c :: rest =>
      match rest with
      | d :: _ =>
          (is_high_surrogate c && is_low_surrogate d) || has_surrogate_pair rest
      | [] => false
      end
  | [] => false
  end.

(** The characters a URL-encoded text is made of: letters, digits, the four
    marks [- _ . ~] and the percent sign. *)
Definition url_safe (c : Z) : bool :=
  ((65 <=? c) && (c <=? 90)) || ((97 <=? c) && (c <=? 122)) || is_digit c
  || (c =? 45) || (c =? 95) || (c =? 46) || (c =? 126) || (c =? 37).

(** A surrogate without its partner: a low one that follows no high one, or
    a high one that no low one follows. *)
Fixpoint has_lone_surrogate (s : jsstring) : bool :=
  match s with
  | [] => false
  | c :: rest =>
      if is_high_surrogate c then
        match rest with
        | d :: rest' =>
            if is_low_surrogate d then has_lone_surrogate rest' else true
        | [] => true
        end
      else if is_low_surrogate c then true
      else has_lone_surrogate rest
  end.

(** ** Frames on the wire *)

(** A frame whose fields fit their places in the nine-byte header and whose
    length field is the length of its payload. *)
Definition wire_frame (f : Http2.Http2Frame.t) : Prop :=
  0 <= Http2.Http2Frame.type f < 256
  /\ 0 <= Http2.Http2Frame.flags f < 256
  /\ 0 <= Http2.Http2Frame.streamId f < 2 ^ 31
  /\ Http2.Http2Frame.length f = len (Http2.Http2Frame.payload f)
  /\ len (Http2.Http2Frame.payload f) < 2 ^ 24.

(** The bytes [buildFrame] gives for the fields of a frame. *)
Definition frame_bytes (f : Http2.Http2Frame.t) : outcome Buffer :=
  Http2.Http2FrameBuilder.buildFrame
    (Http2.Http2Frame.type f) (Http2.Http2Frame.flags f)
    (Http2.Http2Frame.streamId f) (Http2.Http2Frame.payload f).

(** A buffer holds bytes. *)
Definition is_bytes (b : Buffer) : Prop :=
  forallb (fun x => (0 <=? x) && (x <? 256)) b = true.

(** ** Header lines *)

(** The lines of the header section that follow the first one. *)
Definition header_lines (raw : Buffer) : list jsstring :=
  let rawString := utf8_decode raw in
  tl (split_lines (substring rawString 0 (fst (ResponseParser.header_end rawString)))).

(** The name and the value a line gives: what stands before the first colon,
    trimmed and in lower case, and what stands after it, trimmed; nothing
    for an empty line and for a line with no colon or with a colon in the
    first place. *)
Definition header_field (line : jsstring) : option (jsstring * jsstring) :=
  match line with
  | [] => None
  | _ :: _ =>
      let colonIndex := indexOf line (str ":") in
      if 0 <? colonIndex
      then Some (toLowerCase (trim (substring line 0 colonIndex)),
                 trim (substringFrom line (colonIndex + 1)))
      else None
  end.

(** The values of the lines whose name is [name], in the order of the
    lines. *)
Definition header_values (name : jsstring) (lines : list jsstring)
  : list jsstring :=
  flat_map (fun line => match header_field line with
                        | Some (n, v) => if streq name n then [v] else []
                        | None => []
                        end) lines.


(** The headers [encodeHeaders] writes as literal fields with incremental
    indexing: those the static table does not hold with their value. *)
Definition written_as_literal (h : jsstring * jsstring) : bool :=
  negb (0 <? Http2.HpackEncoder.findStaticTableExactIndex (fst h) (snd h)).

(** The header map an indexed field gives that names the entry [k] of the
    dynamic table. *)
Definition table_reference (dyn : Http2.table) (k : Z) : Map jsstring :=
  match nth_error dyn (Z.to_nat k) with
  | Some entry => [entry]
  | None => []
  end.

(** No occurrence of the chunked terminator begins in [u], when [z]
    follows. *)
Definition no_terminator_in (u z : jsstring) : Prop :=
  forall i, (i < length u)%nat ->
    starts_with RawHttp.chunked_terminator (skipn i (u ++ z)) = false.
(* ====================================================================== *)
(** * Properties                                                           *)
(* ====================================================================== *)

(** ** Lengths, ranges and folds *)

Lemma len_nonneg {A : Type} (l : list A) : 0 <= len l.
Proof. unfold len. lia. Qed.

Lemma len_app {A : Type} (l1 l2 : list A) : len (l1 ++ l2) = len l1 + len l2.
Proof. unfold len. rewrite length_app. lia. Qed.

Lemma len_cons {A : Type} (x : A) (l : list A) : len (x :: l) = 1 + len l.
Proof. unfold len. cbn [length]. lia. Qed.

Lemma len_nil {A : Type} : len (@nil A) = 0.
Proof. reflexivity. Qed.

Lemma len_one {A : Type} (x : A) : len [x] = 1.
Proof. reflexivity. Qed.

Create Rewrite HintDb len_db.
#[local] Hint Rewrite @len_app @len_one : len_db.

Lemma fold_left_invariant {A B : Type} (P : A -> Prop) (f : A -> B -> A)
    (l : list B) (a : A) :
  (forall x y, P x -> P (f x y)) -> P a -> P (fold_left f l a).
Proof.
  intros Hf. revert a; induction l as [| y l IH]; intros a Ha; [exact Ha |].
  cbn [fold_left]. apply IH, Hf, Ha.
Qed.

Lemma range_from_In (n : nat) (lo x : Z) :
  lo <= x < lo + Z.of_nat n -> In x (range_from lo n).
Proof.
  revert lo; induction n as [| n IH]; intros lo H; [lia |].
  cbn [range_from In]. destruct (Z.eq_dec lo x) as [-> | Hne]; [now left |].
  right. apply IH. lia.
Qed.

Lemma forall_range (P : Z -> bool) (lo : Z) (n : nat) :
  forallb P (range_from lo n) = true ->
  forall x, lo <= x < lo + Z.of_nat n -> P x = true.
Proof.
  intros H x Hx. rewrite forallb_forall in H. apply H, range_from_In, Hx.
Qed.

(** ** Strings *)

Lemma streq_eq (a b : jsstring) : streq a b = true <-> a = b.
Proof.
  revert b; induction a as [| x a IH]; intros [| y b]; cbn [streq];
    try (split; [discriminate | discriminate]); [split; reflexivity |].
  rewrite andb_true_iff, Z.eqb_eq, IH. split.
  - intros [-> ->]. reflexivity.
  - intros E. injection E as -> ->. split; reflexivity.
Qed.

Lemma streq_refl (a : jsstring) : streq a a = true.
Proof. now apply streq_eq. Qed.

Lemma streq_neq (a b : jsstring) : a <> b -> streq a b = false.
Proof.
  intros H. destruct (streq a b) eqn:E; [| reflexivity].
  apply streq_eq in E. contradiction.
Qed.

Lemma repeat_str_S (s : jsstring) (n : nat) :
  repeat_str s (S n) = s ++ repeat_str s n.
Proof. reflexivity. Qed.

Lemma starts_with_length (p s : jsstring) :
  starts_with p s = true -> (length p <= length s)%nat.
Proof.
  revert s; induction p as [| x p IH]; intros [| y s] H; cbn [length];
    try lia; try discriminate.
  cbn [starts_with] in H. apply andb_prop in H as [_ H]. apply IH in H. lia.
Qed.

Lemma starts_with_app_long (p s t : jsstring) :
  (length p <= length s)%nat -> starts_with p (s ++ t) = starts_with p s.
Proof.
  revert s; induction p as [| x p IH]; intros [| y s] H; cbn [length] in H;
    try reflexivity; try lia.
  cbn [app starts_with]. rewrite IH by lia. reflexivity.
Qed.

Lemma index_scan_first (p s : jsstring) (i : Z) :
  index_scan p s i
  = match first_occurrence p s with
    | Some d => i + Z.of_nat d
    | None => -1
    end.
Proof.
  revert i; induction s as [| c s IH]; intros i; cbn [index_scan first_occurrence].
  - destruct (starts_with p []); [lia | reflexivity].
  - destruct (starts_with p (c :: s)); [lia |].
    rewrite IH. destruct (first_occurrence p s); cbn [option_map]; lia.
Qed.

Lemma first_occurrence_bound (p s : jsstring) (d : nat) :
  first_occurrence p s = Some d -> (d + length p <= length s)%nat.
Proof.
  revert d; induction s as [| c s IH]; intros d; cbn [first_occurrence].
  - destruct (starts_with p []) eqn:E; [| discriminate].
    intros [= <-]. apply starts_with_length in E. lia.
  - destruct (starts_with p (c :: s)) eqn:E.
    + intros [= <-]. apply starts_with_length in E. lia.
    + destruct (first_occurrence p s) as [d' |]; [| discriminate].
      cbn [option_map]. intros [= <-]. specialize (IH d' eq_refl).
      cbn [length]. lia.
Qed.

(** The first occurrence within a text is the first within any extension. *)
Lemma first_occurrence_app (p s t : jsstring) (d : nat) :
  first_occurrence p s = Some d -> first_occurrence p (s ++ t) = Some d.
Proof.
  revert d; induction s as [| c s IH]; intros d; cbn [first_occurrence].
  - destruct (starts_with p []) eqn:E; [| discriminate].
    intros [= <-]. destruct p; [| discriminate]. cbn [app].
    destruct t; reflexivity.
  - destruct (starts_with p (c :: s)) eqn:E.
    + intros [= <-]. cbn [app first_occurrence].
      change (c :: s ++ t) with ((c :: s) ++ t).
      rewrite starts_with_app_long, E by (apply starts_with_length, E).
      reflexivity.
    + destruct (first_occurrence p s) as [d' |] eqn:Ed; [| discriminate].
      cbn [option_map]. intros [= <-].
      pose proof (first_occurrence_bound _ _ _ Ed) as Hb.
      cbn [app first_occurrence]. change (c :: s ++ t) with ((c :: s) ++ t).
      rewrite starts_with_app_long, E by (cbn [length]; lia).
      rewrite (IH d' eq_refl). reflexivity.
Qed.


Lemma indexOf_first (s p : jsstring) :
  indexOf s p = match first_occurrence p s with
                | Some d => Z.of_nat d
                | None => -1
                end.
Proof.
  unfold indexOf, indexOfFrom, clamp. pose proof (len_nonneg s).
  rewrite Z.min_r, Z.max_l by lia. cbn [Z.to_nat skipn].
  rewrite index_scan_first. destruct (first_occurrence p s); lia.
Qed.

Lemma indexOfFrom_first (s p : jsstring) (from : Z) :
  0 <= from <= len s ->
  indexOfFrom s p from
  = match first_occurrence p (skipn (Z.to_nat from) s) with
    | Some d => from + Z.of_nat d
    | None => -1
    end.
Proof.
  intros H. unfold indexOfFrom, clamp. rewrite Z.min_r, Z.max_r by lia.
  apply index_scan_first.
Qed.

Lemma substring_prefix (s t : jsstring) (b : Z) :
  0 <= b <= len s -> substring (s ++ t) 0 b = firstn (Z.to_nat b) s.
Proof.
  intros H. unfold substring, clamp. rewrite len_app.
  pose proof (len_nonneg t).
  rewrite (Z.min_r _ 0), (Z.max_l 0 0) by lia.
  rewrite (Z.min_r _ b), (Z.max_r 0 b) by lia.
  rewrite Z.min_l, Z.max_r by lia. cbn [Z.to_nat skipn]. rewrite Z.sub_0_r.
  rewrite firstn_app.
  replace (Z.to_nat b - length s)%nat with 0%nat by (unfold len in H; lia).
  cbn [firstn]. apply app_nil_r.
Qed.

Lemma substring_prefix_self (s : jsstring) (b : Z) :
  0 <= b <= len s -> substring s 0 b = firstn (Z.to_nat b) s.
Proof.
  intros H. rewrite <- (app_nil_r s) at 1. now apply substring_prefix.
Qed.



Lemma substringFrom_app (s t : jsstring) : substringFrom (s ++ t) (len s) = t.
Proof.
  unfold substringFrom, substring, clamp. rewrite len_app.
  pose proof (len_nonneg s). pose proof (len_nonneg t).
  rewrite (Z.min_r _ (len s)), (Z.max_r 0 (len s)) by lia.
  rewrite (Z.min_l (len s + len t)), (Z.max_r 0 (len s + len t)) by lia.
  rewrite Z.min_l, Z.max_r by lia.
  replace (Z.to_nat (len s)) with (length s) by (unfold len; lia).
  rewrite skipn_app, skipn_all, Nat.sub_diag. cbn [skipn app].
  apply firstn_all2. unfold len. lia.
Qed.

(** *** Digits and white space *)



Lemma take_digits_app (a b : jsstring) :
  forallb is_digit a = true -> take_digits (a ++ b) = a ++ take_digits b.
Proof.
  induction a as [| c a IH]; intros H; [reflexivity |].
  cbn [forallb] in H. apply andb_prop in H as [Hc Ha].
  cbn [app take_digits]. rewrite Hc, IH by exact Ha. reflexivity.
Qed.

Lemma drop_digits_app (a b : jsstring) :
  forallb is_digit a = true -> drop_digits (a ++ b) = drop_digits b.
Proof.
  induction a as [| c a IH]; intros H; [reflexivity |].
  cbn [forallb] in H. apply andb_prop in H as [Hc Ha].
  cbn [app drop_digits]. rewrite Hc. now apply IH.
Qed.


Lemma trimStart_app (a b : jsstring) :
  forallb is_space a = true -> trimStart (a ++ b) = trimStart b.
Proof.
  induction a as [| c a IH]; intros H; [reflexivity |].
  cbn [forallb] in H. apply andb_prop in H as [Hc Ha].
  cbn [app trimStart]. rewrite Hc. now apply IH.
Qed.

Lemma space_not_digit (c : Z) : is_space c = true -> is_digit c = false.
Proof.
  intros H. destruct (is_digit c) eqn:E; [| reflexivity].
  unfold is_digit in E. apply andb_prop in E as [E1 E2]. apply Z.leb_le in E1, E2.
  unfold is_space in H.
  repeat match type of H with
         | context [?a <=? ?b] => destruct (Z.leb_spec a b); try lia
         | context [?a =? ?b] => destruct (Z.eqb_spec a b); try lia
         end.
  all: try discriminate H.
Qed.

Lemma digit_not_space (c : Z) : is_digit c = true -> is_space c = false.
Proof.
  intros H. destruct (is_space c) eqn:E; [| reflexivity].
  apply space_not_digit in E. congruence.
Qed.

Lemma drop_digits_no_terminator (s : jsstring) :
  existsb is_line_terminator s = false ->
  existsb is_line_terminator (drop_digits s) = false.
Proof.
  induction s as [| c s IH]; intros H; [reflexivity |].
  cbn [drop_digits]. destruct (is_digit c); [| exact H].
  cbn [existsb] in H. apply orb_false_elim in H as [_ H]. now apply IH.
Qed.

Lemma trimStart_no_terminator (s : jsstring) :
  existsb is_line_terminator s = false ->
  existsb is_line_terminator (trimStart s) = false.
Proof.
  induction s as [| c s IH]; intros H; [reflexivity |].
  cbn [trimStart]. destruct (is_space c); [| exact H].
  cbn [existsb] in H. apply orb_false_elim in H as [_ H]. now apply IH.
Qed.

(** Digits that stop at white space: the greedy reading takes them all. *)
Lemma drop_digits_at_space (ws rest : jsstring) :
  ws <> [] -> forallb is_space ws = true -> drop_digits (ws ++ rest) = ws ++ rest.
Proof.
  destruct ws as [| c ws]; [contradiction |]. intros _ H.
  cbn [forallb] in H. apply andb_prop in H as [Hc _].
  cbn [app drop_digits]. now rewrite (space_not_digit c Hc).
Qed.


Lemma trimStart_at_digit (code rest : jsstring) :
  code <> [] -> forallb is_digit code = true ->
  trimStart (code ++ rest) = code ++ rest.
Proof.
  destruct code as [| c code]; [contradiction |]. intros _ H.
  cbn [forallb] in H. apply andb_prop in H as [Hc _].
  cbn [app trimStart]. now rewrite (digit_not_space c Hc).
Qed.

(** ** Maps *)

(** Setting a key that is absent appends the entry. *)
Lemma Map_set_fresh {V : Type} (m : Map V) (k : jsstring) (v : V) :
  ~ In k (map fst m) -> Map_set m k v = m ++ [(k, v)].
Proof.
  induction m as [| [k' v'] m IH]; intros H; [reflexivity |].
  cbn [Map_set]. cbn [map fst In] in H.
  rewrite streq_neq by (intros ->; apply H; now left).
  cbn [app]. f_equal. apply IH. intros Hin. apply H. now right.
Qed.

Lemma Map_set_keys {V : Type} (m : Map V) (k : jsstring) (v : V) :
  map fst (Map_set m k v)
  = if existsb (streq k) (map fst m) then map fst m else map fst m ++ [k].
Proof.
  induction m as [| [k' v'] m IH]; [reflexivity |].
  cbn [Map_set map fst existsb]. destruct (streq k k') eqn:E.
  - apply streq_eq in E. subst k'. reflexivity.
  - cbn [orb map fst]. rewrite IH. now destruct (existsb (streq k) (map fst m)).
Qed.

Lemma Map_set_keys_In {V : Type} (m : Map V) (k k' : jsstring) (v : V) :
  In k' (map fst (Map_set m k v)) -> k' = k \/ In k' (map fst m).
Proof.
  rewrite Map_set_keys. destruct (existsb (streq k) (map fst m)); [auto |].
  rewrite in_app_iff. cbn [In]. intuition.
Qed.

Lemma existsb_streq_In (k : jsstring) (l : list jsstring) :
  existsb (streq k) l = true <-> In k l.
Proof.
  rewrite existsb_exists. split.
  - intros [x [Hin Hx]]. apply streq_eq in Hx. now subst.
  - intros Hin. exists k. split; [exact Hin | apply streq_refl].
Qed.

Lemma Map_set_NoDup {V : Type} (m : Map V) (k : jsstring) (v : V) :
  NoDup (map fst m) -> NoDup (map fst (Map_set m k v)).
Proof.
  intros H. rewrite Map_set_keys.
  destruct (existsb (streq k) (map fst m)) eqn:E; [exact H |].
  apply NoDup_app; [exact H | repeat constructor; intros [] |].
  intros x Hx [<- | []]. apply existsb_streq_In in Hx. congruence.
Qed.

Lemma Object_set_NoDup {V : Type} (m : Map V) (k : jsstring) (v : V) :
  NoDup (map fst m) -> NoDup (map fst (Object_set m k v)).
Proof.
  intros H. unfold Object_set. destruct (streq k (str "__proto__")); [exact H |].
  now apply Map_set_NoDup.
Qed.

Lemma Map_get_None {V : Type} (m : Map V) (k : jsstring) :
  ~ In k (map fst m) -> Map_get m k = None.
Proof.
  induction m as [| [k' v'] m IH]; intros H; [reflexivity |].
  cbn [Map_get]. cbn [map fst In] in H.
  rewrite streq_neq by (intros ->; apply H; now left).
  apply IH. intros Hin. apply H. now right.
Qed.

Lemma Map_get_set_same {V : Type} (m : Map V) (k : jsstring) (v : V) :
  Map_get (Map_set m k v) k = Some v.
Proof.
  induction m as [| [k' v'] m IH]; cbn [Map_set Map_get].
  - now rewrite streq_refl.
  - destruct (streq k k') eqn:E; cbn [Map_get]; rewrite ?streq_refl, ?E; auto.
Qed.

(** ** Seven-bit text *)

Lemma ascii_text_app (a b : jsstring) :
  ascii_text (a ++ b) <-> ascii_text a /\ ascii_text b.
Proof. unfold ascii_text. rewrite forallb_app. apply andb_true_iff. Qed.


Lemma utf8_encode_ascii (s : jsstring) : ascii_text s -> utf8_encode s = s.
Proof.
  unfold ascii_text. induction s as [| c s IH]; intros H; [reflexivity |].
  cbn [forallb] in H. apply andb_prop in H as [Hc Hs].
  apply andb_prop in Hc as [Hc0 Hc1]. apply Z.leb_le in Hc0. apply Z.ltb_lt in Hc1.
  cbn [utf8_encode]. unfold is_high_surrogate, is_low_surrogate.
  destruct (55296 <=? c) eqn:E1; [lia |]. destruct (56320 <=? c) eqn:E2; [lia |].
  cbn [andb]. unfold utf8_of_code_point.
  destruct (c <? 128) eqn:E3; [| lia]. cbn [app]. now rewrite IH.
Qed.

Lemma utf8_decode_ascii (s : Buffer) : ascii_text s -> utf8_decode s = s.
Proof.
  unfold ascii_text, utf8_decode. induction s as [| c s IH]; intros H;
    [reflexivity |].
  cbn [forallb] in H. apply andb_prop in H as [Hc Hs].
  apply andb_prop in Hc as [Hc0 Hc1]. apply Z.leb_le in Hc0. apply Z.ltb_lt in Hc1.
  cbn [utf8_decode_from]. unfold utf8_step. cbn [needed utf8_init].
  unfold utf8_lead.
  replace ((0 <=? c) && (c <=? 127)) with true
    by (symmetry; apply andb_true_intro; split; lia).
  cbn [app]. now rewrite IH.
Qed.

Lemma toLowerCase_lower (s : jsstring) :
  ascii_text s -> lower_case_name s -> toLowerCase s = s.
Proof.
  unfold ascii_text, lower_case_name, toLowerCase.
  induction s as [| c s IH]; intros Ha Hl; [reflexivity |].
  cbn [forallb] in Ha, Hl. apply andb_prop in Ha as [Hc Ha], Hl as [Hu Hl].
  cbn [map]. rewrite IH by assumption. f_equal.
  apply andb_prop in Hc as [Hc0 Hc1]. apply Z.ltb_lt in Hc1.
  apply negb_true_iff in Hu. unfold lower_unit. rewrite Hu.
  destruct (192 <=? c) eqn:E; [lia |]. reflexivity.
Qed.

(** ** Buffers and 32-bit arithmetic *)

(** The range checks of the buffer accessors that hold by arithmetic. *)
Ltac range_checks :=
  repeat match goal with
         | |- context [(0 <=? ?a) && (?b <=? ?c)] =>
             replace ((0 <=? a) && (b <=? c)) with true
               by (symmetry; apply andb_true_intro; split; lia)
         | |- context [(0 <=? ?a) && (?b <? ?c)] =>
             replace ((0 <=? a) && (b <? c)) with true
               by (symmetry; apply andb_true_intro; split; lia)
         end.

Lemma ToInt32_small (x : Z) : - 2 ^ 31 <= x < 2 ^ 31 -> ToInt32 x = x.
Proof. intros H. unfold ToInt32. rewrite Z.mod_small; lia. Qed.

Lemma band_mask31 (x : Z) : 0 <= x < 2 ^ 31 -> band x 2147483647 = x.
Proof.
  intros H. unfold band. rewrite !ToInt32_small by lia.
  change 2147483647 with (Z.ones 31). rewrite Z.land_ones by lia.
  apply Z.mod_small. lia.
Qed.

Lemma shl_small (x m : Z) :
  0 <= x -> 0 <= m -> x * 2 ^ m < 2 ^ 31 -> shl x m = x * 2 ^ m.
Proof.
  intros Hx Hm H. destruct (Z.eq_dec x 0) as [-> | Hx0].
  - unfold shl. rewrite (ToInt32_small 0) by lia. cbn [Z.mul]. apply ToInt32_small. lia.
  - assert (Hm31 : m < 31).
    { destruct (Z_lt_ge_dec m 31) as [Hlt | Hge]; [exact Hlt |].
      assert (2 ^ 31 <= 2 ^ m) by (apply Z.pow_le_mono_r; lia). nia. }
    assert (Hx31 : x < 2 ^ 31).
    { assert (1 <= 2 ^ m) by (apply Z.pow_le_mono_r with (b := 0) (c := m) (a := 2); lia || lia).
      nia. }
    unfold shl. rewrite (ToInt32_small x) by lia.
    rewrite Z.mod_small by lia. apply ToInt32_small. lia.
Qed.

Lemma byte_at_app_l (pre post : Buffer) (i : Z) :
  0 <= i < len pre -> byte_at (pre ++ post) i = nth (Z.to_nat i) pre 0.
Proof.
  intros H. unfold byte_at. rewrite len_app.
  pose proof (len_nonneg post).
  destruct (i <? 0) eqn:E1; [lia |].
  destruct (len pre + len post <=? i) eqn:E2; [lia |].
  cbn [orb]. apply app_nth1. unfold len in H. lia.
Qed.

Lemma byte_at_app_r (pre post : Buffer) (i : Z) :
  0 <= i -> byte_at (pre ++ post) (len pre + i) = byte_at post i.
Proof.
  intros H. unfold byte_at. rewrite len_app.
  pose proof (len_nonneg pre).
  destruct (len pre + i <? 0) eqn:E1; [lia |].
  destruct (i <? 0) eqn:E3; [lia |]. cbn [orb].
  destruct (len post <=? i) eqn:E4.
  - destruct (len pre + len post <=? len pre + i) eqn:E2; [reflexivity | lia].
  - destruct (len pre + len post <=? len pre + i) eqn:E2; [lia |].
    rewrite app_nth2 by (unfold len; lia).
    f_equal. unfold len. lia.
Qed.

Lemma byte_at_head (pre : Buffer) (b : Z) (post : Buffer) :
  byte_at (pre ++ b :: post) (len pre) = b.
Proof.
  pose proof (byte_at_app_r pre (b :: post) 0 ltac:(lia)) as H.
  rewrite Z.add_0_r in H. rewrite H. unfold byte_at. rewrite len_cons.
  pose proof (len_nonneg post).
  destruct (1 + len post <=? 0) eqn:E; [lia |]. reflexivity.
Qed.

Lemma bytes_from_app (pre rest : Buffer) : bytes_from (pre ++ rest) (len pre) = rest.
Proof.
  unfold bytes_from. pose proof (len_nonneg pre).
  destruct (len pre <? 0) eqn:E; [lia |].
  replace (Z.to_nat (len pre)) with (length pre) by (unfold len; lia).
  rewrite skipn_app, skipn_all, Nat.sub_diag. reflexivity.
Qed.

Lemma bytes_from_tail (pre : Buffer) (b : Z) (post : Buffer) :
  bytes_from (pre ++ b :: post) (len pre + 1) = post.
Proof.
  change (pre ++ b :: post) with (pre ++ [b] ++ post). rewrite app_assoc.
  replace (len pre + 1) with (len (pre ++ [b])) by (autorewrite with len_db; lia).
  apply bytes_from_app.
Qed.

Lemma subarray_app_mid (pre mid post : Buffer) :
  subarray (pre ++ mid ++ post) (len pre) (len pre + len mid) = mid.
Proof.
  unfold subarray, rel_index. rewrite !len_app.
  pose proof (len_nonneg pre). pose proof (len_nonneg mid).
  pose proof (len_nonneg post).
  destruct (len pre <? 0) eqn:E1; [lia |].
  destruct (len pre + len mid <? 0) eqn:E2; [lia |].
  rewrite !Z.min_l by lia.
  replace (Z.to_nat (len pre)) with (length pre) by (unfold len; lia).
  rewrite skipn_app, skipn_all, Nat.sub_diag. cbn [app skipn].
  replace (Z.to_nat (len pre + len mid - len pre)) with (length mid)
    by (unfold len; lia).
  rewrite firstn_app, firstn_all, Nat.sub_diag. cbn [firstn].
  apply app_nil_r.
Qed.

(* ====================================================================== *)
(** ** The request assembler                                               *)
(* ====================================================================== *)

Import RequestBuilder.

(** The scenarios of the test suite and of the specification. *)
Example build_simple_get :
  build (header (str "Host") (str "example.com")
           (path (str "/api/users") (method (str "GET") new)))
  = str "GET /api/users HTTP/1.1" ++ CRLF ++ str "Host: example.com" ++ CRLF.
Proof. reflexivity. Qed.

(** What [build] emits, for any plan: the request line, then the line ending
    and the line of every header in the order of insertion, then one more
    line ending, then the body. *)
Lemma join_lines_shape (first : jsstring) (rest : list jsstring) (le : jsstring) :
  join (first :: rest ++ [[]]) le
  = first ++ flat_map (fun l => le ++ l) rest ++ le.
Proof.
  revert first; induction rest as [| l rest IH]; intros first.
  - simpl. now rewrite app_nil_r.
  - change (join (first :: (l :: rest) ++ [[]]) le)
      with (first ++ le ++ join (l :: rest ++ [[]]) le).
    rewrite IH. simpl. now rewrite <- !app_assoc.
Qed.

Lemma build_shape (b : t) :
  build b
  = request_line b
    ++ flat_map (fun h => _lineEnding b ++ header_line h) (_headers b)
    ++ _lineEnding b
    ++ (match _body b with BodyString s => s | BodyBuffer x => utf8_decode x end).
Proof.
  unfold build, build_lines. cbn [app].
  rewrite join_lines_shape, flat_map_concat_map, map_map, <- flat_map_concat_map.
  destruct (_body b) as [[| c s] | x]; cbn [body_truthy];
    rewrite <- ?app_assoc; try reflexivity.
  now rewrite !app_nil_r.
Qed.

(** C1 (the code departs from the claim).  With the default CRLF line ending
    and the body [x], [build] and [buildBuffer] put a single line ending
    between the last header line and the body: the output holds no two
    consecutive line endings, so no blank line separates headers and body. *)
Theorem build_omits_blank_line :
  let plan := body (BodyString (str "x")) (header (str "Host") (str "a") new) in
  build plan = str "GET / HTTP/1.1" ++ CRLF ++ str "Host: a" ++ CRLF ++ str "x"
  /\ buildBuffer plan = build plan
  /\ indexOf (build plan) (CRLF ++ CRLF) = -1.
Proof. vm_compute. repeat split. Qed.

(** C7.  For every name and value, [malformedHeader] appends exactly one raw
    entry, whose line is the one the kind prescribes: the nine kinds of the
    specification, with a literal TAB, NUL and CR LF, and 8192 letters A for
    the oversized header. *)
Theorem malformedHeader_lines (NAME VALUE : jsstring) (b : t) :
  let appended kind line :=
    _headers (malformedHeader NAME VALUE kind b)
    = _headers b ++ [{| name := []; value := []; raw := Some line |}] in
  appended space_before_colon (NAME ++ str " : " ++ VALUE)
  /\ appended tab_separator (NAME ++ str ":" ++ [9] ++ VALUE)
  /\ appended no_space_after_colon (NAME ++ str ":" ++ VALUE)
  /\ appended double_space (NAME ++ str ":  " ++ VALUE)
  /\ appended crlf_injection
       (NAME ++ str ": " ++ VALUE ++ [13; 10] ++ str "Injected: header")
  /\ appended null_byte (NAME ++ str ": " ++ VALUE ++ [0] ++ str "injected")
  /\ appended oversized_header
       (NAME ++ str ": " ++ List.repeat 65 (Z.to_nat 8192) ++ VALUE)
  /\ appended empty_header_name (str ": " ++ VALUE)
  /\ appended empty_header_value (NAME ++ str ": ").
Proof.
  assert (HA : forall n, repeat_str (str "A") n = List.repeat 65 n).
  { induction n as [| n IH]; [reflexivity |].
    cbn [repeat_str List.repeat]. now rewrite IH. }
  cbv zeta. unfold malformedHeader, push_header, with_headers, malformed_line.
  cbn [_headers]. rewrite HA. repeat split.
Qed.

(** *** The HTTP/2 projections of a plan

    What holds of the two projections: each name occurs once, the last
    structured insertion of a name gives its value, and [buildHttp2Request]
    has no [host] entry. *)

Lemma buildHttp2_names_distinct (b : t) :
  NoDup (map fst (buildHttp2Headers b))
  /\ NoDup (map fst (h2_headers (buildHttp2Request b))).
Proof.
  split.
  - unfold buildHttp2Headers.
    apply (fold_left_invariant (fun m => NoDup (map fst m))).
    + intros m h Hm. unfold buildHttp2Headers_step.
      repeat match goal with
             | |- context [match ?x with _ => _ end] => destruct x
             end; try apply Map_set_NoDup; exact Hm.
    + repeat apply Map_set_NoDup. constructor.
  - cbn [buildHttp2Request h2_headers].
    apply (fold_left_invariant (fun m => NoDup (map fst m))).
    + intros m h Hm. unfold buildHttp2Request_step.
      repeat match goal with
             | |- context [match ?x with _ => _ end] => destruct x
             end; try apply Object_set_NoDup; exact Hm.
    + constructor.
Qed.

Lemma buildHttp2Request_suppresses_host (b : t) :
  ~ In (str "host") (map fst (h2_headers (buildHttp2Request b))).
Proof.
  cbn [buildHttp2Request h2_headers].
  apply (fold_left_invariant (fun m => ~ In (str "host") (map fst m)));
    [| intros []].
  intros m h Hm. unfold buildHttp2Request_step, Object_set.
  destruct (raw_truthy h) as [r |].
  - destruct (raw_name_value r) as [[n v] |]; [| exact Hm].
    destruct (name_truthy n && negb (starts_with (str ":") n)
              && negb (streq n (str "host"))) eqn:E; [| exact Hm].
    apply andb_prop in E as [_ E]. apply negb_true_iff in E.
    destruct (streq n (str "__proto__")); [exact Hm |].
    intros Hin. apply Map_set_keys_In in Hin as [Heq | Hin]; [| auto].
    rewrite <- Heq, streq_refl in E. discriminate.
  - destruct (negb (streq (toLowerCase (name h)) (str "host"))) eqn:E;
      [| exact Hm].
    apply negb_true_iff in E.
    destruct (streq (toLowerCase (name h)) (str "__proto__")); [exact Hm |].
    intros Hin. apply Map_set_keys_In in Hin as [Heq | Hin]; [| auto].
    rewrite <- Heq, streq_refl in E. discriminate.
Qed.

Lemma buildHttp2_last_insertion_wins (n v : jsstring) (b : t) :
  toLowerCase n <> str "host" ->
  Map_get (buildHttp2Headers (header n v b)) (toLowerCase n) = Some v
  /\ (toLowerCase n <> str "__proto__" ->
      Map_get (h2_headers (buildHttp2Request (header n v b))) (toLowerCase n)
      = Some v).
Proof.
  intros Hhost. apply streq_neq in Hhost.
  split; [| intros Hproto; apply streq_neq in Hproto].
  - unfold buildHttp2Headers, header, push_header, with_headers.
    cbn [_headers]. rewrite fold_left_app. cbn [fold_left].
    unfold buildHttp2Headers_step at 1. cbn [raw_truthy raw name value].
    rewrite Hhost. cbn [negb]. apply Map_get_set_same.
  - unfold buildHttp2Request, header, push_header, with_headers.
    cbn [h2_headers _headers]. rewrite fold_left_app. cbn [fold_left].
    unfold buildHttp2Request_step at 1. cbn [raw_truthy raw name value].
    rewrite Hhost. cbn [negb]. unfold Object_set. rewrite Hproto.
    apply Map_get_set_same.
Qed.

(** C9 (the code departs from the claim).  A raw line [Host: evil.com] is
    kept by [buildHttp2Headers], under the name [host], while
    [buildHttp2Request] drops it: only the second projection suppresses a
    host entry that was added as a raw line. *)
Theorem buildHttp2Headers_keeps_raw_host :
  let plan := rawHeader (str "Host: evil.com") (host (str "target.com") new) in
  buildHttp2Headers plan
  = [ (str ":method", str "GET"); (str ":path", str "/");
      (str ":scheme", str "http"); (str ":authority", str "target.com");
      (str "host", str "evil.com") ]
  /\ h2_headers (buildHttp2Request plan) = [].
Proof. vm_compute. split; reflexivity. Qed.

(* ====================================================================== *)
(** ** The byte encoder                                                    *)
(* ====================================================================== *)

Import Encoder.

Example encode_base64_hello :
  encode (str "hello") base64 = Returns (str "aGVsbG8=").
Proof. reflexivity. Qed.

Example encode_url_passwd :
  encode (str "../etc/passwd") url = Returns (str "..%2Fetc%2Fpasswd").
Proof. reflexivity. Qed.

Example encode_double_url :
  encode (str "a=b") double_url = Returns (str "a%253Db").
Proof. reflexivity. Qed.

Example urlEncodeAll_abc : urlEncodeAll (str "abc") = str "%61%62%63".
Proof. reflexivity. Qed.

Example encode_octal_A : encode (str "A") octal = Returns [92; 49; 48; 49].
Proof. reflexivity. Qed.

(** C10.  Whatever the runtime's URI and base64 decoders are, [decode] is
    the identity for the kinds unicode, hex, octal and overlong-utf8; so
    decoding an encoded text of such a kind gives back the encoded text, and
    not the original whenever the two differ. *)
Theorem decode_identity_on_unimplemented_kinds
    (decodeURIComponent : jsstring -> outcome jsstring)
    (Buffer_from_base64 : jsstring -> Buffer) (s : jsstring) :
  let dec := decode decodeURIComponent Buffer_from_base64 in
  (dec s unicode = Returns s /\ dec s hex = Returns s
   /\ dec s octal = Returns s /\ dec s overlong_utf8 = Returns s)
  /\ forall kind e,
       In kind [unicode; hex; octal; overlong_utf8] ->
       encode s kind = Returns e ->
       dec e kind = Returns e /\ (e <> s -> dec e kind <> Returns s).
Proof.
  cbv zeta. split; [repeat split |].
  intros kind e Hk He.
  assert (Hd : decode decodeURIComponent Buffer_from_base64 e kind = Returns e).
  { cbn [In] in Hk. destruct Hk as [<- | [<- | [<- | [<- | []]]]]; reflexivity. }
  split; [exact Hd |].
  intros Hne Heq. rewrite Hd in Heq. injection Heq as Heq. contradiction.
Qed.

(** The hex encoding of [A] is a changed text, and decoding leaves it. *)
Lemma decode_identity_witness :
  decode (fun s => Returns s) (fun s => s) [92; 120; 52; 49] hex
  = Returns [92; 120; 52; 49]
  /\ decode (fun s => Returns s) (fun s => s) [92; 120; 52; 49] hex
     <> Returns (str "A").
Proof.
  pose proof (decode_identity_on_unimplemented_kinds
                (fun s => Returns s) (fun s => s) (str "A")) as H.
  cbv zeta in H. destruct H as [_ H].
  destruct (H hex [92; 120; 52; 49]) as [H1 H2].
  - cbn [In]. right. left. reflexivity.
  - reflexivity.
  - split; [exact H1 | apply H2; discriminate].
Defined.

(** *** Path-traversal variants *)

Lemma encodeURIComponent_traversal (d : nat) :
  encodeURIComponent (repeat_str (str "../") d)
  = Returns (repeat_str (str "..%2F") d).
Proof.
  induction d as [| d IH]; [reflexivity |].
  rewrite !repeat_str_S.
  change (str "../" ++ repeat_str (str "../") d)
    with (46 :: 46 :: 47 :: repeat_str (str "../") d).
  cbn [encodeURIComponent]. rewrite IH. reflexivity.
Qed.

Lemma encodeURIComponent_traversal_twice (d : nat) :
  encodeURIComponent (repeat_str (str "..%2F") d)
  = Returns (repeat_str (str "..%252F") d).
Proof.
  induction d as [| d IH]; [reflexivity |].
  rewrite !repeat_str_S.
  change (str "..%2F" ++ repeat_str (str "..%2F") d)
    with (46 :: 46 :: 37 :: 50 :: 70 :: repeat_str (str "..%2F") d).
  cbn [encodeURIComponent]. rewrite IH. reflexivity.
Qed.

Lemma escape_sub_delim_repeat (s : jsstring) (d : nat) :
  flat_map escape_sub_delim s = s ->
  flat_map escape_sub_delim (repeat_str s d) = repeat_str s d.
Proof.
  intros Hs. induction d as [| d IH]; [reflexivity |].
  rewrite repeat_str_S, flat_map_app, Hs, IH. reflexivity.
Qed.

Lemma urlEncode_traversal (d : nat) :
  urlEncode (repeat_str (str "../") d) = Returns (repeat_str (str "..%2F") d).
Proof.
  unfold urlEncode. rewrite encodeURIComponent_traversal. cbn [bind].
  now rewrite escape_sub_delim_repeat.
Qed.

Lemma urlEncode_traversal_twice (d : nat) :
  urlEncode (repeat_str (str "..%2F") d) = Returns (repeat_str (str "..%252F") d).
Proof.
  unfold urlEncode. rewrite encodeURIComponent_traversal_twice. cbn [bind].
  now rewrite escape_sub_delim_repeat.
Qed.

Lemma replace_dots_traversal (rep : jsstring) (d : nat) :
  replace_all (str "..") rep (repeat_str (str "../") d) 0
  = repeat_str (rep ++ str "/") d.
Proof.
  induction d as [| d IH]; [reflexivity |].
  rewrite !repeat_str_S.
  change (str "../" ++ repeat_str (str "../") d)
    with (46 :: 46 :: 47 :: repeat_str (str "../") d).
  cbn. rewrite <- app_assoc. cbn [app]. do 2 f_equal. exact IH.
Qed.

Lemma replace_slash_traversal (rep : jsstring) (d : nat) :
  replace_all (str "/") rep (repeat_str (str "../") d) 0
  = repeat_str (str ".." ++ rep) d.
Proof.
  induction d as [| d IH]; [reflexivity |].
  rewrite !repeat_str_S.
  change (str "../" ++ repeat_str (str "../") d)
    with (46 :: 46 :: 47 :: repeat_str (str "../") d).
  cbn. do 3 f_equal. exact IH.
Qed.

(** C8.  For every depth [d >= 1], [pathTraversalVariants d] is the list of
    thirteen texts, in this order, each a [d]-fold repetition; the third and
    fourth are the URL encoding and the double URL encoding of the base, the
    fifth to eighth the base with its two dots or its slash replaced. *)
Theorem pathTraversalVariants_exact (d : nat) :
  (1 <= d)%nat ->
  let base := repeat_str (str "../") d in
  pathTraversalVariants d
  = Returns
      [ repeat_str (str "../") d;
        repeat_str [46; 46; 92] d;
        repeat_str (str "..%2F") d;
        repeat_str (str "..%252F") d;
        repeat_str (str "..%00/") d;
        repeat_str (str "..%2500/") d;
        repeat_str (str "..%2f") d;
        repeat_str (str "..%252f") d;
        repeat_str (str "....//") d;
        repeat_str (str "..;/") d;
        repeat_str [46; 46; 92; 47] d;
        repeat_str (str "..%c0%af") d;
        repeat_str (str "..%c1%9c") d ]
  /\ encode base url = Returns (repeat_str (str "..%2F") d)
  /\ encode base double_url = Returns (repeat_str (str "..%252F") d)
  /\ replace_all (str "..") (str "..%00") base 0 = repeat_str (str "..%00/") d
  /\ replace_all (str "..") (str "..%2500") base 0 = repeat_str (str "..%2500/") d
  /\ replace_all (str "/") (str "%2f") base 0 = repeat_str (str "..%2f") d
  /\ replace_all (str "/") (str "%252f") base 0 = repeat_str (str "..%252f") d.
Proof.
  intros _. cbv zeta. unfold pathTraversalVariants. cbn [encode].
  rewrite urlEncode_traversal. cbn [bind]. rewrite urlEncode_traversal_twice.
  cbn [bind]. rewrite !replace_dots_traversal, !replace_slash_traversal.
  repeat split.
Qed.

(** Depth 1: the list holds [../] and its backslash form among thirteen. *)
Lemma pathTraversalVariants_depth_1 :
  (1 <= 1)%nat
  /\ pathTraversalVariants 1
     = Returns [ str "../"; [46; 46; 92]; str "..%2F"; str "..%252F";
                 str "..%00/"; str "..%2500/"; str "..%2f"; str "..%252f";
                 str "....//"; str "..;/"; [46; 46; 92; 47]; str "..%c0%af";
                 str "..%c1%9c" ].
Proof.
  split; [lia |].
  exact (proj1 (pathTraversalVariants_exact 1 (le_n 1))).
Defined.

(* ====================================================================== *)
(** ** The response parser                                                 *)
(* ====================================================================== *)

Import ResponseParser.



Lemma status_line_regex_prefix (line : jsstring) :
  status_line_regex line -> starts_with_ci (str "HTTP/") line = true.
Proof.
  intros (h & major & dot & minor & ws1 & code & ws2 & message & Hline & Hh & _).
  subst line.
  destruct h as [| h0 [| h1 [| h2 [| h3 [| h4 [| h5 h]]]]]]; try discriminate.
  injection Hh as E0 E1 E2 E3 E4.
  change (str "HTTP/") with [72; 84; 84; 80; 47].
  cbn [starts_with_ci app]. rewrite E0, E1, E2, E3, E4. reflexivity.
Qed.

(** A line of the pattern is a line the parser accepts: with
    [statusMatch_sound], the parser's reading of the status line is the
    pattern of the specification. *)
Lemma statusMatch_complete (line : jsstring) :
  status_line_regex line -> statusMatch line <> None.
Proof.
  intros Hre. pose proof (status_line_regex_prefix line Hre) as Hpre.
  destruct Hre as (h & major & dot & minor & ws1 & code & ws2 & message
                   & Hline & Hh & Hmaj0 & Hmaj & Hdot & Hmin & Hws0 & Hws1
                   & Hc0 & Hc & Hws2 & Hmsg).
  unfold statusMatch. rewrite Hpre.
  assert (Hlen : length h = 5%nat).
  { apply (f_equal (@length Z)) in Hh. now rewrite length_map in Hh. }
  assert (Hs1 : skipn 5 line
                = major ++ dot ++ minor ++ ws1 ++ code ++ ws2 ++ message).
  { rewrite Hline, skipn_app, <- Hlen, skipn_all, Nat.sub_diag. reflexivity. }
  rewrite Hs1, take_digits_app, drop_digits_app by exact Hmaj.
  assert (Hs4 : forall s3, s3 = minor ++ ws1 ++ code ++ ws2 ++ message ->
                           drop_digits s3 = ws1 ++ code ++ ws2 ++ message).
  { intros s3 ->. rewrite drop_digits_app by exact Hmin.
    now apply drop_digits_at_space. }
  assert (Hdot' :
    exists dot' s3,
      match drop_digits (dot ++ minor ++ ws1 ++ code ++ ws2 ++ message) with
      | 46 :: r => ([46], r)
      | _ => ([], drop_digits (dot ++ minor ++ ws1 ++ code ++ ws2 ++ message))
      end = (dot', s3)
      /\ drop_digits s3 = ws1 ++ code ++ ws2 ++ message).
  { destruct Hdot as [-> | ->]; cbn [app].
    - rewrite (Hs4 _ eq_refl). destruct ws1 as [| c ws1]; [contradiction |].
      cbn [forallb] in Hws1. apply andb_prop in Hws1 as [Hc1 Hws1'].
      cbn [app]. destruct (Z.eq_dec c 46) as [-> | Hne]; [discriminate Hc1 |].
      exists [], ((c :: ws1) ++ code ++ ws2 ++ message). split.
      + destruct c as [| p | p]; try reflexivity.
        do 6 (destruct p as [p | p |]; try reflexivity). contradiction.
      + cbn [app drop_digits]. now rewrite (space_not_digit c Hc1).
    - cbn [drop_digits]. change (is_digit 46) with false. cbv iota.
      exists [46], (minor ++ ws1 ++ code ++ ws2 ++ message). split;
        [reflexivity | now apply Hs4]. }
  destruct Hdot' as (dot' & s3 & -> & Hs3). rewrite Hs3.
  rewrite trimStart_app, trimStart_at_digit by assumption.
  rewrite (take_digits_app code), (drop_digits_app code) by exact Hc.
  destruct major as [| m0 major]; [contradiction |]. cbn [app].
  replace (length (code ++ ws2 ++ message)
           <? length (ws1 ++ code ++ ws2 ++ message))%nat with true.
  2: { symmetry. apply Nat.ltb_lt. rewrite (length_app ws1).
       destruct ws1; [contradiction | cbn [length]; lia]. }
  destruct code as [| c0 code]; [contradiction |]. cbn [app].
  replace (existsb is_line_terminator (trimStart (drop_digits (ws2 ++ message))))
    with false; [discriminate |].
  symmetry. destruct ws2 as [| c ws2].
  - now apply trimStart_no_terminator, drop_digits_no_terminator.
  - rewrite drop_digits_at_space, trimStart_app by (assumption || discriminate).
    now apply trimStart_no_terminator.
Qed.

(** The scenario of the specification. *)
Example parse_not_a_valid_http_response :
  let r := parse (str "not a valid http response") in
  RawResponse.parseError r
  = Some (str "Invalid status line: not a valid http response")
  /\ RawResponse.statusCode r = 0.
Proof. split; reflexivity. Qed.

Example parse_simple_response :
  let r := parse (str "HTTP/1.1 200 OK" ++ CRLF ++ str "Content-Type: text/plain"
                  ++ CRLF ++ str "Content-Length: 5" ++ CRLFCRLF ++ str "Hello") in
  RawResponse.statusCode r = 200
  /\ RawResponse.httpVersion r = str "1.1"
  /\ Map_get (RawResponse.headers r) (str "content-type") = Some [str "text/plain"]
  /\ RawResponse.body r = str "Hello"
  /\ RawResponse.parseError r = None.
Proof. repeat split; reflexivity. Qed.




(* ====================================================================== *)
(** ** The pipelined splitter                                              *)
(* ====================================================================== *)

Import RawHttp.

Lemma loop_unfold (n : nat) (remaining : jsstring) :
  remaining <> [] ->
  parseMultipleResponses_loop (S n) remaining
  = let '(headerEnd, sepLen) := find_header_end remaining in
    if headerEnd =? -1 then [ResponseParser.parse (utf8_encode remaining)]
    else
      let bodyEnd := bodyEnd_of remaining headerEnd sepLen in
      ResponseParser.parse (utf8_encode (substring remaining 0 bodyEnd))
      :: parseMultipleResponses_loop n (substringFrom remaining bodyEnd).
Proof. destruct remaining; [contradiction | reflexivity]. Qed.


(** Where the header section of a framed response ends. *)
Lemma find_header_end_bounds (r : jsstring) (headerEnd sepLen : Z) :
  find_header_end r = (headerEnd, sepLen) -> headerEnd <> -1 ->
  0 <= headerEnd /\ headerEnd + sepLen <= len r /\ 2 <= sepLen.
Proof.
  unfold find_header_end. rewrite !indexOf_first.
  destruct (first_occurrence CRLFCRLF r) as [d |] eqn:E1.
  - replace (Z.of_nat d =? -1) with false by (symmetry; apply Z.eqb_neq; lia).
    intros [= <- <-] _. apply first_occurrence_bound in E1.
    change (length CRLFCRLF) with 4%nat in E1. unfold len. lia.
  - change (-1 =? -1) with true. cbv iota.
    destruct (first_occurrence LFLF r) as [d |] eqn:E2.
    + intros [= <- <-] _. apply first_occurrence_bound in E2.
      change (length LFLF) with 2%nat in E2. unfold len. lia.
    + intros [= <- <-] H. contradiction.
Qed.

(** Appending more input does not move the end of the headers, when the
    response has the four-byte separator or the input has none at all. *)
Lemma find_header_end_app (r rest : jsstring) :
  fst (find_header_end r) <> -1 ->
  indexOf r CRLFCRLF <> -1 \/ indexOf (r ++ rest) CRLFCRLF = -1 ->
  find_header_end (r ++ rest) = find_header_end r.
Proof.
  unfold find_header_end. rewrite !indexOf_first.
  destruct (first_occurrence CRLFCRLF r) as [d |] eqn:E1.
  - rewrite (first_occurrence_app _ _ rest _ E1).
    replace (Z.of_nat d =? -1) with false by (symmetry; apply Z.eqb_neq; lia).
    reflexivity.
  - change (-1 =? -1) with true. cbv iota. cbn [fst].
    intros Hlf [Hcr | Hnone]; [contradiction |].
    destruct (first_occurrence CRLFCRLF (r ++ rest)); [lia |].
    change (-1 =? -1) with true. cbv iota.
    destruct (first_occurrence LFLF r) as [d |] eqn:E2; [| contradiction].
    rewrite (first_occurrence_app _ _ rest _ E2). reflexivity.
Qed.

(** In the input that continues after a framed response, the body rule puts
    the end of the response where the response ends. *)
Lemma bodyEnd_of_app (r rest : jsstring) (headerEnd sepLen : Z) :
  find_header_end r = (headerEnd, sepLen) -> framed r = true ->
  bodyEnd_of (r ++ rest) headerEnd sepLen = len r.
Proof.
  intros Hsep Hfr. unfold framed in Hfr. rewrite Hsep in Hfr.
  apply andb_prop in Hfr as [Hne Hrule]. apply negb_true_iff, Z.eqb_neq in Hne.
  destruct (find_header_end_bounds r headerEnd sepLen Hsep Hne) as (H0 & Hle & Hs).
  unfold bodyEnd_of.
  rewrite substring_prefix by lia. rewrite substring_prefix_self in Hrule by lia.
  destruct (clMatch (firstn (Z.to_nat headerEnd) r)) as [digits |].
  - apply Z.eqb_eq in Hrule. lia.
  - destruct (teMatch (firstn (Z.to_nat headerEnd) r)).
    + apply andb_prop in Hrule as [Hfound Hlen].
      apply negb_true_iff, Z.eqb_neq in Hfound. apply Z.eqb_eq in Hlen.
      rewrite indexOfFrom_first in Hfound, Hlen by lia.
      rewrite indexOfFrom_first by (rewrite len_app; pose proof (len_nonneg rest); lia).
      rewrite skipn_app.
      replace (Z.to_nat headerEnd - length r)%nat with 0%nat
        by (unfold len in Hle; lia).
      cbn [skipn].
      destruct (first_occurrence chunked_terminator (skipn (Z.to_nat headerEnd) r))
        as [d |] eqn:E; [| contradiction].
      rewrite (first_occurrence_app _ _ rest _ E).
      replace (headerEnd + Z.of_nat d =? -1) with false
        by (symmetry; apply Z.eqb_neq; lia).
      cbn [negb]. lia.
    + apply Z.eqb_eq in Hrule. lia.
Qed.

(** One turn of the loop takes one framed response off the input. *)
Lemma splitter_step (n : nat) (r rest : jsstring) :
  ascii_text r -> framed r = true ->
  indexOf r CRLFCRLF <> -1 \/ indexOf (r ++ rest) CRLFCRLF = -1 ->
  parseMultipleResponses_loop (S n) (r ++ rest)
  = ResponseParser.parse r :: parseMultipleResponses_loop n rest.
Proof.
  intros Ha Hfr Hsep.
  destruct (find_header_end r) as [headerEnd sepLen] eqn:Hhe.
  assert (Hne : headerEnd <> -1).
  { unfold framed in Hfr. rewrite Hhe in Hfr. apply andb_prop in Hfr as [Hne _].
    now apply negb_true_iff, Z.eqb_neq in Hne. }
  destruct (find_header_end_bounds r headerEnd sepLen Hhe Hne) as (H0 & Hle & Hs).
  assert (Hr : r ++ rest <> []).
  { destruct r; [cbn in Hle; lia | discriminate]. }
  rewrite loop_unfold by exact Hr.
  rewrite find_header_end_app by (rewrite ?Hhe; assumption).
  rewrite Hhe. replace (headerEnd =? -1) with false
    by (symmetry; now apply Z.eqb_neq).
  cbv zeta. rewrite (bodyEnd_of_app r rest headerEnd sepLen Hhe Hfr).
  rewrite substring_prefix by (pose proof (len_nonneg r); lia).
  replace (Z.to_nat (len r)) with (length r) by (unfold len; lia).
  rewrite firstn_all, substringFrom_app, utf8_encode_ascii by exact Ha.
  reflexivity.
Qed.






(** The content length counts code units of the decoded text, not bytes: a
    body of 19 two-byte characters announced as 38 bytes takes the 19 bytes
    of the next response with it, and one response comes back for two. *)
Lemma splitter_counts_code_units :
  let r1 := str "HTTP/1.1 200 OK" ++ CRLF ++ str "Content-Length: 38" ++ CRLFCRLF
            ++ repeat_str [195; 169] 19 in
  let r2 := str "HTTP/1.1 200 OK" ++ CRLFCRLF in
  len (subarrayFrom r1 (indexOf r1 CRLFCRLF + 4)) = 38
  /\ length (parseMultipleResponses 2 (r1 ++ r2)) = 1%nat.
Proof. split; reflexivity. Qed.

(** The length is looked for anywhere in the header section: a header
    [X-Content-Length] on a response without body is taken for a content
    length, and again one response comes back for two. *)
Lemma splitter_finds_length_in_any_header :
  let r1 := str "HTTP/1.1 200 OK" ++ CRLF ++ str "X-Content-Length: 50"
            ++ CRLFCRLF in
  let r2 := str "HTTP/1.1 204 No Content" ++ CRLFCRLF in
  length (parseMultipleResponses 2 (r1 ++ r2)) = 1%nat.
Proof. reflexivity. Qed.

(** The four-byte separator is looked for in all that remains: a response
    that ends its headers with two line feeds, followed by one that uses the
    four-byte separator, is not cut where it ends. *)
Lemma splitter_mixed_separators :
  let r1 := str "HTTP/1.1 200 OK" ++ [LF] ++ str "Content-Length: 0" ++ LFLF in
  let r2 := str "HTTP/1.1 204 No Content" ++ CRLFCRLF in
  framed r1 = true /\ framed r2 = true
  /\ length (parseMultipleResponses 2 (r1 ++ r2)) = 1%nat.
Proof. repeat split. Qed.

(* ====================================================================== *)
(** ** The frame layer                                                     *)
(* ====================================================================== *)

Import Http2.

(** The bytes [buildFrame] writes. *)
Lemma buildFrame_bytes (T F S : Z) (P : Buffer) :
  0 <= T < 256 -> 0 <= F < 256 -> 0 <= S < 2 ^ 31 -> len P < 2 ^ 24 ->
  Http2FrameBuilder.buildFrame T F S P
  = Returns ([len P / 65536; (len P / 256) mod 256; len P mod 256; T; F;
              S / 16777216; (S / 65536) mod 256; (S / 256) mod 256; S mod 256]
             ++ P).
Proof.
  intros HT HF HS HP. pose proof (len_nonneg P).
  unfold Http2FrameBuilder.buildFrame, uint24_bytes, uint8_bytes, uint32_bytes.
  rewrite band_mask31 by assumption.
  range_checks. reflexivity.
Qed.

Lemma parseFrame_short (buffer : Buffer) (offset : Z) :
  len buffer - offset < 9 ->
  Http2FrameParser.parseFrame buffer offset = Returns None.
Proof.
  intros H. unfold Http2FrameParser.parseFrame.
  destruct (len buffer - offset <? 9) eqn:E; [reflexivity | lia].
Qed.

Lemma parseFrame_partial (buffer : Buffer) (offset length : Z) :
  0 <= offset -> 9 <= len buffer - offset ->
  readUInt24BE buffer offset = Returns length ->
  len buffer - offset < 9 + length ->
  Http2FrameParser.parseFrame buffer offset = Returns None.
Proof.
  intros Ho H9 Hlen Hshort. unfold Http2FrameParser.parseFrame.
  destruct (len buffer - offset <? 9) eqn:E; [lia |].
  rewrite Hlen. unfold readUInt8, readUInt32BE, in_range.
  range_checks.
  cbn [bind]. destruct (len buffer - offset <? 9 + length) eqn:E2; [reflexivity | lia].
Qed.

(** C6.  A frame built from a type and a flags byte, a stream identifier
    below 2^31 and a payload shorter than 2^24 parses back to exactly these
    fields with [9 + |P|] bytes read; and the parser returns null when fewer
    than 9 bytes, or fewer than 9 bytes plus the announced length, remain at
    the offset. *)
Theorem frame_roundtrip_and_null :
  (forall (T F S : Z) (P : Buffer),
      0 <= T < 256 -> 0 <= F < 256 -> 0 <= S < 2 ^ 31 -> len P < 2 ^ 24 ->
      exists bytes,
        Http2FrameBuilder.buildFrame T F S P = Returns bytes
        /\ len bytes = 9 + len P
        /\ Http2FrameParser.parseFrame bytes 0
           = Returns (Some ({| Http2Frame.length := len P;
                               Http2Frame.type := T;
                               Http2Frame.flags := F;
                               Http2Frame.streamId := S;
                               Http2Frame.payload := P |}, 9 + len P)))
  /\ (forall (buffer : Buffer) (offset : Z),
        len buffer - offset < 9 ->
        Http2FrameParser.parseFrame buffer offset = Returns None)
  /\ (forall (buffer : Buffer) (offset length : Z),
        0 <= offset -> 9 <= len buffer - offset ->
        readUInt24BE buffer offset = Returns length ->
        len buffer - offset < 9 + length ->
        Http2FrameParser.parseFrame buffer offset = Returns None).
Proof.
  split; [| split; [exact parseFrame_short | exact parseFrame_partial]].
  intros T F S P HT HF HS HP. pose proof (len_nonneg P) as HP0.
  eexists. split; [apply buildFrame_bytes; assumption |].
  set (hd := [len P / 65536; (len P / 256) mod 256; len P mod 256; T; F;
              S / 16777216; (S / 65536) mod 256; (S / 256) mod 256; S mod 256]).
  assert (Hhd : len hd = 9) by reflexivity.
  split; [rewrite len_app; lia |].
  unfold Http2FrameParser.parseFrame.
  rewrite len_app, Hhd.
  destruct (9 + len P - 0 <? 9) eqn:E; [lia |].
  unfold readUInt24BE, readUInt8, readUInt32BE, in_range.
  rewrite len_app, Hhd.
  range_checks.
  cbn [bind].
  rewrite !byte_at_app_l by (rewrite Hhd; lia).
  change (Z.to_nat 0) with 0%nat. change (Z.to_nat (0 + 1)) with 1%nat.
  change (Z.to_nat (0 + 2)) with 2%nat. change (Z.to_nat (0 + 3)) with 3%nat.
  change (Z.to_nat (0 + 4)) with 4%nat. change (Z.to_nat (0 + 5)) with 5%nat.
  change (Z.to_nat (0 + 5 + 1)) with 6%nat.
  change (Z.to_nat (0 + 5 + 2)) with 7%nat.
  change (Z.to_nat (0 + 5 + 3)) with 8%nat.
  cbn [nth hd].
  assert (HL : len P / 65536 * 65536 + (len P / 256) mod 256 * 256 + len P mod 256
               = len P) by (clear; Z.div_mod_to_equations; lia).
  assert (HS' : S / 16777216 * 16777216 + (S / 65536) mod 256 * 65536
                + (S / 256) mod 256 * 256 + S mod 256 = S)
    by (clear; Z.div_mod_to_equations; lia).
  rewrite HL, HS', band_mask31 by assumption.
  destruct (9 + len P - 0 <? 9 + len P) eqn:E2; [lia |].
  replace (0 + 9) with (len hd) by (rewrite Hhd; reflexivity).
  pose proof (subarray_app_mid hd P []) as Hsub. rewrite app_nil_r in Hsub.
  rewrite Hsub. reflexivity.
Qed.

(** A HEADERS frame on stream 1 that carries one HPACK byte, and two short
    buffers. *)
Lemma frame_roundtrip_witness :
  (exists bytes,
      Http2FrameBuilder.buildFrame 1 4 1 [130] = Returns bytes
      /\ len bytes = 9 + len [130]
      /\ Http2FrameParser.parseFrame bytes 0
         = Returns (Some ({| Http2Frame.length := len [130];
                             Http2Frame.type := 1;
                             Http2Frame.flags := 4;
                             Http2Frame.streamId := 1;
                             Http2Frame.payload := [130] |}, 9 + len [130])))
  /\ Http2FrameParser.parseFrame [0; 0; 1; 1; 4] 0 = Returns None
  /\ Http2FrameParser.parseFrame [0; 0; 2; 1; 4; 0; 0; 0; 1; 130] 0 = Returns None.
Proof.
  destruct frame_roundtrip_and_null as [H1 [H2 H3]].
  split; [| split].
  - apply H1; cbn; lia.
  - apply H2. cbn. lia.
  - apply (H3 _ 0 2); cbn; try lia. reflexivity.
Defined.

(* ====================================================================== *)
(** ** HPACK                                                               *)
(* ====================================================================== *)

(** *** Integers and strings *)

Lemma byte_bits_continuation (x : Z) :
  0 <= x < 128 ->
  (x + 128) mod 256 = x + 128 /\ band (x + 128) 127 = x
  /\ (band (x + 128) 128 =? 0) = false.
Proof.
  intros H.
  pose proof (forall_range
                (fun x => ((x + 128) mod 256 =? x + 128) && (band (x + 128) 127 =? x)
                          && negb (band (x + 128) 128 =? 0)) 0 128 eq_refl x H) as E.
  cbv beta in E. apply andb_prop in E as [E E3]. apply andb_prop in E as [E1 E2].
  apply Z.eqb_eq in E1, E2. apply negb_true_iff in E3. auto.
Qed.

Lemma byte_bits_last (x : Z) :
  0 <= x < 128 ->
  x mod 256 = x /\ band x 127 = x /\ (band x 128 =? 0) = true.
Proof.
  intros H.
  pose proof (forall_range
                (fun x => (x mod 256 =? x) && (band x 127 =? x) && (band x 128 =? 0))
                0 128 eq_refl x H) as E.
  cbv beta in E. apply andb_prop in E as [E E3]. apply andb_prop in E as [E1 E2].
  apply Z.eqb_eq in E1, E2. auto.
Qed.

(** The groups [encodeInteger] writes after the prefix byte are read back by
    the loop of [decodeInteger] as long as the shifted value fits 31 bits. *)
Lemma decodeInteger_loop_encode (fuel : nat) :
  forall (v acc m bytesRead : Z) (rest : Buffer),
    0 <= v < 2 ^ (7 * Z.of_nat fuel) -> 0 <= m -> v * 2 ^ m < 2 ^ 31 ->
    HpackDecoder.decodeInteger_loop
      (Buffer_from_array (HpackEncoder.encodeInteger_loop fuel v) ++ rest)
      acc m bytesRead
    = (acc + v * 2 ^ m,
       bytesRead + len (HpackEncoder.encodeInteger_loop fuel v)).
Proof.
  induction fuel as [| fuel IH]; intros v acc m bytesRead rest Hv Hm Hfit.
  - assert (v = 0) by (change (2 ^ (7 * Z.of_nat 0)) with 1 in Hv; lia). subst v.
    cbn [HpackEncoder.encodeInteger_loop Buffer_from_array map app
         HpackDecoder.decodeInteger_loop].
    change (band (0 mod 256) 127) with 0. change (band (0 mod 256) 128 =? 0) with true.
    cbn [negb]. rewrite shl_small by lia. rewrite len_one. f_equal; lia.
  - cbn [HpackEncoder.encodeInteger_loop].
    destruct (128 <=? v) eqn:E.
    + apply Z.leb_le in E.
      assert (Hmod : 0 <= v mod 128 < 128) by (apply Z.mod_pos_bound; lia).
      destruct (byte_bits_continuation _ Hmod) as [B1 [B2 B3]].
      cbn [Buffer_from_array map app HpackDecoder.decodeInteger_loop].
      rewrite B1, B2, B3. cbn [negb].
      assert (Hdiv : 0 <= v / 128 < 2 ^ (7 * Z.of_nat fuel)).
      { split; [apply Z.div_pos; lia |].
        apply Z.div_lt_upper_bound; [lia |].
        replace (7 * Z.of_nat (S fuel)) with (7 + 7 * Z.of_nat fuel) in Hv by lia.
        rewrite Z.pow_add_r in Hv by lia. change (2 ^ 7) with 128 in Hv. lia. }
      assert (Hpow : 2 ^ (m + 7) = 2 ^ m * 128)
        by (rewrite Z.pow_add_r by lia; reflexivity).
      assert (Hpos : 0 < 2 ^ m) by (apply Z.pow_pos_nonneg; lia).
      assert (Hv_eq : v = 128 * (v / 128) + v mod 128) by (apply Z.div_mod; lia).
      fold (Buffer_from_array (HpackEncoder.encodeInteger_loop fuel (v / 128))).
      rewrite IH; [| exact Hdiv | lia | rewrite Hpow; nia].
      rewrite shl_small; [| lia | lia | nia].
      rewrite len_cons, Hpow. f_equal; [nia | lia].
    + apply Z.leb_gt in E.
      destruct (byte_bits_last v ltac:(lia)) as [B1 [B2 B3]].
      cbn [Buffer_from_array map app HpackDecoder.decodeInteger_loop].
      rewrite B1, B2, B3. cbn [negb]. rewrite shl_small by lia.
      rewrite len_one. f_equal; lia.
Qed.

Lemma pow2_log2_bound (v : Z) :
  0 <= v -> v < 2 ^ (7 * Z.of_nat (S (Z.to_nat (Z.log2 v)))).
Proof.
  intros Hv. pose proof (Z.log2_nonneg v) as Hl.
  replace (Z.of_nat (S (Z.to_nat (Z.log2 v)))) with (Z.log2 v + 1) by lia.
  destruct (Z.eq_dec v 0) as [-> | Hne].
  - cbn. lia.
  - assert (v < 2 ^ (Z.log2 v + 1))
      by (replace (Z.log2 v + 1) with (Z.succ (Z.log2 v)) by lia;
          apply Z.log2_spec; lia).
    assert (2 ^ (Z.log2 v + 1) <= 2 ^ (7 * (Z.log2 v + 1)))
      by (apply Z.pow_le_mono_r; lia).
    lia.
Qed.

(** The length of a string, written with a 7-bit prefix, is read back. *)
Lemma decodeInteger_encode_length (pre post : Buffer) (L : Z) :
  0 <= L < 2 ^ 31 ->
  HpackDecoder.decodeInteger (pre ++ HpackEncoder.encodeInteger L 7 0 ++ post)
                             (len pre) 7
  = (L, len (HpackEncoder.encodeInteger L 7 0)).
Proof.
  intros HL. unfold HpackEncoder.encodeInteger, HpackDecoder.decodeInteger.
  change (shl 1 7 - 1) with 127.
  destruct (L <? 127) eqn:E.
  - apply Z.ltb_lt in E.
    destruct (byte_bits_last L ltac:(lia)) as [B1 [B2 _]].
    assert (Hbor : bor 0 L = L).
    { unfold bor. rewrite (ToInt32_small L) by lia. reflexivity. }
    cbn [Buffer_from_array map app]. rewrite Hbor, B1, byte_at_head, B2.
    destruct (L =? 127) eqn:E2; [apply Z.eqb_eq in E2; lia |]. now rewrite len_one.
  - apply Z.ltb_ge in E.
    cbn [Buffer_from_array map app].
    change (bor 0 127 mod 256) with 127. rewrite byte_at_head.
    change (band 127 127 =? 127) with true. cbv iota.
    rewrite bytes_from_tail.
    fold (Buffer_from_array
            (HpackEncoder.encodeInteger_loop
               (S (Z.to_nat (Z.log2 (L - 127)))) (L - 127))).
    rewrite decodeInteger_loop_encode;
      [| split; [lia | apply pow2_log2_bound; lia] | lia | lia].
    rewrite len_cons, Z.pow_0_r, Z.mul_1_r. unfold Buffer_from_array, len.
    rewrite length_map. change (band 127 127) with 127. f_equal; lia.
Qed.

Lemma decodeString_encode (pre post : Buffer) (s : jsstring) :
  ascii_text s -> len s < 2 ^ 31 ->
  HpackDecoder.decodeString (pre ++ HpackEncoder.encodeString s false ++ post)
                            (len pre)
  = (s, len (HpackEncoder.encodeString s false)).
Proof.
  intros Ha HL. pose proof (len_nonneg s) as H0.
  unfold HpackEncoder.encodeString, HpackDecoder.decodeString.
  rewrite utf8_encode_ascii by exact Ha.
  rewrite <- app_assoc, decodeInteger_encode_length by lia.
  set (lengthBuf := HpackEncoder.encodeInteger (len s) 7 0).
  replace (len pre + len lengthBuf) with (len (pre ++ lengthBuf))
    by (rewrite len_app; reflexivity).
  rewrite app_assoc, subarray_app_mid, utf8_decode_ascii by exact Ha.
  rewrite len_app. reflexivity.
Qed.

(** *** The static table *)

Lemma first_index_found (p : jsstring * jsstring -> bool) (l : table) :
  forall k i, 1 <= k -> first_index p l k = i -> 0 < i ->
    k <= i < k + len l
    /\ exists e, nth_error l (Z.to_nat (i - k)) = Some e /\ p e = true.
Proof.
  induction l as [| e l IH]; intros k i Hk Hi Hpos; cbn [first_index] in Hi.
  - lia.
  - rewrite len_cons. pose proof (len_nonneg l). destruct (p e) eqn:E.
    + subst i. split; [lia |]. exists e. rewrite Z.sub_diag. now split.
    + destruct (IH (k + 1) i ltac:(lia) Hi Hpos) as [Hr [e' [Hn Hp]]].
      split; [lia |]. exists e'. split; [| exact Hp].
      replace (Z.to_nat (i - k)) with (S (Z.to_nat (i - (k + 1)))) by lia.
      exact Hn.
Qed.

Lemma static_entry (p : jsstring * jsstring -> bool) (i : Z) :
  first_index p (tl HPACK_STATIC_TABLE) 1 = i -> 0 < i ->
  1 <= i <= 61
  /\ exists e, nth_error HPACK_STATIC_TABLE (Z.to_nat i) = Some e /\ p e = true.
Proof.
  intros Hi Hpos.
  destruct (first_index_found p _ 1 i ltac:(lia) Hi Hpos) as [Hr [e [Hn Hp]]].
  change (len (tl HPACK_STATIC_TABLE)) with 61 in Hr. split; [lia |].
  exists e. split; [| exact Hp].
  replace (Z.to_nat i) with (S (Z.to_nat (i - 1))) by lia. exact Hn.
Qed.

Lemma getTableEntry_static (dyn : table) (i : Z) :
  1 <= i <= 61 ->
  HpackDecoder.getTableEntry dyn i = nth_error HPACK_STATIC_TABLE (Z.to_nat i).
Proof.
  intros H. unfold HpackDecoder.getTableEntry.
  change (len HPACK_STATIC_TABLE) with 62.
  destruct (i <=? 0) eqn:E1; [lia |]. destruct (i <? 62) eqn:E2; [reflexivity | lia].
Qed.

(** What the bytes that carry a static index look like, bit by bit. *)
Lemma index_byte_facts (i : Z) :
  1 <= i <= 61 ->
  HpackEncoder.encodeInteger i 7 128 = [128 + i]
  /\ HpackEncoder.encodeInteger i 6 64 = [64 + i]
  /\ (band (128 + i) 128 =? 0) = false
  /\ band (128 + i) 127 = i
  /\ (band (64 + i) 128 =? 0) = true
  /\ (band (64 + i) 64 =? 0) = false
  /\ band (64 + i) 63 = i.
Proof.
  intros H.
  pose proof (forall_range
    (fun i => negb (negb (streq (HpackEncoder.encodeInteger i 7 128) [128 + i]))
              && (negb (negb (streq (HpackEncoder.encodeInteger i 6 64) [64 + i]))
              && (negb (band (128 + i) 128 =? 0)
              && ((band (128 + i) 127 =? i)
              && ((band (64 + i) 128 =? 0)
              && (negb (band (64 + i) 64 =? 0)
              && (band (64 + i) 63 =? i))))))) 1 61 eq_refl i ltac:(lia)) as E.
  cbv beta in E.
  apply andb_prop in E as [E1 E]. apply andb_prop in E as [E2 E].
  apply andb_prop in E as [E3 E]. apply andb_prop in E as [E4 E].
  apply andb_prop in E as [E5 E]. apply andb_prop in E as [E6 E7].
  rewrite negb_involutive in E1, E2. apply streq_eq in E1, E2.
  apply negb_true_iff in E3, E6. apply Z.eqb_eq in E4, E7. auto 10.
Qed.

Lemma literal_byte_facts (i : Z) :
  0 <= i <= 14 ->
  Buffer_from_array [bor 0 i] = [i]
  /\ (band i 128 =? 0) = true /\ (band i 64 =? 0) = true
  /\ (band i 32 =? 0) = true /\ band i 15 = i.
Proof.
  intros H.
  pose proof (forall_range
    (fun i => (bor 0 i mod 256 =? i)
              && ((band i 128 =? 0) && ((band i 64 =? 0)
              && ((band i 32 =? 0) && (band i 15 =? i))))) 0 15 eq_refl i
    ltac:(lia)) as E.
  cbv beta in E.
  apply andb_prop in E as [E1 E]. apply andb_prop in E as [E2 E].
  apply andb_prop in E as [E3 E]. apply andb_prop in E as [E4 E5].
  apply Z.eqb_eq in E1, E5. cbn [Buffer_from_array map]. rewrite E1. auto.
Qed.

(** *** Literal fields *)

Lemma decodeInteger_one_byte (pre : Buffer) (b : Z) (post : Buffer) (N i : Z) :
  band b (shl 1 N - 1) = i -> i <> shl 1 N - 1 ->
  HpackDecoder.decodeInteger (pre ++ b :: post) (len pre) N = (i, 1).
Proof.
  intros Hb Hi. unfold HpackDecoder.decodeInteger. rewrite byte_at_head, Hb.
  destruct (i =? shl 1 N - 1) eqn:E; [apply Z.eqb_eq in E; contradiction |].
  reflexivity.
Qed.

Lemma decodeLiteral_indexed_name (dyn : table) (pre : Buffer) (b : Z)
    (post : Buffer) (v : jsstring) (N i : Z) (e : jsstring * jsstring) :
  band b (shl 1 N - 1) = i -> i <> shl 1 N - 1 -> 0 < i ->
  HpackDecoder.getTableEntry dyn i = Some e ->
  ascii_text v -> len v < 2 ^ 31 ->
  HpackDecoder.decodeLiteral dyn
    (pre ++ b :: HpackEncoder.encodeString v false ++ post) (len pre) N
  = (fst e, v, len pre + 1 + len (HpackEncoder.encodeString v false)).
Proof.
  intros Hb Hi Hpos He Ha HL. unfold HpackDecoder.decodeLiteral.
  rewrite (decodeInteger_one_byte _ _ _ N i Hb Hi).
  destruct (0 <? i) eqn:E; [| lia]. rewrite He.
  change (pre ++ b :: HpackEncoder.encodeString v false ++ post)
    with (pre ++ [b] ++ HpackEncoder.encodeString v false ++ post).
  rewrite app_assoc.
  replace (len pre + 1) with (len (pre ++ [b])) by (autorewrite with len_db; lia).
  rewrite decodeString_encode by assumption. reflexivity.
Qed.

Lemma decodeLiteral_new_name (dyn : table) (pre : Buffer) (b : Z)
    (post : Buffer) (n v : jsstring) (N : Z) :
  band b (shl 1 N - 1) = 0 -> 0 <> shl 1 N - 1 ->
  ascii_text n -> len n < 2 ^ 31 -> ascii_text v -> len v < 2 ^ 31 ->
  HpackDecoder.decodeLiteral dyn
    (pre ++ b :: HpackEncoder.encodeString n false
         ++ HpackEncoder.encodeString v false ++ post) (len pre) N
  = (n, v, len pre + 1 + len (HpackEncoder.encodeString n false)
           + len (HpackEncoder.encodeString v false)).
Proof.
  intros Hb Hi Han HLn Hav HLv. unfold HpackDecoder.decodeLiteral.
  rewrite (decodeInteger_one_byte _ _ _ N 0 Hb Hi). cbv iota beta.
  change (0 <? 0) with false. cbv iota.
  set (en := HpackEncoder.encodeString n false).
  set (ev := HpackEncoder.encodeString v false).
  change (pre ++ b :: en ++ ev ++ post) with (pre ++ [b] ++ en ++ ev ++ post).
  rewrite app_assoc.
  replace (len pre + 1) with (len (pre ++ [b])) by (autorewrite with len_db; lia).
  unfold en at 1. rewrite decodeString_encode by assumption. fold en.
  rewrite (app_assoc (pre ++ [b]) en).
  replace (len (pre ++ [b]) + len en) with (len ((pre ++ [b]) ++ en))
    by (rewrite !len_app; reflexivity).
  unfold ev at 1. rewrite decodeString_encode by assumption. fold ev.
  rewrite !len_app, len_one. reflexivity.
Qed.

(** *** Header fields *)

Lemma hpack_header_ok_lengths (h : jsstring * jsstring) :
  hpack_header_ok h -> len (fst h) < 2 ^ 31 /\ len (snd h) < 2 ^ 31.
Proof.
  intros (_ & _ & _ & Hsize). unfold entry_within_table_size in Hsize.
  change HpackEncoder.maxDynamicTableSize with 4096 in Hsize.
  pose proof (len_nonneg (fst h)). pose proof (len_nonneg (snd h)). lia.
Qed.

(** One field written by [encodeHeaders] is read back by one turn of the
    decoder's loop, which sets the header under its name. *)
Lemma decodeField_encodeHeader (dyn : table) (pre post : Buffer)
    (acc : Map jsstring) (h : jsstring * jsstring) :
  hpack_header_ok h ->
  0 < len (HpackEncoder.encodeHeader h)
  /\ exists dyn',
      HpackDecoder.decodeField dyn (pre ++ HpackEncoder.encodeHeader h ++ post)
                               (len pre) acc
      = (len pre + len (HpackEncoder.encodeHeader h),
         Map_set acc (fst h) (snd h), dyn').
Proof.
  intros Hok. destruct (hpack_header_ok_lengths h Hok) as [HLn HLv].
  destruct Hok as (Han & Hav & Hlow & _). destruct h as [n v]. cbn [fst snd] in *.
  unfold HpackEncoder.encodeHeader.
  remember (HpackEncoder.findStaticTableExactIndex n v) as i eqn:Hidef.
  remember (HpackEncoder.findStaticTableIndex n) as j eqn:Hjdef.
  destruct (0 <? i) eqn:Ex.
  - apply Z.ltb_lt in Ex.
    destruct (static_entry _ i (eq_sym Hidef) Ex) as [Hi [e [Hn Hp]]].
    rewrite toLowerCase_lower in Hp by assumption.
    apply andb_prop in Hp as [Hp1 Hp2]. apply streq_eq in Hp1, Hp2.
    destruct (index_byte_facts i Hi) as (E1 & _ & B1 & B2 & _).
    rewrite E1, len_one. split; [lia |]. exists dyn. cbn [app].
    unfold HpackDecoder.decodeField. rewrite byte_at_head, B1. cbn [negb].
    rewrite (decodeInteger_one_byte _ _ _ 7 i)
      by (change (shl 1 7 - 1) with 127; first [exact B2 | lia]).
    rewrite getTableEntry_static, Hn, Hp1, Hp2 by exact Hi. reflexivity.
  - clear Hidef Ex i. destruct (0 <? j) eqn:En.
    + apply Z.ltb_lt in En.
      destruct (static_entry _ j (eq_sym Hjdef) En) as [Hi [e [Hn Hp]]].
      rewrite toLowerCase_lower in Hp by assumption. apply streq_eq in Hp.
      destruct (index_byte_facts j Hi) as (_ & E2 & _ & _ & B1 & B2 & B3).
      rewrite E2. cbn [app]. rewrite len_cons.
      pose proof (len_nonneg (HpackEncoder.encodeString v false)).
      split; [lia |]. exists ((n, v) :: dyn).
      unfold HpackDecoder.decodeField. rewrite byte_at_head, B1, B2. cbn [negb].
      rewrite (decodeLiteral_indexed_name dyn pre (64 + j) post v 6 j e);
        [| change (shl 1 6 - 1) with 63; exact B3
         | change (shl 1 6 - 1) with 63; lia | lia
         | rewrite getTableEntry_static by exact Hi; exact Hn
         | exact Hav | exact HLv ].
      rewrite Hp, <- Z.add_assoc. reflexivity.
    + change (Buffer_from_array [64]) with [64]. cbn [app]. rewrite <- app_assoc.
      rewrite len_cons, len_app.
      pose proof (len_nonneg (HpackEncoder.encodeString n false)).
      pose proof (len_nonneg (HpackEncoder.encodeString v false)).
      split; [lia |]. exists ((n, v) :: dyn).
      unfold HpackDecoder.decodeField. rewrite byte_at_head.
      change (band 64 128 =? 0) with true. change (band 64 64 =? 0) with false.
      cbn [negb].
      rewrite (decodeLiteral_new_name dyn pre 64 post n v 6)
        by (try assumption; try reflexivity; discriminate).
      rewrite <- !Z.add_assoc. reflexivity.
Qed.

(** The same for a field written by [encodeHeadersLiteral], when the name is
    not at a static position above 14. *)
Lemma decodeField_encodeHeaderLiteral (dyn : table) (pre post : Buffer)
    (acc : Map jsstring) (h : jsstring * jsstring) :
  hpack_header_ok h -> HpackEncoder.findStaticTableIndex (fst h) < 15 ->
  0 < len (HpackEncoder.encodeHeaderLiteral h)
  /\ exists dyn',
      HpackDecoder.decodeField dyn
        (pre ++ HpackEncoder.encodeHeaderLiteral h ++ post) (len pre) acc
      = (len pre + len (HpackEncoder.encodeHeaderLiteral h),
         Map_set acc (fst h) (snd h), dyn').
Proof.
  intros Hok H15. destruct (hpack_header_ok_lengths h Hok) as [HLn HLv].
  destruct Hok as (Han & Hav & Hlow & _). destruct h as [n v]. cbn [fst snd] in *.
  unfold HpackEncoder.encodeHeaderLiteral.
  remember (HpackEncoder.findStaticTableIndex n) as i eqn:Hidef.
  destruct (0 <? i) eqn:En.
  - apply Z.ltb_lt in En.
    destruct (static_entry _ i (eq_sym Hidef) En) as [Hi [e [Hn Hp]]].
    rewrite toLowerCase_lower in Hp by assumption. apply streq_eq in Hp.
    destruct (literal_byte_facts i ltac:(lia)) as (E1 & B1 & B2 & B3 & B4).
    rewrite E1. cbn [app]. rewrite len_cons.
    pose proof (len_nonneg (HpackEncoder.encodeString v false)).
    split; [lia |]. exists dyn.
    unfold HpackDecoder.decodeField. rewrite byte_at_head, B1, B2, B3. cbn [negb].
    assert (Hpre : (if negb (band i 16 =? 0) then 4 else 4) = 4)
      by (destruct (negb (band i 16 =? 0)); reflexivity).
    rewrite Hpre.
    rewrite (decodeLiteral_indexed_name dyn pre i post v 4 i e);
      [| change (shl 1 4 - 1) with 15; exact B4
       | change (shl 1 4 - 1) with 15; lia | lia
       | rewrite getTableEntry_static by lia; exact Hn
       | exact Hav | exact HLv ].
    rewrite Hp, <- Z.add_assoc. reflexivity.
  - change (Buffer_from_array [0]) with [0]. cbn [app]. rewrite <- app_assoc.
    rewrite len_cons, len_app.
    pose proof (len_nonneg (HpackEncoder.encodeString n false)).
    pose proof (len_nonneg (HpackEncoder.encodeString v false)).
    split; [lia |]. exists dyn.
    unfold HpackDecoder.decodeField. rewrite byte_at_head.
    change (band 0 128 =? 0) with true. change (band 0 64 =? 0) with true.
    change (band 0 32 =? 0) with true. change (band 0 16 =? 0) with true.
    cbn [negb].
    rewrite (decodeLiteral_new_name dyn pre 0 post n v 4)
      by (try assumption; try reflexivity; discriminate).
    rewrite <- !Z.add_assoc. reflexivity.
Qed.

(** The decoder's loop over a block in which every field is read back by one
    turn: the headers come out in the order they went in. *)
Lemma decodeHeaders_loop_fields (enc : jsstring * jsstring -> Buffer)
    (H : Map jsstring) :
  (forall dyn pre post acc h, In h H ->
      0 < len (enc h)
      /\ exists dyn',
          HpackDecoder.decodeField dyn (pre ++ enc h ++ post) (len pre) acc
          = (len pre + len (enc h), Map_set acc (fst h) (snd h), dyn')) ->
  NoDup (map fst H) ->
  forall (fuel : nat) (dyn : table) (pre : Buffer) (acc : Map jsstring),
    (length H <= fuel)%nat ->
    (forall h, In h H -> ~ In (fst h) (map fst acc)) ->
    exists dyn',
      HpackDecoder.decodeHeaders_loop fuel dyn (pre ++ flat_map enc H) (len pre) acc
      = Some (acc ++ H, dyn').
Proof.
  induction H as [| h H IH]; intros Hfield Hnd fuel dyn pre acc Hfuel Hfresh.
  - exists dyn. cbn [flat_map]. rewrite !app_nil_r.
    destruct fuel; cbn [HpackDecoder.decodeHeaders_loop];
      rewrite Z.ltb_irrefl; reflexivity.
  - destruct fuel as [| fuel]; [cbn [length] in Hfuel; lia |].
    cbn [flat_map HpackDecoder.decodeHeaders_loop].
    destruct (Hfield dyn pre (flat_map enc H) acc h (or_introl eq_refl))
      as [Hpos [dyn1 Hstep]].
    rewrite !len_app. pose proof (len_nonneg (flat_map enc H)).
    destruct (len pre <? len pre + (len (enc h) + len (flat_map enc H))) eqn:E;
      [| lia].
    rewrite Hstep.
    rewrite Map_set_fresh by (apply Hfresh; now left).
    inversion Hnd as [| x l Hnotin Hnd' Heq]; subst.
    destruct (IH (fun d p q a h' Hin => Hfield d p q a h' (or_intror Hin)) Hnd'
                 fuel dyn1 (pre ++ enc h) (acc ++ [h]))
      as [dyn' Hrest].
    + cbn [length] in Hfuel. lia.
    + intros h' Hin Hbad. rewrite map_app, in_app_iff in Hbad.
      destruct Hbad as [Hbad | Hbad].
      * apply (Hfresh h' (or_intror Hin)). exact Hbad.
      * cbn [map In] in Hbad. destruct Hbad as [Hbad | []].
        apply Hnotin. rewrite Hbad. apply in_map. exact Hin.
    + exists dyn'. rewrite len_app, <- app_assoc in Hrest.
      destruct h as [n v]. cbn [fst snd]. rewrite Hrest, <- app_assoc.
      reflexivity.
Qed.

(** More fuel does not change what the decoder returns. *)
Lemma decodeHeaders_loop_fuel_mono (fuel : nat) :
  forall (fuel' : nat) dyn buffer offset headers result,
    (fuel <= fuel')%nat ->
    HpackDecoder.decodeHeaders_loop fuel dyn buffer offset headers = Some result ->
    HpackDecoder.decodeHeaders_loop fuel' dyn buffer offset headers = Some result.
Proof.
  induction fuel as [| fuel IH]; intros fuel' dyn buffer offset headers result Hle;
    cbn [HpackDecoder.decodeHeaders_loop].
  - destruct fuel'; cbn [HpackDecoder.decodeHeaders_loop];
      destruct (offset <? len buffer); (discriminate || trivial).
  - destruct fuel' as [| fuel']; [lia |]. cbn [HpackDecoder.decodeHeaders_loop].
    destruct (offset <? len buffer); [| trivial].
    destruct (HpackDecoder.decodeField dyn buffer offset headers)
      as [[offset1 headers1] dyn1].
    apply IH. lia.
Qed.

(** *** The round trip *)

(** The scenario of the specification: the pair [:method: GET] is the single
    byte 0x82 and decodes to the same pair. *)
Example hpack_indexed_method_get :
  HpackEncoder.encodeHeaders [(str ":method", str "GET")] = [130]
  /\ HpackDecoder.decodeHeaders 1 [] [130]
     = Some ([(str ":method", str "GET")], []).
Proof. split; reflexivity. Qed.

(** C2, as the code has it.  For headers with distinct names, with
    seven-bit names and values, no upper-case letter in a name and entries
    within the table size, the decoder reads back what [encodeHeaders]
    wrote, in order, whatever its dynamic table holds, as soon as the fuel
    covers one turn per header; the same holds for [encodeHeadersLiteral]
    when no name is at a static position above 14.  The pair [:method: GET]
    is the byte 0x82 in the indexed mode, and decodes to the same pair. *)
Theorem hpack_roundtrip (H : Map jsstring) (fuel : nat) (dyn : table) :
  NoDup (map fst H) -> Forall hpack_header_ok H -> (length H <= fuel)%nat ->
  (exists dyn',
      HpackDecoder.decodeHeaders fuel dyn (HpackEncoder.encodeHeaders H)
      = Some (H, dyn'))
  /\ (Forall (fun h => HpackEncoder.findStaticTableIndex (fst h) < 15) H ->
      exists dyn',
        HpackDecoder.decodeHeaders fuel dyn (HpackEncoder.encodeHeadersLiteral H)
        = Some (H, dyn'))
  /\ HpackEncoder.encodeHeaders [(str ":method", str "GET")] = [130]
  /\ HpackDecoder.decodeHeaders 1 [] [130]
     = Some ([(str ":method", str "GET")], []).
Proof.
  intros Hnd Hok Hfuel. rewrite Forall_forall in Hok.
  split; [| split; [| exact hpack_indexed_method_get]].
  - unfold HpackDecoder.decodeHeaders, HpackEncoder.encodeHeaders.
    destruct (decodeHeaders_loop_fields HpackEncoder.encodeHeader H) with
      (fuel := fuel) (dyn := dyn) (pre := @nil Z) (acc := @nil (jsstring * jsstring))
      as [dyn' Hd]; try assumption.
    + intros d p q a h Hin. apply decodeField_encodeHeader, Hok, Hin.
    + intros h _ [].
    + exists dyn'. exact Hd.
  - intros H15. rewrite Forall_forall in H15.
    unfold HpackDecoder.decodeHeaders, HpackEncoder.encodeHeadersLiteral.
    destruct (decodeHeaders_loop_fields HpackEncoder.encodeHeaderLiteral H) with
      (fuel := fuel) (dyn := dyn) (pre := @nil Z) (acc := @nil (jsstring * jsstring))
      as [dyn' Hd]; try assumption.
    + intros d p q a h Hin.
      apply decodeField_encodeHeaderLiteral; [apply Hok, Hin | apply H15, Hin].
    + intros h _ [].
    + exists dyn'. exact Hd.
Qed.

(** Three headers: one in the static table with its value, one with its
    name only, one that is new. *)
Lemma hpack_roundtrip_witness :
  let H := [(str ":method", str "GET"); (str ":path", str "/search?q=1");
            (str "x-trace", str "abc 123")] in
  (exists dyn',
      HpackDecoder.decodeHeaders 3 [] (HpackEncoder.encodeHeaders H)
      = Some (H, dyn'))
  /\ (exists dyn',
        HpackDecoder.decodeHeaders 3 [] (HpackEncoder.encodeHeadersLiteral H)
        = Some (H, dyn')).
Proof.
  cbv zeta.
  destruct (hpack_roundtrip
              [(str ":method", str "GET"); (str ":path", str "/search?q=1");
               (str "x-trace", str "abc 123")] 3 [])
    as [H1 [H2 _]].
  - repeat constructor; cbn; intuition discriminate.
  - repeat constructor; vm_compute; discriminate.
  - cbn. lia.
  - split; [exact H1 | apply H2].
    repeat constructor; vm_compute; reflexivity.
Defined.

(** C2 as stated fails: [Accept] is a seven-bit name within every bound,
    and it comes back as [accept], because the encoder looks names up in
    the static table in lower case and then sends the index only. *)
Lemma hpack_roundtrip_counterexample :
  let H := [(str "Accept", str "x")] in
  NoDup (map fst H)
  /\ Forall (fun h => ascii_text (fst h) /\ ascii_text (snd h)
                      /\ entry_within_table_size h) H
  /\ HpackDecoder.decodeHeaders 1 [] (HpackEncoder.encodeHeaders H)
     = Some ([(str "accept", str "x")], [(str "accept", str "x")])
  /\ [(str "accept", str "x")] <> H.
Proof.
  cbv zeta. split; [| split; [| split]].
  - repeat constructor. intros [].
  - repeat constructor; vm_compute; discriminate.
  - reflexivity.
  - discriminate.
Qed.

(** The literal mode writes a static index above 14 into one byte with no
    prefix coding, and the decoder reads that byte as something else: the
    header [cookie: a] comes back as an empty [:authority]. *)
Lemma encodeHeadersLiteral_index_above_14 :
  HpackEncoder.encodeHeadersLiteral [(str "cookie", str "a")] = [32; 1; 97]
  /\ HpackDecoder.decodeHeaders 2 [] [32; 1; 97]
     = Some ([(str ":authority", [])], []).
Proof. split; reflexivity. Qed.

(* ====================================================================== *)
(** ** Extracting an HTTP/2 response                                       *)
(* ====================================================================== *)

(** The keys of a decoded header map are distinct. *)
Lemma decodeField_NoDup (dyn : table) (buffer : Buffer) (offset : Z)
    (headers : Map jsstring) :
  NoDup (map fst headers) ->
  NoDup (map fst (snd (fst (HpackDecoder.decodeField dyn buffer offset headers)))).
Proof.
  intros H. unfold HpackDecoder.decodeField.
  repeat match goal with
         | |- context [if ?c then _ else _] => destruct c
         | |- context [let '(_, _) := ?p in _] => destruct p
         | |- context [match ?o with Some _ => _ | None => _ end] => destruct o
         end; cbn [fst snd]; try apply Map_set_NoDup; exact H.
Qed.

Lemma decodeHeaders_loop_NoDup (fuel : nat) :
  forall dyn buffer offset headers result dyn',
    NoDup (map fst headers) ->
    HpackDecoder.decodeHeaders_loop fuel dyn buffer offset headers
    = Some (result, dyn') ->
    NoDup (map fst result).
Proof.
  induction fuel as [| fuel IH]; intros dyn buffer offset headers result dyn' Hnd;
    cbn [HpackDecoder.decodeHeaders_loop]; destruct (offset <? len buffer);
    try discriminate; try (intros E; injection E as <- <-; exact Hnd).
  pose proof (decodeField_NoDup dyn buffer offset headers Hnd) as Hstep.
  destruct (HpackDecoder.decodeField dyn buffer offset headers)
    as [[offset1 headers1] dyn1].
  cbn [fst snd] in Hstep. apply IH. exact Hstep.
Qed.

Lemma parseHeadersPayload_NoDup (fuel : nat) (dyn : table) (frame : Http2Frame.t)
    (headerMap : Map jsstring) (priority : option Http2FrameParser.priority_t)
    (dyn' : table) :
  Http2FrameParser.parseHeadersPayload fuel dyn frame
  = Returns (Some (headerMap, priority, dyn')) ->
  NoDup (map fst headerMap).
Proof.
  unfold Http2FrameParser.parseHeadersPayload, bind.
  repeat match goal with
         | |- context [if ?c then _ else _] => destruct c
         | |- context [match readUInt8 ?b ?o with _ => _ end] =>
             destruct (readUInt8 b o)
         | |- context [match readUInt32BE ?b ?o with _ => _ end] =>
             destruct (readUInt32BE b o)
         end; try discriminate;
  match goal with
  | |- context [HpackDecoder.decodeHeaders ?f ?d ?b] =>
      destruct (HpackDecoder.decodeHeaders f d b) as [[hm d1] |] eqn:E
  end; try discriminate;
  intros Heq; injection Heq as <- _ _;
  unfold HpackDecoder.decodeHeaders in E;
  (eapply decodeHeaders_loop_NoDup; [| exact E]; constructor).
Qed.

(** The loop over a header map with distinct keys. *)
Lemma responseHeaders_fold (l : Map jsstring) :
  NoDup (map fst l) ->
  forall (st : number) (hs : Map (list jsstring)),
    (forall k, In k (map fst l) -> ~ In k (map fst hs)) ->
    fold_left Http2FrameParser.responseHeaders_step l (st, hs)
    = (match Map_get l (str ":status") with
       | Some v => parseInt10 v
       | None => st
       end,
       hs ++ response_headers l).
Proof.
  induction l as [| [n v] l IH]; intros Hnd st hs Hdis.
  - cbn. now rewrite app_nil_r.
  - inversion Hnd as [| x xs Hnotin Hnd' Heq]; subst.
    cbn [fold_left Http2FrameParser.responseHeaders_step Map_get].
    unfold response_headers. cbn [filter fst snd map].
    destruct (streq n (str ":status")) eqn:Es.
    + apply streq_eq in Es. subst n.
      rewrite streq_refl. change (starts_with (str ":") (str ":status")) with true.
      cbn [negb]. rewrite IH; [| exact Hnd' |].
      * rewrite Map_get_None by exact Hnotin. reflexivity.
      * intros k Hk. apply Hdis. right. exact Hk.
    + assert (Es' : streq (str ":status") n = false).
      { apply streq_neq. intros <-. now rewrite streq_refl in Es. }
      rewrite Es'. destruct (starts_with (str ":") n) eqn:Ep; cbn [negb].
      * apply IH; [exact Hnd' |]. intros k Hk. apply Hdis. right. exact Hk.
      * rewrite Map_get_None by (apply Hdis; now left).
        rewrite Map_set_fresh by (apply Hdis; now left).
        rewrite IH; [| exact Hnd' |].
        -- cbn [map fst snd]. now rewrite <- app_assoc.
        -- intros k Hk. rewrite map_app, in_app_iff. cbn [map fst In].
           intros [Hin | [<- | []]]; [| contradiction].
           apply (Hdis k); [right; exact Hk | exact Hin].
Qed.

(** C4, as the code has it.  [extractResponse] keeps the frames of the
    stream asked for and those of stream 0.  Without a HEADERS frame among
    them it returns null.  Otherwise, once the header block of the first
    such HEADERS frame is decoded, the keys of the decoded map are distinct,
    the status code is the number read from its [:status] entry (200 when
    there is none), the entries that are not pseudo-headers become the header
    multimap in their order, and the body is the concatenation, in arrival
    order, of the payloads of the DATA frames kept: those of the stream and
    those of stream 0. *)
Theorem extractResponse_from_frames (fuel : nat) (dyn : table)
    (frames : list Http2Frame.t) (streamId : Z) :
  let kept := filter (fun f => (Http2Frame.streamId f =? streamId)
                               || (Http2Frame.streamId f =? 0)) frames in
  let first_headers := find (fun f => Http2Frame.type f =? HEADERS) kept in
  (first_headers = None ->
   Http2FrameParser.extractResponse fuel dyn frames streamId = Returns (Some None))
  /\ forall headersFrame headerMap priority dyn',
      first_headers = Some headersFrame ->
      Http2FrameParser.parseHeadersPayload fuel dyn headersFrame
      = Returns (Some (headerMap, priority, dyn')) ->
      NoDup (map fst headerMap)
      /\ Http2FrameParser.extractResponse fuel dyn frames streamId
         = Returns (Some (Some
             {| Http2Response.streamId := streamId;
                Http2Response.statusCode := response_status headerMap;
                Http2Response.headers := response_headers headerMap;
                Http2Response.body :=
                  concat (map Http2Frame.payload
                            (filter (fun f => Http2Frame.type f =? DATA) kept));
                Http2Response.frames := kept |})).
Proof.
  cbv zeta. unfold Http2FrameParser.extractResponse, Http2FrameParser.streamFrames.
  split.
  - intros ->. reflexivity.
  - intros headersFrame headerMap priority dyn' -> Hparse.
    pose proof (parseHeadersPayload_NoDup _ _ _ _ _ _ Hparse) as Hnd.
    split; [exact Hnd |].
    rewrite Hparse. cbn [bind].
    pose proof (responseHeaders_fold headerMap Hnd (Num 200) []
                  ltac:(intros k _ [])) as Hfold.
    match goal with
    | |- context [fold_left ?f ?l ?a] =>
        replace (fold_left f l a)
          with (response_status headerMap, response_headers headerMap)
          by (symmetry; exact Hfold)
    end.
    reflexivity.
Qed.

(** A response on stream 1: HEADERS with [:status: 404] and a literal
    [server] header, then two DATA frames of the stream. *)
Lemma extractResponse_witness :
  let headersFrame :=
    {| Http2Frame.length := 5; Http2Frame.type := HEADERS;
       Http2Frame.flags := END_HEADERS; Http2Frame.streamId := 1;
       Http2Frame.payload := [141; 118; 2; 104; 50] |} in
  let data1 :=
    {| Http2Frame.length := 2; Http2Frame.type := DATA; Http2Frame.flags := 0;
       Http2Frame.streamId := 1; Http2Frame.payload := str "no" |} in
  let data2 :=
    {| Http2Frame.length := 2; Http2Frame.type := DATA;
       Http2Frame.flags := END_STREAM;
       Http2Frame.streamId := 1; Http2Frame.payload := str "pe" |} in
  Http2FrameParser.extractResponse 2 [] [headersFrame; data1; data2] 1
  = Returns (Some (Some
      {| Http2Response.streamId := 1;
         Http2Response.statusCode := Num 404;
         Http2Response.headers := [(str "server", [str "h2"])];
         Http2Response.body := str "nope";
         Http2Response.frames := [headersFrame; data1; data2] |})).
Proof.
  cbv zeta.
  destruct (extractResponse_from_frames 2 []
              [ {| Http2Frame.length := 5; Http2Frame.type := HEADERS;
                   Http2Frame.flags := END_HEADERS; Http2Frame.streamId := 1;
                   Http2Frame.payload := [141; 118; 2; 104; 50] |};
                {| Http2Frame.length := 2; Http2Frame.type := DATA;
                   Http2Frame.flags := 0; Http2Frame.streamId := 1;
                   Http2Frame.payload := str "no" |};
                {| Http2Frame.length := 2; Http2Frame.type := DATA;
                   Http2Frame.flags := END_STREAM; Http2Frame.streamId := 1;
                   Http2Frame.payload := str "pe" |} ] 1) as [_ H].
  destruct (H {| Http2Frame.length := 5; Http2Frame.type := HEADERS;
                 Http2Frame.flags := END_HEADERS; Http2Frame.streamId := 1;
                 Http2Frame.payload := [141; 118; 2; 104; 50] |}
              [(str ":status", str "404"); (str "server", str "h2")]
              None [(str "server", str "h2")] eq_refl eq_refl) as [_ E].
  exact E.
Defined.

(** C4 as stated fails: a DATA frame that arrives on stream 0 is part of the
    body extracted for stream 1. *)
Lemma extractResponse_counterexample :
  let headersFrame :=
    {| Http2Frame.length := 1; Http2Frame.type := HEADERS;
       Http2Frame.flags := END_HEADERS; Http2Frame.streamId := 1;
       Http2Frame.payload := [136] |} in
  let data0 :=
    {| Http2Frame.length := 1; Http2Frame.type := DATA; Http2Frame.flags := 0;
       Http2Frame.streamId := 0; Http2Frame.payload := str "x" |} in
  let data1 :=
    {| Http2Frame.length := 1; Http2Frame.type := DATA;
       Http2Frame.flags := END_STREAM;
       Http2Frame.streamId := 1; Http2Frame.payload := str "y" |} in
  let frames := [headersFrame; data0; data1] in
  Http2FrameParser.extractResponse 1 [] frames 1
  = Returns (Some (Some
      {| Http2Response.streamId := 1;
         Http2Response.statusCode := Num 200;
         Http2Response.headers := [];
         Http2Response.body := str "xy";
         Http2Response.frames := frames |}))
  /\ concat (map Http2Frame.payload
               (filter (fun f => (Http2Frame.type f =? DATA)
                                 && (Http2Frame.streamId f =? 1)) frames))
     = str "y".
Proof. split; reflexivity. Qed.

(* ====================================================================== *)
(** * Further properties                                                   *)
(* ====================================================================== *)

(** ** Numbers written in a radix *)

Lemma digits_of_value (radix : Z) (dig_val : Z -> Z) :
  2 <= radix ->
  (forall d, 0 <= d < radix -> dig_val (digit_char d) = d) ->
  forall (fuel : nat) (n : Z) (acc : jsstring),
    0 <= n < 2 ^ Z.of_nat fuel ->
    fold_left (fun a c => a * radix + dig_val c) (digits_of fuel radix n acc) 0
    = fold_left (fun a c => a * radix + dig_val c) acc n.
Proof.
  intros Hr Hd. induction fuel as [| fuel IH]; intros n acc Hn.
  - cbn in Hn. assert (n = 0) by lia. subst n. reflexivity.
  - cbn [digits_of]. destruct (n <? radix) eqn:E.
    + apply Z.ltb_lt in E. cbn [fold_left]. rewrite Hd by lia. f_equal.
    + apply Z.ltb_ge in E. rewrite IH.
      * cbn [fold_left]. rewrite Hd by (apply Z.mod_pos_bound; lia).
        f_equal. rewrite (Z.div_mod n radix) at 3 by lia. lia.
      * rewrite Nat2Z.inj_succ, Z.pow_succ_r in Hn by lia.
        split; [apply Z.div_pos; lia |].
        apply Z.div_lt_upper_bound; [lia |]. nia.
Qed.

Lemma digits_of_class (radix : Z) (is_dig : Z -> bool) :
  2 <= radix ->
  (forall d, 0 <= d < radix -> is_dig (digit_char d) = true) ->
  forall (fuel : nat) (n : Z) (acc : jsstring),
    0 <= n -> forallb is_dig acc = true ->
    forallb is_dig (digits_of fuel radix n acc) = true.
Proof.
  intros Hr Hd. induction fuel as [| fuel IH]; intros n acc Hn Hacc.
  - exact Hacc.
  - cbn [digits_of]. destruct (n <? radix) eqn:E.
    + apply Z.ltb_lt in E. cbn [forallb]. now rewrite Hd, Hacc by lia.
    + apply Z.ltb_ge in E. apply IH; [apply Z.div_pos; lia |].
      cbn [forallb]. now rewrite Hd, Hacc by (apply Z.mod_pos_bound; lia).
Qed.

Lemma digits_of_nonempty (fuel : nat) (radix n : Z) (acc : jsstring) :
  digits_of (S fuel) radix n acc <> [].
Proof.
  revert n acc. induction fuel as [| fuel IH]; intros n acc.
  - cbn. destruct (n <? radix); discriminate.
  - cbn [digits_of]. destruct (n <? radix); [discriminate |].
    apply IH.
Qed.

Lemma log2_fuel (n : Z) : 0 <= n -> n < 2 ^ Z.of_nat (S (Z.to_nat (Z.log2 n))).
Proof.
  intros Hn. pose proof (Z.log2_nonneg n).
  replace (Z.of_nat (S (Z.to_nat (Z.log2 n)))) with (Z.succ (Z.log2 n)) by lia.
  destruct (Z.eq_dec n 0) as [-> | Hne]; [cbn; lia |].
  apply Z.log2_spec. lia.
Qed.

(** The digits [toString(radix)] writes read back as the number. *)
Lemma toStringRadix_value (radix : Z) (dig_val : Z -> Z) (n : Z) :
  2 <= radix ->
  (forall d, 0 <= d < radix -> dig_val (digit_char d) = d) ->
  0 <= n ->
  fold_left (fun a c => a * radix + dig_val c) (toStringRadix n radix) 0 = n.
Proof.
  intros Hr Hd Hn. unfold toStringRadix.
  rewrite (digits_of_value radix dig_val Hr Hd); [reflexivity |].
  split; [exact Hn | apply log2_fuel; exact Hn].
Qed.

Lemma toStringRadix_class (radix : Z) (is_dig : Z -> bool) (n : Z) :
  2 <= radix ->
  (forall d, 0 <= d < radix -> is_dig (digit_char d) = true) ->
  0 <= n ->
  forallb is_dig (toStringRadix n radix) = true.
Proof.
  intros Hr Hd Hn. unfold toStringRadix.
  apply digits_of_class; auto.
Qed.

Lemma decimal_digit_char (d : Z) :
  0 <= d < 10 -> digit_char d - 48 = d /\ is_digit (digit_char d) = true.
Proof.
  intros H.
  pose proof (forall_range (fun d => (digit_char d - 48 =? d) && is_digit (digit_char d))
                0 10 eq_refl d H) as E.
  cbv beta in E. apply andb_prop in E as [E1 E2]. apply Z.eqb_eq in E1. auto.
Qed.

Lemma hex_digit_char (d : Z) :
  0 <= d < 16 ->
  hex_digit_value (digit_char d) = d /\ is_hex_digit (digit_char d) = true.
Proof.
  intros H.
  pose proof (forall_range
                (fun d => (hex_digit_value (digit_char d) =? d)
                          && is_hex_digit (digit_char d))
                0 16 eq_refl d H) as E.
  cbv beta in E. apply andb_prop in E as [E1 E2]. apply Z.eqb_eq in E1. auto.
Qed.

(** ** The byte encoder: HTML entities *)

(** Without a surrogate pair the iteration by code points sees every code
    unit. *)
Lemma char_codes_id (s : jsstring) :
  has_surrogate_pair s = false -> char_codes s = s.
Proof.
  induction s as [| c rest IH]; [reflexivity |].
  intros H. cbn [char_codes]. cbn [has_surrogate_pair] in H.
  destruct rest as [| d rest'].
  - now destruct (is_high_surrogate c).
  - apply orb_false_iff in H as [Hp Hrest].
    destruct (is_high_surrogate c); cbn [andb] in Hp.
    + rewrite Hp. now rewrite IH.
    + now rewrite IH.
Qed.

Lemma starts_with_app_self (p s : jsstring) : starts_with p (p ++ s) = true.
Proof.
  induction p as [| x p IH]; [reflexivity |].
  cbn. now rewrite Z.eqb_refl.
Qed.

Lemma starts_with_In (p s : jsstring) (x : Z) :
  starts_with p s = true -> In x p -> In x s.
Proof.
  revert s. induction p as [| y p IH]; intros s H Hin; [destruct Hin |].
  destruct s as [| z s]; [discriminate |].
  cbn in H. apply andb_prop in H as [E H]. apply Z.eqb_eq in E. subst z.
  destruct Hin as [-> | Hin]; [now left | right; now apply IH].
Qed.

Lemma take_while_stop (f : Z -> bool) (ds : jsstring) (c : Z) (rest : jsstring) :
  forallb f ds = true -> f c = false -> take_while f (ds ++ c :: rest) = ds.
Proof.
  intros Hds Hc. induction ds as [| d ds IH]; cbn.
  - now rewrite Hc.
  - cbn in Hds. apply andb_prop in Hds as [Hd Hds]. now rewrite Hd, IH.
Qed.

Section Entities.

Variables (is_dig : Z -> bool) (dig_val : Z -> Z) (radix : Z).

(** The characters of a match are passed over. *)
Lemma replace_entities_skip (prefix a rest : jsstring) :
  replace_entities prefix is_dig dig_val radix (a ++ rest) (length a)
  = replace_entities prefix is_dig dig_val radix rest 0.
Proof.
  induction a as [| c a IH]; [reflexivity |].
  exact IH.
Qed.

(** An entity is replaced by its character. *)
Lemma replace_entities_entity (prefix ds rest : jsstring) :
  prefix <> [] -> ds <> [] -> forallb is_dig ds = true -> is_dig 59 = false ->
  replace_entities prefix is_dig dig_val radix (prefix ++ ds ++ 59 :: rest) 0
  = (fold_left (fun acc d => acc * radix + dig_val d) ds 0) mod 65536
    :: replace_entities prefix is_dig dig_val radix rest 0.
Proof.
  intros Hp Hne Hds H59.
  destruct prefix as [| c0 p'] eqn:Epre; [now destruct Hp |].
  rewrite <- Epre.
  assert (Hs : prefix ++ ds ++ 59 :: rest = c0 :: p' ++ ds ++ 59 :: rest)
    by (rewrite Epre; reflexivity).
  rewrite Hs at 1. cbn [replace_entities]. rewrite <- Hs.
  rewrite starts_with_app_self.
  rewrite skipn_app, skipn_all, Nat.sub_diag. cbn [app skipn].
  rewrite take_while_stop by assumption.
  destruct ds as [| d ds']; [now destruct Hne |].
  cbn [length Nat.eqb negb andb].
  replace (prefix ++ (d :: ds') ++ 59 :: rest)
    with ((prefix ++ d :: ds') ++ 59 :: rest) by now rewrite <- app_assoc.
  replace (length prefix + S (length ds'))%nat with (length (prefix ++ d :: ds'))
    by (rewrite length_app; reflexivity).
  rewrite skipn_app, skipn_all, Nat.sub_diag. cbn [app skipn].
  change (starts_with (str ";") (59 :: rest)) with true. cbv iota. f_equal.
  rewrite <- (replace_entities_skip prefix (p' ++ (d :: ds') ++ [59]) rest).
  f_equal.
  - rewrite <- !app_assoc. reflexivity.
  - rewrite Epre. cbn [app length]. rewrite !length_app.
    cbn [length]. rewrite ?length_app. cbn [length]. lia.
Qed.

(** A text in which a character of the prefix does not occur is left as it
    is. *)
Lemma replace_entities_absent (prefix : jsstring) (x : Z) (s : jsstring) :
  In x prefix -> ~ In x s ->
  replace_entities prefix is_dig dig_val radix s 0 = s.
Proof.
  intros Hx. induction s as [| c s IH]; intros Hs; [reflexivity |].
  cbn [replace_entities].
  destruct (starts_with prefix (c :: s)) eqn:E.
  - exfalso. apply Hs. eapply starts_with_In; eassumption.
  - cbn [andb]. f_equal. apply IH. intros Hin. apply Hs. now right.
Qed.

End Entities.

Lemma code_units_cons (c : Z) (s : jsstring) :
  code_units (c :: s) -> 0 <= c < 65536 /\ code_units s.
Proof.
  unfold code_units. cbn [forallb]. intros H.
  apply andb_prop in H as [Hc Hs]. apply andb_prop in Hc as [H0 H1].
  apply Z.leb_le in H0. apply Z.ltb_lt in H1. auto.
Qed.

(** The pass over the entities of one radix undoes the encoding in that
    radix. *)
Lemma replace_entities_encoded (prefix : jsstring) (is_dig : Z -> bool)
    (dig_val : Z -> Z) (radix : Z) (s : jsstring) :
  prefix <> [] -> 2 <= radix -> is_dig 59 = false ->
  (forall d, 0 <= d < radix ->
     dig_val (digit_char d) = d /\ is_dig (digit_char d) = true) ->
  code_units s ->
  replace_entities prefix is_dig dig_val radix
    (flat_map (fun c => prefix ++ toStringRadix c radix ++ str ";") s) 0
  = s.
Proof.
  intros Hp Hr H59 Hd. induction s as [| c s IH]; intros Hs; [reflexivity |].
  apply code_units_cons in Hs as [Hc Hs].
  cbn [flat_map]. rewrite <- !app_assoc.
  change (str ";" ++ ?x) with (59 :: x).
  rewrite replace_entities_entity; try assumption.
  - rewrite toStringRadix_value by (try apply Hd; lia).
    rewrite Z.mod_small by lia. f_equal. apply IH, Hs.
  - apply digits_of_nonempty.
  - apply toStringRadix_class; (try apply Hd; lia).
Qed.

(** X1.  A text without surrogate pairs that is encoded as decimal HTML
    entities, [htmlEntityEncode(s, false)], is decoded back to itself by
    [htmlEntityDecode], whatever it contains. *)
Theorem htmlEntity_decimal_roundtrip (s : jsstring) :
  code_units s -> has_surrogate_pair s = false ->
  htmlEntityDecode (htmlEntityEncode s false) = s.
Proof.
  intros Hs Hpair. unfold htmlEntityDecode, htmlEntityEncode.
  rewrite char_codes_id by exact Hpair.
  rewrite (replace_entities_absent _ _ _ (str "&#x") 120).
  - apply (replace_entities_encoded (str "&#") is_digit (fun c => c - 48) 10);
      [discriminate | lia | reflexivity | apply decimal_digit_char | exact Hs].
  - cbn. auto.
  - clear Hpair. induction s as [| c s IH]; [intros [] |].
    apply code_units_cons in Hs as [Hc Hs].
    cbn [flat_map]. rewrite !in_app_iff. intros [[Hin | [Hin | Hin]] | Hin].
    + cbn in Hin. intuition discriminate.
    + pose proof (toStringRadix_class 10 is_digit c ltac:(lia)
                    (fun d H => proj2 (decimal_digit_char d H)) ltac:(lia)) as Hall.
      rewrite forallb_forall in Hall. specialize (Hall 120 Hin). discriminate Hall.
    + cbn in Hin. intuition discriminate.
    + exact (IH Hs Hin).
Qed.

Lemma htmlEntity_decimal_roundtrip_witness :
  htmlEntityDecode (htmlEntityEncode (str "a&#65;<") false) = str "a&#65;<".
Proof.
  apply htmlEntity_decimal_roundtrip; reflexivity.
Defined.

(** X2.  [encode] with the kind [html-entity] followed by [decode] with the
    same kind gives back every text that has no ampersand and no surrogate
    pair.  An ampersand can break the round trip, because [decode] reads
    decimal entities in what the hexadecimal ones stood for: the text
    [&#65;] comes back as [A]. *)
Theorem html_entity_roundtrip
    (decodeURIComponent : jsstring -> outcome jsstring)
    (Buffer_from_base64 : jsstring -> Buffer) :
  (forall s : jsstring,
      code_units s -> has_surrogate_pair s = false -> ~ In 38 s ->
      bind (encode s html_entity)
           (fun e => decode decodeURIComponent Buffer_from_base64 e html_entity)
      = Returns s)
  /\ bind (encode (str "&#65;") html_entity)
          (fun e => decode decodeURIComponent Buffer_from_base64 e html_entity)
     = Returns (str "A").
Proof.
  split; [| reflexivity].
  intros s Hs Hpair Hamp. cbn [encode bind decode]. f_equal.
  unfold htmlEntityDecode, htmlEntityEncode.
  rewrite char_codes_id by exact Hpair.
  rewrite (replace_entities_encoded (str "&#x") is_hex_digit hex_digit_value 16);
    [| discriminate | lia | reflexivity | apply hex_digit_char | exact Hs].
  apply (replace_entities_absent _ _ _ (str "&#") 38); [cbn; auto | exact Hamp].
Qed.

Lemma html_entity_roundtrip_witness :
  bind (encode (str "<script>") html_entity)
       (fun e => decode (fun s => Returns s) (fun s => s) e html_entity)
  = Returns (str "<script>").
Proof.
  apply (proj1 (html_entity_roundtrip (fun s => Returns s) (fun s => s)));
    [reflexivity | reflexivity |].
  cbn. intuition discriminate.
Defined.

(** ** The byte encoder: URL encoding *)

Lemma utf8_of_code_point_bytes (c : Z) :
  0 <= c < 1114112 ->
  forallb (fun b => (0 <=? b) && (b <? 256)) (utf8_of_code_point c) = true.
Proof.
  intros Hc. unfold utf8_of_code_point.
  destruct (c <? 128) eqn:E1; [apply Z.ltb_lt in E1 | apply Z.ltb_ge in E1].
  { cbn [forallb]. range_checks. reflexivity. }
  destruct (c <? 2048) eqn:E2; [apply Z.ltb_lt in E2 | apply Z.ltb_ge in E2].
  { cbn [forallb].
    assert (0 <= c / 64 < 32) by (clear - Hc E2; Z.div_mod_to_equations; lia).
    assert (0 <= c mod 64 < 64) by (apply Z.mod_pos_bound; lia).
    range_checks. reflexivity. }
  destruct (c <? 65536) eqn:E3; [apply Z.ltb_lt in E3 | apply Z.ltb_ge in E3].
  { cbn [forallb].
    assert (0 <= c / 4096 < 16) by (clear - Hc E3; Z.div_mod_to_equations; lia).
    assert (0 <= (c / 64) mod 64 < 64) by (apply Z.mod_pos_bound; lia).
    assert (0 <= c mod 64 < 64) by (apply Z.mod_pos_bound; lia).
    range_checks. reflexivity. }
  cbn [forallb].
  assert (0 <= c / 262144 < 8) by (clear - Hc; Z.div_mod_to_equations; lia).
  assert (0 <= (c / 4096) mod 64 < 64) by (apply Z.mod_pos_bound; lia).
  assert (0 <= (c / 64) mod 64 < 64) by (apply Z.mod_pos_bound; lia).
  assert (0 <= c mod 64 < 64) by (apply Z.mod_pos_bound; lia).
  range_checks. reflexivity.
Qed.

Lemma percent_byte_safe (b : Z) :
  0 <= b < 256 -> forallb url_safe (percent_byte b) = true.
Proof.
  intros H.
  assert (E : forallb (fun b => forallb url_safe (percent_byte b)) (range_from 0 256)
              = true) by (vm_compute; reflexivity).
  exact (forall_range _ 0 256 E b H).
Qed.

Lemma percent_bytes_safe (bs : Buffer) :
  forallb (fun b => (0 <=? b) && (b <? 256)) bs = true ->
  forallb url_safe (percent_bytes bs) = true.
Proof.
  induction bs as [| b bs IH]; [reflexivity |].
  cbn [forallb]. intros H. apply andb_prop in H as [Hb Hbs].
  apply andb_prop in Hb as [H0 H1]. apply Z.leb_le in H0. apply Z.ltb_lt in H1.
  unfold percent_bytes. cbn [flat_map]. rewrite forallb_app.
  rewrite percent_byte_safe by lia. apply IH, Hbs.
Qed.

Ltac bool_lia :=
  rewrite ?andb_true_iff, ?orb_true_iff, ?negb_true_iff, ?andb_false_iff,
    ?orb_false_iff, ?negb_false_iff, ?Z.leb_le, ?Z.ltb_lt, ?Z.eqb_eq,
    ?Z.leb_gt, ?Z.ltb_ge, ?Z.eqb_neq;
  lia.

Ltac decide_cond :=
  repeat match goal with
         | |- context [if ?b then _ else _] =>
             first [ replace b with true by (symmetry; bool_lia)
                   | replace b with false by (symmetry; bool_lia) ]
         end.

Ltac bool_to_prop H :=
  rewrite ?orb_true_iff, ?andb_true_iff, ?orb_false_iff, ?andb_false_iff,
    ?negb_true_iff, ?negb_false_iff, ?Z.leb_le, ?Z.ltb_lt, ?Z.eqb_eq,
    ?Z.leb_gt, ?Z.ltb_ge, ?Z.eqb_neq in H.

Lemma uri_unreserved_bound (c : Z) : uri_unreserved c = true -> 33 <= c <= 126.
Proof.
  unfold uri_unreserved, is_digit. intros H. bool_to_prop H. lia.
Qed.

Lemma url_safe_bound (c : Z) : url_safe c = true -> 37 <= c <= 126.
Proof.
  unfold url_safe, is_digit. intros H. bool_to_prop H. lia.
Qed.

Lemma escape_sub_delim_safe (c : Z) :
  uri_unreserved c || (c =? 37) = true ->
  forallb url_safe (escape_sub_delim c) = true.
Proof.
  intros H.
  assert (Hc : 0 <= c < 0 + 128).
  { apply orb_prop in H as [H | H]; [apply uri_unreserved_bound in H; lia |].
    apply Z.eqb_eq in H. lia. }
  assert (E : forallb (fun c => implb (uri_unreserved c || (c =? 37))
                                      (forallb url_safe (escape_sub_delim c)))
                      (range_from 0 128) = true) by (vm_compute; reflexivity).
  pose proof (forall_range _ 0 128 E c Hc) as Hi. cbv beta in Hi.
  rewrite H in Hi. exact Hi.
Qed.

Lemma escape_sub_delim_id (c : Z) :
  url_safe c = true -> escape_sub_delim c = [c].
Proof.
  intros H. unfold escape_sub_delim.
  unfold url_safe, is_digit in H. bool_to_prop H.
  destruct ((c =? 33) || (c =? 39) || (c =? 40) || (c =? 41) || (c =? 42)) eqn:E;
    [| reflexivity].
  bool_to_prop E. lia.
Qed.

(** [encodeURIComponent] throws on a surrogate without its partner and on
    nothing else; what it returns is made of unreserved characters and
    percent signs. *)
Lemma encodeURIComponent_outcome (n : nat) :
  forall s : jsstring,
    (length s <= n)%nat -> code_units s ->
    if has_lone_surrogate s then encodeURIComponent s = Throws
    else exists e, encodeURIComponent s = Returns e
                   /\ forallb (fun c => uri_unreserved c || (c =? 37)) e = true.
Proof.
  induction n as [| n IH]; intros s Hlen Hs.
  { destruct s; [| cbn in Hlen; lia]. cbn. now exists []. }
  destruct s as [| c rest]; [cbn; now exists [] |].
  apply code_units_cons in Hs as [Hc Hrest].
  cbn [length] in Hlen.
  cbn [has_lone_surrogate encodeURIComponent].
  destruct (uri_unreserved c) eqn:Eu.
  - apply uri_unreserved_bound in Eu as Hb.
    assert (Hh : is_high_surrogate c = false)
      by (unfold is_high_surrogate; apply andb_false_iff; left; apply Z.leb_gt; lia).
    assert (Hl : is_low_surrogate c = false)
      by (unfold is_low_surrogate; apply andb_false_iff; left; apply Z.leb_gt; lia).
    rewrite Hh, Hl.
    specialize (IH rest ltac:(lia) Hrest).
    destruct (has_lone_surrogate rest).
    + now rewrite IH.
    + destruct IH as [e [-> He]]. exists (c :: e). cbn [bind forallb].
      now rewrite Eu, He.
  - destruct (is_high_surrogate c) eqn:Eh.
    + assert (Hl : is_low_surrogate c = false).
      { unfold is_high_surrogate in Eh. unfold is_low_surrogate.
        bool_to_prop Eh. apply andb_false_iff. left. apply Z.leb_gt. lia. }
      rewrite Hl.
      destruct rest as [| d rest']; [reflexivity |].
      destruct (is_low_surrogate d) eqn:Ed; [| reflexivity].
      apply code_units_cons in Hrest as [Hd Hrest'].
      cbn [length] in Hlen.
      specialize (IH rest' ltac:(lia) Hrest').
      destruct (has_lone_surrogate rest').
      * now rewrite IH.
      * destruct IH as [e [-> He]]. eexists. split; [reflexivity |].
        rewrite forallb_app, He, andb_true_r.
        unfold is_high_surrogate in Eh. unfold is_low_surrogate in Ed.
        bool_to_prop Eh. bool_to_prop Ed.
        pose proof (percent_bytes_safe _
                      (utf8_of_code_point_bytes
                         (65536 + (c - 55296) * 1024 + (d - 56320)) ltac:(lia)))
          as Hsafe.
        rewrite forallb_forall in Hsafe |- *. intros x Hx.
        specialize (Hsafe x Hx). unfold url_safe in Hsafe. unfold uri_unreserved.
        bool_to_prop Hsafe. rewrite !orb_true_iff, !andb_true_iff, !Z.leb_le, !Z.eqb_eq.
        intuition lia.
    + destruct (is_low_surrogate c) eqn:El; [reflexivity |].
      specialize (IH rest ltac:(lia) Hrest).
      destruct (has_lone_surrogate rest).
      * now rewrite IH.
      * destruct IH as [e [-> He]]. eexists. split; [reflexivity |].
        rewrite forallb_app, He, andb_true_r.
        pose proof (percent_bytes_safe _
                      (utf8_of_code_point_bytes c ltac:(lia))) as Hsafe.
        rewrite forallb_forall in Hsafe |- *. intros x Hx.
        specialize (Hsafe x Hx). unfold url_safe in Hsafe. unfold uri_unreserved.
        bool_to_prop Hsafe. rewrite !orb_true_iff, !andb_true_iff, !Z.leb_le, !Z.eqb_eq.
        intuition lia.
Qed.

Lemma urlEncode_outcome (s : jsstring) :
  code_units s ->
  if has_lone_surrogate s then urlEncode s = Throws
  else exists e, urlEncode s = Returns e /\ forallb url_safe e = true.
Proof.
  intros Hs. pose proof (encodeURIComponent_outcome (length s) s (le_n _) Hs) as H.
  unfold urlEncode. destruct (has_lone_surrogate s).
  - now rewrite H.
  - destruct H as [e [-> He]]. eexists. split; [reflexivity |].
    induction e as [| c e IH]; [reflexivity |].
    cbn [forallb flat_map] in *. apply andb_prop in He as [Hc He].
    rewrite forallb_app, escape_sub_delim_safe by exact Hc. apply IH, He.
Qed.

(** X3.  [urlEncode] throws exactly when the text holds a surrogate without
    its partner; what it returns is made of ASCII letters, digits, the marks
    [- _ . ~] and percent signs only. *)
Theorem urlEncode_error_and_alphabet (s : jsstring) :
  code_units s ->
  (urlEncode s = Throws <-> has_lone_surrogate s = true)
  /\ (forall e, urlEncode s = Returns e -> forallb url_safe e = true).
Proof.
  intros Hs. pose proof (urlEncode_outcome s Hs) as H.
  destruct (has_lone_surrogate s).
  - rewrite H. split; [tauto | discriminate].
  - destruct H as [e [-> He]]. split.
    + split; discriminate.
    + intros e' [= <-]. exact He.
Qed.

Lemma urlEncode_error_and_alphabet_witness :
  (urlEncode (str "a b/c") = Throws <-> has_lone_surrogate (str "a b/c") = true)
  /\ (forall e, urlEncode (str "a b/c") = Returns e -> forallb url_safe e = true).
Proof.
  apply (urlEncode_error_and_alphabet (str "a b/c")). reflexivity.
Defined.

Lemma replace_percent (e : jsstring) :
  replace_all (str "%") (str "%25") e 0
  = flat_map (fun c => if c =? 37 then str "%25" else [c]) e.
Proof.
  induction e as [| c e IH]; [reflexivity |].
  cbn [replace_all flat_map].
  change (starts_with (str "%") (c :: e)) with ((37 =? c) && true).
  rewrite andb_true_r, (Z.eqb_sym 37 c).
  change (length (str "%") - 1)%nat with 0%nat.
  destruct (c =? 37); rewrite IH; reflexivity.
Qed.

Lemma urlEncode_encoded (e : jsstring) :
  forallb url_safe e = true ->
  urlEncode e = Returns (replace_all (str "%") (str "%25") e 0).
Proof.
  intros He. rewrite replace_percent. unfold urlEncode.
  assert (Henc : encodeURIComponent e
                 = Returns (flat_map (fun c => if c =? 37 then str "%25" else [c]) e)).
  { induction e as [| c e IH]; [reflexivity |].
    cbn [forallb] in He. apply andb_prop in He as [Hc He].
    cbn [encodeURIComponent flat_map]. rewrite (IH He). cbn [bind].
    destruct (c =? 37) eqn:E.
    - apply Z.eqb_eq in E. subst c. reflexivity.
    - assert (Hu : uri_unreserved c = true).
      { unfold url_safe in Hc. unfold uri_unreserved. rewrite E, orb_false_r in Hc.
        bool_to_prop Hc. rewrite !orb_true_iff, !andb_true_iff, !Z.leb_le, !Z.eqb_eq.
        unfold is_digit in *. bool_to_prop Hc.
        rewrite ?andb_true_iff, ?Z.leb_le. intuition lia. }
      rewrite Hu. reflexivity. }
  rewrite Henc. cbn [bind]. f_equal.
  clear Henc. induction e as [| c e IH]; [reflexivity |].
  cbn [forallb] in He. apply andb_prop in He as [Hc He].
  cbn [flat_map]. rewrite flat_map_app, (IH He). f_equal.
  destruct (c =? 37) eqn:E; [reflexivity |].
  cbn [flat_map]. now rewrite escape_sub_delim_id, app_nil_r.
Qed.

(** X4.  Encoding with the kind [double-url] is encoding with the kind [url]
    and then writing [%25] for every percent sign: the second pass finds
    nothing else to escape, and it throws only where the first pass does. *)
Theorem double_url_escapes_percent (s : jsstring) :
  code_units s ->
  encode s double_url
  = bind (encode s url)
         (fun e => Returns (replace_all (str "%") (str "%25") e 0)).
Proof.
  intros Hs. cbn [encode]. pose proof (urlEncode_outcome s Hs) as H.
  destruct (has_lone_surrogate s).
  - now rewrite H.
  - destruct H as [e [-> He]]. cbn [bind]. apply urlEncode_encoded, He.
Qed.

Lemma double_url_escapes_percent_witness :
  encode (str "a/b c") double_url
  = bind (encode (str "a/b c") url)
         (fun e => Returns (replace_all (str "%") (str "%25") e 0)).
Proof.
  apply (double_url_escapes_percent (str "a/b c")). reflexivity.
Defined.

(** ** The byte encoder: overlong UTF-8 *)

Lemma ascii_text_cons (c : Z) (s : jsstring) :
  ascii_text (c :: s) -> 0 <= c < 128 /\ ascii_text s.
Proof.
  unfold ascii_text. cbn [forallb]. intros H.
  apply andb_prop in H as [Hc Hs]. bool_to_prop Hc. auto.
Qed.

Lemma ascii_char_codes (s : jsstring) : ascii_text s -> char_codes s = s.
Proof.
  induction s as [| c s IH]; [reflexivity |]. intros H.
  apply ascii_text_cons in H as [Hc Hs]. cbn [char_codes].
  assert (E : is_high_surrogate c = false)
    by (unfold is_high_surrogate; apply andb_false_iff; left; apply Z.leb_gt; lia).
  now rewrite E, IH.
Qed.

Lemma overlong_bytes (c : Z) :
  0 <= c < 128 ->
  bor 192 (shr c 6) mod 256 = 192 + c / 64
  /\ bor 128 (band c 63) mod 256 = 128 + c mod 64.
Proof.
  intros H.
  assert (E : forallb (fun c => (bor 192 (shr c 6) mod 256 =? 192 + c / 64)
                                && (bor 128 (band c 63) mod 256 =? 128 + c mod 64))
                      (range_from 0 128) = true) by (vm_compute; reflexivity).
  pose proof (forall_range _ 0 128 E c H) as Hc. cbv beta in Hc.
  apply andb_prop in Hc as [H1 H2]. apply Z.eqb_eq in H1, H2. auto.
Qed.

(** X5.  For a seven-bit text [overlongUtf8Encode] gives two characters per
    character, with the codes [0xC0 + c / 64] and [0x80 + c mod 64]: the
    result holds no seven-bit character, and, taken as bytes, it is not
    accepted by the UTF-8 decoder of [toString("utf-8")], which turns every
    byte into U+FFFD instead of giving the character back. *)
Theorem overlongUtf8Encode_ascii (s : jsstring) :
  ascii_text s ->
  overlongUtf8Encode s = flat_map (fun c => [192 + c / 64; 128 + c mod 64]) s
  /\ forallb (fun b => (128 <=? b) && (b <? 256)) (overlongUtf8Encode s) = true
  /\ utf8_decode (overlongUtf8Encode s) = repeat 65533 (2 * length s).
Proof.
  intros Hs.
  assert (E : overlongUtf8Encode s
              = flat_map (fun c => [192 + c / 64; 128 + c mod 64]) s).
  { unfold overlongUtf8Encode, latin1_decode, Buffer_from_array.
    rewrite ascii_char_codes by exact Hs.
    induction s as [| c s IH]; [reflexivity |].
    apply ascii_text_cons in Hs as [Hc Hs].
    cbn [flat_map]. rewrite map_app, (IH Hs).
    destruct (c <? 128) eqn:E; [| apply Z.ltb_ge in E; lia].
    cbn [map app]. destruct (overlong_bytes c Hc) as [-> ->]. reflexivity. }
  rewrite E. clear E. split; [reflexivity |].
  unfold utf8_decode.
  induction s as [| c s IH]; [split; reflexivity |].
  apply ascii_text_cons in Hs as [Hc Hs]. destruct (IH Hs) as [IH1 IH2].
  assert (H1 : 0 <= c / 64 < 2) by (clear - Hc; Z.div_mod_to_equations; lia).
  assert (H2 : 0 <= c mod 64 < 64) by (apply Z.mod_pos_bound; lia).
  split.
  - cbn [flat_map app forallb]. rewrite IH1, andb_true_r.
    apply andb_true_intro; split; bool_lia.
  - replace (2 * length (c :: s))%nat with (S (S (2 * length s))) by (cbn; lia).
    cbn [flat_map app repeat utf8_decode_from].
    assert (L1 : utf8_step utf8_init (192 + c / 64) = ([65533], utf8_init)).
    { unfold utf8_step, utf8_lead. cbn [needed utf8_init]. decide_cond. reflexivity. }
    assert (L2 : utf8_step utf8_init (128 + c mod 64) = ([65533], utf8_init)).
    { unfold utf8_step, utf8_lead. cbn [needed utf8_init]. decide_cond. reflexivity. }
    rewrite L1, L2. cbn [app]. now rewrite IH2.
Qed.

Lemma overlongUtf8Encode_ascii_witness :
  overlongUtf8Encode (str "../")
  = flat_map (fun c => [192 + c / 64; 128 + c mod 64]) (str "../")
  /\ forallb (fun b => (128 <=? b) && (b <? 256)) (overlongUtf8Encode (str "../"))
     = true
  /\ utf8_decode (overlongUtf8Encode (str "../"))
     = repeat 65533 (2 * length (str "../")).
Proof.
  apply (overlongUtf8Encode_ascii (str "../")). reflexivity.
Defined.

(** ** The request assembler *)

Lemma utf8_encode_app_n (n : nat) :
  forall a b : jsstring,
    (length a <= n)%nat ->
    a = [] \/ is_high_surrogate (last a 0) = false ->
    utf8_encode (a ++ b) = utf8_encode a ++ utf8_encode b.
Proof.
  induction n as [| n IH]; intros a b Hlen Hlast.
  { destruct a; [reflexivity | cbn in Hlen; lia]. }
  destruct a as [| c rest]; [reflexivity |].
  destruct Hlast as [Hlast | Hlast]; [discriminate |].
  cbn [length] in Hlen.
  destruct rest as [| d rest'].
  - cbn [last] in Hlast. cbn [app utf8_encode]. rewrite Hlast.
    destruct (is_low_surrogate c); rewrite ?app_nil_r; reflexivity.
  - assert (Hrest : utf8_encode ((d :: rest') ++ b)
                    = utf8_encode (d :: rest') ++ utf8_encode b).
    { apply IH; [lia |]. right. exact Hlast. }
    assert (Hrest' : utf8_encode (rest' ++ b) = utf8_encode rest' ++ utf8_encode b).
    { apply IH; [cbn [length] in Hlen; lia |].
      destruct rest' as [| e rest'']; [now left | right; exact Hlast]. }
    change ((c :: d :: rest') ++ b) with (c :: d :: (rest' ++ b)).
    change (utf8_encode (c :: d :: rest' ++ b))
      with (if is_high_surrogate c then
              if is_low_surrogate d
              then utf8_of_code_point (65536 + (c - 55296) * 1024 + (d - 56320))
                     ++ utf8_encode (rest' ++ b)
              else utf8_of_code_point 65533 ++ utf8_encode ((d :: rest') ++ b)
            else if is_low_surrogate c
                 then utf8_of_code_point 65533 ++ utf8_encode ((d :: rest') ++ b)
                 else utf8_of_code_point c ++ utf8_encode ((d :: rest') ++ b)).
    change (utf8_encode (c :: d :: rest'))
      with (if is_high_surrogate c then
              if is_low_surrogate d
              then utf8_of_code_point (65536 + (c - 55296) * 1024 + (d - 56320))
                     ++ utf8_encode rest'
              else utf8_of_code_point 65533 ++ utf8_encode (d :: rest')
            else if is_low_surrogate c
                 then utf8_of_code_point 65533 ++ utf8_encode (d :: rest')
                 else utf8_of_code_point c ++ utf8_encode (d :: rest')).
    rewrite Hrest, Hrest'.
    destruct (is_high_surrogate c), (is_low_surrogate d), (is_low_surrogate c);
      now rewrite <- app_assoc.
Qed.

(** The encoding of two texts put together is the two encodings put
    together, unless the first ends in a high surrogate. *)
Lemma utf8_encode_app (a b : jsstring) :
  a = [] \/ is_high_surrogate (last a 0) = false ->
  utf8_encode (a ++ b) = utf8_encode a ++ utf8_encode b.
Proof. apply (utf8_encode_app_n (length a)). apply le_n. Qed.

Lemma last_app_nonempty (a b : jsstring) (d : Z) :
  b <> [] -> last (a ++ b) d = last b d.
Proof.
  intros Hb. induction a as [| x a IH]; [reflexivity |].
  rewrite <- IH. cbn [app]. destruct (a ++ b) eqn:E; [| reflexivity].
  apply app_eq_nil in E as [_ E]. contradiction.
Qed.

(** X6.  For a plan whose body is a string and whose line ending ends in an
    ordinary character (as CR LF, LF and CR do), [buildBuffer()] is the UTF-8
    encoding of [build()].  With a [Buffer] body the two can differ: the byte
    0xFF stays in [buildBuffer()], while [build()] decodes it to U+FFFD. *)
Theorem buildBuffer_encodes_build :
  (forall (b : t) (x : jsstring),
      _body b = BodyString x ->
      _lineEnding b <> [] ->
      is_high_surrogate (last (_lineEnding b) 0) = false ->
      buildBuffer b = utf8_encode (build b))
  /\ (let plan := body (BodyBuffer [255]) new in
      buildBuffer plan = str "GET / HTTP/1.1" ++ CRLF ++ [255]
      /\ utf8_encode (build plan)
         = str "GET / HTTP/1.1" ++ CRLF ++ [239; 191; 189]).
Proof.
  split; [| split; reflexivity].
  intros b x Hbody Hle Hlast. unfold buildBuffer, build. rewrite Hbody.
  destruct x as [| c x]; [reflexivity |]. cbn [body_truthy].
  symmetry. apply utf8_encode_app. right.
  unfold build_lines. cbn [app]. rewrite join_lines_shape, app_assoc.
  rewrite last_app_nonempty by exact Hle. exact Hlast.
Qed.

Lemma buildBuffer_encodes_build_witness :
  let plan := body (BodyString [233; 55357; 56832])
                (header (str "Host") (str "a") (lineEnding [LF] new)) in
  buildBuffer plan = utf8_encode (build plan).
Proof.
  cbv zeta.
  apply (proj1 buildBuffer_encodes_build _ [233; 55357; 56832]);
    [reflexivity | discriminate | reflexivity].
Defined.

(** *** The HTTP/2 header map of a plan *)

Lemma lower_unit_not_upper (c : Z) :
  negb ((65 <=? lower_unit c) && (lower_unit c <=? 90)) = true.
Proof.
  unfold lower_unit.
  destruct ((65 <=? c) && (c <=? 90) || (192 <=? c) && (c <=? 222) && negb (c =? 215))
    eqn:E; bool_to_prop E; bool_lia.
Qed.

Lemma toLowerCase_lower_case_name (s : jsstring) : lower_case_name (toLowerCase s).
Proof.
  unfold lower_case_name, toLowerCase.
  induction s as [| c s IH]; [reflexivity |].
  cbn [map forallb]. now rewrite lower_unit_not_upper, IH.
Qed.

Lemma buildHttp2Headers_names_lemma (b : t) :
  NoDup (map fst (buildHttp2Headers b))
  /\ Forall (fun h => lower_case_name (fst h)) (buildHttp2Headers b).
Proof.
  split; [apply buildHttp2_names_distinct |].
  unfold buildHttp2Headers.
  apply (fold_left_invariant (fun m => Forall (fun h => lower_case_name (fst h)) m)).
  - intros m h Hm.
    assert (Hset : forall k v, lower_case_name k ->
               Forall (fun h => lower_case_name (fst h)) (Map_set m k v)).
    { intros k v Hk. clear - Hm Hk. induction m as [| [k' v'] m IH].
      - repeat constructor. exact Hk.
      - cbn [Map_set]. inversion Hm as [| ? ? Hk' Hm']; subst.
        destruct (streq k k'); constructor; auto. }
    unfold buildHttp2Headers_step.
    destruct (raw_truthy h) as [r |].
    + unfold raw_name_value.
      destruct (0 <? indexOf r (str ":")); [| exact Hm].
      destruct (name_truthy _ && negb _); [| exact Hm].
      apply Hset, toLowerCase_lower_case_name.
    + destruct (negb _); [| exact Hm].
      apply Hset, toLowerCase_lower_case_name.
  - repeat constructor.
Qed.

(** X7.  In the map [buildHttp2Headers()] returns, the first four names are
    the pseudo-headers [:method], [:path], [:scheme] and [:authority] in
    this order, every name occurs once, and no name holds an upper-case
    ASCII letter. *)
Theorem buildHttp2Headers_names (b : t) :
  firstn 4 (map fst (buildHttp2Headers b))
  = [str ":method"; str ":path"; str ":scheme"; str ":authority"]
  /\ NoDup (map fst (buildHttp2Headers b))
  /\ Forall (fun h => lower_case_name (fst h)) (buildHttp2Headers b).
Proof.
  split; [| apply buildHttp2Headers_names_lemma].
  assert (H : exists rest,
             map fst (buildHttp2Headers b)
             = [str ":method"; str ":path"; str ":scheme"; str ":authority"]
               ++ rest).
  { unfold buildHttp2Headers.
    apply (fold_left_invariant
             (fun m => exists rest,
                  map fst m
                  = [str ":method"; str ":path"; str ":scheme"; str ":authority"]
                    ++ rest)).
    - intros m h [rest Hm].
      assert (Hset : forall k v, exists rest',
                 map fst (Map_set m k v)
                 = [str ":method"; str ":path"; str ":scheme"; str ":authority"]
                   ++ rest').
      { intros k v. rewrite Map_set_keys.
        destruct (existsb (streq k) (map fst m)); [now exists rest |].
        exists (rest ++ [k]). rewrite Hm. now rewrite <- app_assoc. }
      unfold buildHttp2Headers_step.
      repeat match goal with
             | |- context [match ?x with _ => _ end] => destruct x
             end; try apply Hset; now exists rest.
    - now exists []. }
  destruct H as [rest ->]. reflexivity.
Qed.

(** X8.  The header map of a plan survives HPACK: whenever the names and
    values [buildHttp2Headers()] returns are seven-bit and every entry is
    within the table size, the decoder reads back from the bytes
    [encodeHeaders] writes for the map exactly this map, in order. *)
Theorem buildHttp2Headers_hpack_roundtrip (b : t) (fuel : nat)
    (dyn : Http2.table) :
  Forall (fun h => ascii_text (fst h) /\ ascii_text (snd h)
                   /\ entry_within_table_size h) (buildHttp2Headers b) ->
  (length (buildHttp2Headers b) <= fuel)%nat ->
  exists dyn',
    HpackDecoder.decodeHeaders fuel dyn
      (HpackEncoder.encodeHeaders (buildHttp2Headers b))
    = Some (buildHttp2Headers b, dyn').
Proof.
  intros Hok Hfuel.
  destruct (buildHttp2Headers_names_lemma b) as [Hnd Hlow].
  rewrite Forall_forall in Hok, Hlow.
  unfold HpackDecoder.decodeHeaders, HpackEncoder.encodeHeaders.
  destruct (decodeHeaders_loop_fields HpackEncoder.encodeHeader
              (buildHttp2Headers b)) with
    (fuel := fuel) (dyn := dyn) (pre := @nil Z) (acc := @nil (jsstring * jsstring))
    as [dyn' Hd]; try assumption.
  - intros d p q a h Hin. apply decodeField_encodeHeader.
    destruct (Hok h Hin) as (Hn & Hv & Hsize).
    repeat split; auto.
  - intros h _ [].
  - exists dyn'. exact Hd.
Qed.

Lemma buildHttp2Headers_hpack_roundtrip_witness :
  let plan := header (str "Accept") (str "text/html")
                (rawHeader (str "X-Trace : abc")
                   (path (str "/search?q=1") (host (str "example.com") new))) in
  exists dyn',
    HpackDecoder.decodeHeaders 6 []
      (HpackEncoder.encodeHeaders (buildHttp2Headers plan))
    = Some (buildHttp2Headers plan, dyn').
Proof.
  cbv zeta.
  apply (buildHttp2Headers_hpack_roundtrip
           (header (str "Accept") (str "text/html")
              (rawHeader (str "X-Trace : abc")
                 (path (str "/search?q=1") (host (str "example.com") new))))
           6 []).
  - let l := eval vm_compute in
      (buildHttp2Headers
         (header (str "Accept") (str "text/html")
            (rawHeader (str "X-Trace : abc")
               (path (str "/search?q=1") (host (str "example.com") new))))) in
    change (Forall (fun h => ascii_text (fst h) /\ ascii_text (snd h)
                             /\ entry_within_table_size h) l).
    repeat constructor; vm_compute; discriminate.
  - apply Nat.leb_le. vm_compute. reflexivity.
Defined.

(** X9.  The request target [RawHttp.absoluteURI] writes is the URL that
    [buildUrl()] gives for a plan with the same host, port, scheme and path,
    and the missing options stand for port 80, the scheme [http] and the
    path [/]. *)
Theorem absoluteURI_target_is_buildUrl (h : jsstring) :
  h <> [] ->
  (forall (q : Z) (x : jsstring) (s : scheme_t),
      q <> 0 -> x <> [] ->
      absoluteURI h (Some q) (Some x) (Some s)
      = build (header (str "Host") h
                 (path (buildUrl (path x (scheme s (port q (host h new)))))
                    (method (str "GET") new))))
  /\ absoluteURI h None None None
     = absoluteURI h (Some 80) (Some (str "/")) (Some http).
Proof.
  intros Hh. split; [| reflexivity].
  intros q x s Hq Hx. unfold absoluteURI, buildUrl.
  cbn [_url _host _port _scheme _path new host port scheme path].
  destruct h as [| c h]; [contradiction |].
  destruct x as [| d x]; [contradiction |].
  apply Z.eqb_neq in Hq. rewrite Hq.
  destruct s; cbn [andb orb]; rewrite ?orb_false_r; reflexivity.
Qed.

Lemma absoluteURI_target_is_buildUrl_witness :
  absoluteURI (str "example.com") (Some 8443) (Some (str "/admin")) (Some https)
  = str "GET https://example.com:8443/admin HTTP/1.1" ++ CRLF
    ++ str "Host: example.com" ++ CRLF.
Proof.
  destruct (absoluteURI_target_is_buildUrl (str "example.com")) as [H _];
    [discriminate |].
  rewrite (H 8443 (str "/admin") https); [reflexivity | discriminate | discriminate].
Defined.

(** ** The frame layer: sequences of frames *)

Lemma in_range_shift (pre post : Buffer) (i n : Z) :
  0 <= i -> in_range (pre ++ post) (len pre + i) n = in_range post i n.
Proof.
  intros Hi. unfold in_range. rewrite len_app. pose proof (len_nonneg pre).
  destruct (0 <=? i) eqn:E1; [| lia].
  destruct (0 <=? len pre + i) eqn:E2; [| lia]. cbn [andb].
  destruct (i + n <=? len post) eqn:E3;
    destruct (len pre + i + n <=? len pre + len post) eqn:E4; lia || reflexivity.
Qed.

Lemma readUInt8_shift (pre post : Buffer) (i : Z) :
  0 <= i -> readUInt8 (pre ++ post) (len pre + i) = readUInt8 post i.
Proof.
  intros Hi. unfold readUInt8.
  now rewrite in_range_shift, byte_at_app_r by lia.
Qed.

Lemma readUInt16BE_shift (pre post : Buffer) (i : Z) :
  0 <= i -> readUInt16BE (pre ++ post) (len pre + i) = readUInt16BE post i.
Proof.
  intros Hi. unfold readUInt16BE.
  rewrite in_range_shift, <- !Z.add_assoc, !byte_at_app_r by lia. reflexivity.
Qed.

Lemma readUInt24BE_shift (pre post : Buffer) (i : Z) :
  0 <= i -> readUInt24BE (pre ++ post) (len pre + i) = readUInt24BE post i.
Proof.
  intros Hi. unfold readUInt24BE.
  rewrite in_range_shift, <- !Z.add_assoc, !byte_at_app_r by lia. reflexivity.
Qed.

Lemma readUInt32BE_shift (pre post : Buffer) (i : Z) :
  0 <= i -> readUInt32BE (pre ++ post) (len pre + i) = readUInt32BE post i.
Proof.
  intros Hi. unfold readUInt32BE.
  rewrite in_range_shift, <- !Z.add_assoc, !byte_at_app_r by lia. reflexivity.
Qed.

Lemma subarray_shift (pre post : Buffer) (a b : Z) :
  0 <= a -> 0 <= b ->
  subarray (pre ++ post) (len pre + a) (len pre + b) = subarray post a b.
Proof.
  intros Ha Hb. unfold subarray, rel_index. rewrite len_app.
  pose proof (len_nonneg pre). pose proof (len_nonneg post).
  destruct (len pre + a <? 0) eqn:E1; [lia |].
  destruct (len pre + b <? 0) eqn:E2; [lia |].
  destruct (a <? 0) eqn:E3; [lia |]. destruct (b <? 0) eqn:E4; [lia |].
  replace (Z.to_nat (Z.min (len pre + a) (len pre + len post)))
    with (Z.to_nat (Z.min a (len post)) + length pre)%nat by (unfold len in *; lia).
  rewrite <- skipn_skipn, skipn_app, skipn_all, Nat.sub_diag. cbn [app skipn].
  f_equal. lia.
Qed.

(** Reading a frame at an offset is reading it at the start of what
    follows the offset. *)
Lemma parseFrame_shift (pre buffer : Buffer) (o : Z) :
  0 <= o ->
  (forall length, readUInt24BE buffer o = Returns length -> 0 <= length) ->
  Http2FrameParser.parseFrame (pre ++ buffer) (len pre + o)
  = Http2FrameParser.parseFrame buffer o.
Proof.
  intros Ho Hlen. unfold Http2FrameParser.parseFrame.
  rewrite len_app.
  replace (len pre + len buffer - (len pre + o)) with (len buffer - o) by lia.
  destruct (len buffer - o <? 9); [reflexivity |].
  rewrite readUInt24BE_shift by lia.
  destruct (readUInt24BE buffer o) as [length |]; [| reflexivity]. cbn [bind].
  specialize (Hlen length eq_refl).
  rewrite <- !Z.add_assoc, readUInt8_shift by lia.
  destruct (readUInt8 buffer (o + 3)) as [type |]; [| reflexivity]. cbn [bind].
  rewrite readUInt8_shift by lia.
  destruct (readUInt8 buffer (o + 4)) as [flags |]; [| reflexivity]. cbn [bind].
  rewrite readUInt32BE_shift by lia.
  destruct (readUInt32BE buffer (o + 5)) as [word |]; [| reflexivity]. cbn [bind].
  replace (len pre + len buffer - (len pre + o)) with (len buffer - o) by lia.
  destruct (len buffer - o <? 9 + length) eqn:E; [reflexivity |].
  apply Z.ltb_ge in E. pose proof (len_nonneg buffer).
  replace (len pre + (o + (9 + length))) with (len pre + (o + 9 + length)) by lia.
  rewrite subarray_shift by lia. rewrite !Z.add_assoc. reflexivity.
Qed.

Ltac nat_consts :=
  repeat match goal with
         | |- context [Z.to_nat ?e] =>
             let n := eval vm_compute in (Z.to_nat e) in
             progress change (Z.to_nat e) with n
         end.

(** A frame that was built is read back from the start of a buffer,
    whatever follows it. *)
Lemma parseFrame_built (f : Http2Frame.t) (bytes post : Buffer) :
  wire_frame f -> frame_bytes f = Returns bytes ->
  len bytes = 9 + len (Http2Frame.payload f)
  /\ readUInt24BE (bytes ++ post) 0 = Returns (len (Http2Frame.payload f))
  /\ Http2FrameParser.parseFrame (bytes ++ post) 0
     = Returns (Some (f, 9 + len (Http2Frame.payload f))).
Proof.
  destruct f as [L T F S P]. unfold wire_frame, frame_bytes.
  cbn [Http2Frame.type Http2Frame.flags Http2Frame.streamId Http2Frame.length
       Http2Frame.payload].
  intros (HT & HF & HS & HL & HP) Hb. subst L.
  rewrite buildFrame_bytes in Hb by assumption.
  pose proof (len_nonneg P) as HP0. pose proof (len_nonneg post) as Hpost.
  set (hd := [len P / 65536; (len P / 256) mod 256; len P mod 256; T; F;
              S / 16777216; (S / 65536) mod 256; (S / 256) mod 256; S mod 256])
    in *.
  assert (Hbytes : bytes = hd ++ P) by congruence. clear Hb. subst bytes.
  assert (Hhd : len hd = 9) by reflexivity.
  assert (HLen : len P / 65536 * 65536 + (len P / 256) mod 256 * 256 + len P mod 256
                 = len P) by (clear; Z.div_mod_to_equations; lia).
  assert (HS' : S / 16777216 * 16777216 + (S / 65536) mod 256 * 65536
                + (S / 256) mod 256 * 256 + S mod 256 = S)
    by (clear; Z.div_mod_to_equations; lia).
  assert (Hbyte : forall k, 0 <= k < 9 ->
             byte_at ((hd ++ P) ++ post) k = nth (Z.to_nat k) hd 0).
  { intros k Hk. rewrite <- app_assoc. apply byte_at_app_l. lia. }
  assert (H24 : readUInt24BE ((hd ++ P) ++ post) 0 = Returns (len P)).
  { unfold readUInt24BE, in_range. rewrite !len_app, Hhd. decide_cond.
    rewrite !Hbyte by lia. nat_consts. cbn [nth hd].
    now rewrite HLen. }
  split; [rewrite len_app; lia |]. split; [exact H24 |].
  unfold Http2FrameParser.parseFrame. rewrite H24. cbn [bind].
  rewrite !len_app, Hhd.
  unfold readUInt8, readUInt32BE, in_range. rewrite !len_app, Hhd. decide_cond.
  cbn [bind].
  rewrite !Hbyte by lia.
  nat_consts. cbn [nth hd].
  rewrite HS', band_mask31 by assumption.
  replace (0 + 9) with (len hd) by (rewrite Hhd; reflexivity).
  rewrite <- app_assoc, subarray_app_mid. reflexivity.
Qed.

Lemma is_bytes_byte_at (b : Buffer) (i : Z) :
  is_bytes b -> 0 <= byte_at b i < 256.
Proof.
  intros Hb. unfold byte_at.
  destruct ((i <? 0) || (len b <=? i)) eqn:E; [lia |].
  bool_to_prop E. unfold is_bytes in Hb. rewrite forallb_forall in Hb.
  assert (Hin : In (nth (Z.to_nat i) b 0) b)
    by (apply nth_In; unfold len in E; lia).
  specialize (Hb _ Hin). bool_to_prop Hb. exact Hb.
Qed.

Lemma readUInt24BE_nonneg (b : Buffer) (o length : Z) :
  is_bytes b -> readUInt24BE b o = Returns length -> 0 <= length < 2 ^ 24.
Proof.
  intros Hb. unfold readUInt24BE. destruct (in_range b o 3); [| discriminate].
  intros [= <-].
  pose proof (is_bytes_byte_at b o Hb). pose proof (is_bytes_byte_at b (o + 1) Hb).
  pose proof (is_bytes_byte_at b (o + 2) Hb). lia.
Qed.

Lemma parseAllFrames_loop_built (fs : list Http2Frame.t) :
  forall (bs : list Buffer) (tail pre : Buffer) (acc : list Http2Frame.t)
         (fuel : nat),
    Forall wire_frame fs ->
    Forall2 (fun f b => frame_bytes f = Returns b) fs bs ->
    Http2FrameParser.parseFrame tail 0 = Returns None ->
    (forall length, readUInt24BE tail 0 = Returns length -> 0 <= length) ->
    (length fs < fuel)%nat ->
    Http2FrameParser.parseAllFrames_loop fuel (pre ++ concat bs ++ tail)
                                         (len pre) acc
    = Returns (Some (acc ++ fs)).
Proof.
  induction fs as [| f fs IH]; intros bs tail pre acc fuel Hw Hb Htail Hpos Hfuel.
  - inversion Hb; subst. cbn [concat app]. rewrite app_nil_r.
    destruct fuel as [| fuel]; [lia |].
    cbn [Http2FrameParser.parseAllFrames_loop].
    destruct (len pre <? len (pre ++ tail)); [| reflexivity].
    pose proof (parseFrame_shift pre tail 0 ltac:(lia) Hpos) as Hs.
    rewrite Z.add_0_r in Hs. rewrite Hs, Htail. reflexivity.
  - inversion Hb as [| ? b ? bs' Hfb Hbs]; subst.
    inversion Hw as [| ? ? Hwf Hws]; subst.
    destruct fuel as [| fuel]; [lia |]. cbn [length] in Hfuel.
    cbn [concat Http2FrameParser.parseAllFrames_loop].
    destruct (parseFrame_built f b (concat bs' ++ tail) Hwf Hfb)
      as (Hlen & H24 & Hparse).
    pose proof (len_nonneg (Http2Frame.payload f)) as HP.
    rewrite <- app_assoc.
    pose proof (parseFrame_shift pre (b ++ concat bs' ++ tail) 0 ltac:(lia)) as Hs.
    rewrite Z.add_0_r in Hs. rewrite Hs, Hparse; clear Hs.
    + rewrite !len_app, Hlen.
      pose proof (len_nonneg (concat bs')). pose proof (len_nonneg tail).
      destruct (len pre <? len pre + (9 + len (Http2Frame.payload f)
                                     + (len (concat bs') + len tail))) eqn:E;
        [| lia].
      cbn [bind].
      replace (len pre + (9 + len (Http2Frame.payload f))) with (len (pre ++ b))
        by (rewrite len_app; lia).
      rewrite app_assoc, (IH bs' tail (pre ++ b) (acc ++ [f]) fuel);
        try assumption; [| lia].
      now rewrite <- app_assoc.
    + intros length Hl. rewrite H24 in Hl. injection Hl as <-. exact HP.
Qed.

(** X10.  A sequence of frames that were built one by one and put together
    is read back by [parseAllFrames] frame by frame, in order, also when
    bytes that hold no whole frame follow the last one; these are dropped. *)
Theorem parseAllFrames_roundtrip (fs : list Http2Frame.t) (bs : list Buffer)
    (tail : Buffer) (fuel : nat) :
  Forall wire_frame fs ->
  Forall2 (fun f b => frame_bytes f = Returns b) fs bs ->
  is_bytes tail ->
  Http2FrameParser.parseFrame tail 0 = Returns None ->
  (length fs < fuel)%nat ->
  Http2FrameParser.parseAllFrames fuel (concat bs ++ tail) = Returns (Some fs).
Proof.
  intros Hw Hb Hbytes Htail Hfuel. unfold Http2FrameParser.parseAllFrames.
  apply (parseAllFrames_loop_built fs bs tail [] [] fuel); try assumption.
  intros length Hl. apply (readUInt24BE_nonneg tail 0 length Hbytes Hl).
Qed.

Lemma parseAllFrames_roundtrip_witness :
  let ack := {| Http2Frame.length := 0; Http2Frame.type := 4;
                Http2Frame.flags := 1; Http2Frame.streamId := 0;
                Http2Frame.payload := [] |} in
  let data := {| Http2Frame.length := 2; Http2Frame.type := 0;
                 Http2Frame.flags := 1; Http2Frame.streamId := 1;
                 Http2Frame.payload := [104; 105] |} in
  Http2FrameParser.parseAllFrames 3
    (concat [[0; 0; 0; 4; 1; 0; 0; 0; 0]; [0; 0; 2; 0; 1; 0; 0; 0; 1; 104; 105]]
     ++ [0; 0; 5; 0; 0])
  = Returns (Some [ack; data]).
Proof.
  cbv zeta.
  apply (parseAllFrames_roundtrip
           [{| Http2Frame.length := 0; Http2Frame.type := 4;
               Http2Frame.flags := 1; Http2Frame.streamId := 0;
               Http2Frame.payload := [] |};
            {| Http2Frame.length := 2; Http2Frame.type := 0;
               Http2Frame.flags := 1; Http2Frame.streamId := 1;
               Http2Frame.payload := [104; 105] |}]
           [[0; 0; 0; 4; 1; 0; 0; 0; 0]; [0; 0; 2; 0; 1; 0; 0; 0; 1; 104; 105]]
           [0; 0; 5; 0; 0] 3).
  - repeat constructor; cbn; lia.
  - repeat constructor.
  - reflexivity.
  - reflexivity.
  - cbn. lia.
Defined.

Lemma parseAllFrames_loop_total (buffer : Buffer) :
  is_bytes buffer ->
  forall (n : nat) (offset : Z) (acc : list Http2Frame.t),
    0 <= offset -> len buffer - offset < Z.of_nat n ->
    exists frames,
      Http2FrameParser.parseAllFrames_loop n buffer offset acc
      = Returns (Some frames).
Proof.
  intros Hb. induction n as [| n IH]; intros offset acc Ho Hn.
  - exists acc. cbn [Http2FrameParser.parseAllFrames_loop].
    destruct (offset <? len buffer) eqn:E; [apply Z.ltb_lt in E; lia | reflexivity].
  - cbn [Http2FrameParser.parseAllFrames_loop].
    destruct (offset <? len buffer) eqn:E; [| now exists acc].
    unfold Http2FrameParser.parseFrame.
    destruct (len buffer - offset <? 9) eqn:E9; [now exists acc |].
    apply Z.ltb_ge in E9.
    destruct (readUInt24BE buffer offset) as [length |] eqn:E24.
    2:{ unfold readUInt24BE, in_range in E24. revert E24. decide_cond. discriminate. }
    apply (readUInt24BE_nonneg buffer offset length Hb) in E24 as Hlen.
    unfold readUInt8, readUInt32BE, in_range. decide_cond. cbn [bind].
    destruct (len buffer - offset <? 9 + length) eqn:EL; [now exists acc |].
    apply Z.ltb_ge in EL. apply IH; lia.
Qed.

(** X11.  On every buffer of bytes [parseAllFrames] returns a list of
    frames: the loop ends within as many turns as the buffer has bytes
    (plus one), and no read leaves the buffer. *)
Theorem parseAllFrames_total (buffer : Buffer) :
  is_bytes buffer ->
  exists frames,
    Http2FrameParser.parseAllFrames (S (length buffer)) buffer
    = Returns (Some frames).
Proof.
  intros Hb. apply parseAllFrames_loop_total; [exact Hb | lia |].
  unfold len. lia.
Qed.

Lemma parseAllFrames_total_witness :
  exists frames,
    Http2FrameParser.parseAllFrames (S (length [0; 0; 1; 9; 9; 255; 0; 0; 0; 7; 3]))
      [0; 0; 1; 9; 9; 255; 0; 0; 0; 7; 3]
    = Returns (Some frames).
Proof.
  apply (parseAllFrames_total [0; 0; 1; 9; 9; 255; 0; 0; 0; 7; 3]). reflexivity.
Defined.

(** ** The frame layer: SETTINGS *)

Lemma NumMap_set_fresh (m : NumMap) (k v : Z) :
  ~ In k (map fst m) -> NumMap_set m k v = m ++ [(k, v)].
Proof.
  induction m as [| [k' v'] m IH]; intros H; [reflexivity |].
  cbn [NumMap_set]. cbn [map fst In] in H.
  destruct (k =? k') eqn:E; [apply Z.eqb_eq in E; subst; tauto |].
  cbn [app]. f_equal. apply IH. tauto.
Qed.

Lemma readUInt16BE_cons (a b : Z) (rest : Buffer) :
  readUInt16BE (a :: b :: rest) 0 = Returns (a * 256 + b).
Proof.
  unfold readUInt16BE, in_range, byte_at. rewrite !len_cons.
  pose proof (len_nonneg rest). decide_cond. reflexivity.
Qed.

Lemma readUInt32BE_cons (a b c d : Z) (rest : Buffer) :
  readUInt32BE (a :: b :: c :: d :: rest) 0
  = Returns (a * 16777216 + b * 65536 + c * 256 + d).
Proof.
  unfold readUInt32BE, in_range, byte_at. rewrite !len_cons.
  pose proof (len_nonneg rest). decide_cond. reflexivity.
Qed.

Lemma readUInt16BE_at (pre mid : Buffer) (k a b : Z) (rest : Buffer) :
  len mid = k ->
  readUInt16BE (pre ++ mid ++ a :: b :: rest) (len pre + k)
  = Returns (a * 256 + b).
Proof.
  intros <-. pose proof (len_nonneg mid).
  rewrite readUInt16BE_shift by lia.
  pose proof (readUInt16BE_shift mid (a :: b :: rest) 0 ltac:(lia)) as H16.
  rewrite Z.add_0_r in H16. rewrite H16. apply readUInt16BE_cons.
Qed.

Lemma readUInt32BE_at (pre mid : Buffer) (k a b c d : Z) (rest : Buffer) :
  len mid = k ->
  readUInt32BE (pre ++ mid ++ a :: b :: c :: d :: rest) (len pre + k)
  = Returns (a * 16777216 + b * 65536 + c * 256 + d).
Proof.
  intros <-. pose proof (len_nonneg mid).
  rewrite readUInt32BE_shift by lia.
  pose proof (readUInt32BE_shift mid (a :: b :: c :: d :: rest) 0 ltac:(lia)) as H32.
  rewrite Z.add_0_r in H32. rewrite H32. apply readUInt32BE_cons.
Qed.

Lemma readUInt8_at (pre mid : Buffer) (k a : Z) (rest : Buffer) :
  len mid = k ->
  readUInt8 (pre ++ mid ++ a :: rest) (len pre + k) = Returns a.
Proof.
  intros <-. pose proof (len_nonneg mid).
  rewrite readUInt8_shift by lia.
  pose proof (readUInt8_shift mid (a :: rest) 0 ltac:(lia)) as H8.
  rewrite Z.add_0_r in H8. rewrite H8.
  unfold readUInt8, in_range, byte_at. rewrite !len_cons.
  pose proof (len_nonneg rest). decide_cond. reflexivity.
Qed.

(** The six bytes of a setting. *)
Lemma settings_payload_bytes (settings : NumMap) :
  Forall (fun e => 0 <= fst e < 65536 /\ 0 <= snd e < 4294967296) settings ->
  Http2FrameBuilder.settings_payload settings
  = Returns (flat_map (fun e => [fst e / 256; fst e mod 256;
                                 snd e / 16777216; (snd e / 65536) mod 256;
                                 (snd e / 256) mod 256; snd e mod 256])
                      settings).
Proof.
  induction settings as [| [id value] rest IH]; intros H; [reflexivity |].
  inversion H as [| ? ? [Hid Hv] Hrest]; subst. cbn [fst snd] in *.
  cbn [Http2FrameBuilder.settings_payload flat_map fst snd].
  unfold uint16_bytes, uint32_bytes. decide_cond. cbn [bind].
  rewrite (IH Hrest). reflexivity.
Qed.

Lemma parseSettingsPayload_loop_built (rest : NumMap) :
  forall (pre : Buffer) (acc : NumMap),
    Forall (fun e => 0 <= fst e < 65536 /\ 0 <= snd e < 4294967296) rest ->
    NoDup (map fst rest) ->
    (forall e, In e rest -> ~ In (fst e) (map fst acc)) ->
    Http2FrameParser.parseSettingsPayload_loop (length rest)
      (pre ++ flat_map (fun e => [fst e / 256; fst e mod 256;
                                  snd e / 16777216; (snd e / 65536) mod 256;
                                  (snd e / 256) mod 256; snd e mod 256]) rest)
      (len pre) acc
    = Returns (acc ++ rest).
Proof.
  induction rest as [| [id value] rest IH]; intros pre acc Hok Hnd Hfresh.
  - cbn [length Http2FrameParser.parseSettingsPayload_loop]. now rewrite app_nil_r.
  - inversion Hok as [| ? ? [Hid Hv] Hrest]; subst. cbn [fst snd] in *.
    inversion Hnd as [| ? ? Hnotin Hnd']; subst.
    cbn [length Http2FrameParser.parseSettingsPayload_loop flat_map fst snd app].
    set (tailb := flat_map _ rest).
    assert (E16 : readUInt16BE
                    (pre ++ id / 256 :: id mod 256 :: value / 16777216
                     :: (value / 65536) mod 256 :: (value / 256) mod 256
                     :: value mod 256 :: tailb) (len pre)
                  = Returns id).
    { pose proof (readUInt16BE_at pre [] 0 (id / 256) (id mod 256)
                    (value / 16777216 :: (value / 65536) mod 256
                     :: (value / 256) mod 256 :: value mod 256 :: tailb)
                    eq_refl) as E.
      rewrite Z.add_0_r in E. cbn [app] in E. rewrite E. f_equal.
      clear; Z.div_mod_to_equations; lia. }
    assert (E32 : readUInt32BE
                    (pre ++ id / 256 :: id mod 256 :: value / 16777216
                     :: (value / 65536) mod 256 :: (value / 256) mod 256
                     :: value mod 256 :: tailb) (len pre + 2)
                  = Returns value).
    { pose proof (readUInt32BE_at pre [id / 256; id mod 256] 2
                    (value / 16777216) ((value / 65536) mod 256)
                    ((value / 256) mod 256) (value mod 256) tailb eq_refl) as E.
      cbn [app] in E. rewrite E. f_equal.
      clear; Z.div_mod_to_equations; lia. }
    rewrite E16. cbn [bind]. rewrite E32. cbn [bind].
    rewrite NumMap_set_fresh by (apply (Hfresh (id, value)); now left).
    change (pre ++ ?a :: ?b :: ?c :: ?d :: ?e :: ?f :: tailb)
      with (pre ++ [a; b; c; d; e; f] ++ tailb).
    rewrite app_assoc.
    replace (len pre + 6)
      with (len (pre ++ [id / 256; id mod 256; value / 16777216;
                         (value / 65536) mod 256; (value / 256) mod 256;
                         value mod 256]))
      by (rewrite len_app; cbn; lia).
    subst tailb.
    rewrite IH; try assumption.
    + now rewrite <- app_assoc.
    + intros e Hin Hbad. rewrite map_app, in_app_iff in Hbad.
      destruct Hbad as [Hbad | [Hbad | []]].
      * apply (Hfresh e (or_intror Hin)). exact Hbad.
      * cbn [fst] in Hbad. apply Hnotin. rewrite Hbad. apply in_map. exact Hin.
Qed.

Lemma settings_bytes_len (settings : NumMap) :
  len (flat_map (fun e : Z * Z => [fst e / 256; fst e mod 256;
                                   snd e / 16777216; (snd e / 65536) mod 256;
                                   (snd e / 256) mod 256; snd e mod 256])
                settings)
  = 6 * len settings.
Proof.
  induction settings as [| e rest IH]; [reflexivity |].
  cbn [flat_map]. rewrite len_app, IH, (len_cons e rest).
  change (len [fst e / 256; fst e mod 256; snd e / 16777216;
               (snd e / 65536) mod 256; (snd e / 256) mod 256; snd e mod 256])
    with 6.
  lia.
Qed.

(** X12.  A SETTINGS frame built from a map of settings, with identifiers
    below 2^16 and values below 2^32, parses back to a frame of type
    SETTINGS on stream 0 whose payload [parseSettingsPayload] reads as the
    same map, in order.  With [ack] the frame is the nine-byte
    acknowledgement, whatever the map holds. *)
Theorem settings_frame_roundtrip :
  (forall settings : NumMap,
      NoDup (map fst settings) ->
      Forall (fun e => 0 <= fst e < 65536 /\ 0 <= snd e < 4294967296) settings ->
      6 * len settings < 2 ^ 24 ->
      exists bytes frame,
        Http2FrameBuilder.buildSettingsFrame settings false = Returns bytes
        /\ Http2FrameParser.parseFrame bytes 0
           = Returns (Some (frame, 9 + 6 * len settings))
        /\ Http2Frame.type frame = Http2FrameType.SETTINGS
        /\ Http2Frame.flags frame = 0
        /\ Http2Frame.streamId frame = 0
        /\ Http2FrameParser.parseSettingsPayload frame = Returns settings)
  /\ (forall settings : NumMap,
        Http2FrameBuilder.buildSettingsFrame settings true
        = Returns [0; 0; 0; 4; 1; 0; 0; 0; 0]).
Proof.
  split; [| reflexivity].
  intros settings Hnd Hok Hsize.
  set (P := flat_map (fun e : Z * Z => [fst e / 256; fst e mod 256;
                                        snd e / 16777216; (snd e / 65536) mod 256;
                                        (snd e / 256) mod 256; snd e mod 256])
                     settings).
  assert (HP : len P = 6 * len settings) by apply settings_bytes_len.
  set (f := {| Http2Frame.length := len P; Http2Frame.type := 4;
               Http2Frame.flags := 0; Http2Frame.streamId := 0;
               Http2Frame.payload := P |}).
  assert (Hw : wire_frame f).
  { unfold wire_frame, f. cbn [Http2Frame.type Http2Frame.flags
      Http2Frame.streamId Http2Frame.length Http2Frame.payload].
    repeat split; try lia. }
  destruct (Http2FrameBuilder.buildFrame 4 0 0 P) as [bytes |] eqn:Eb.
  2:{ rewrite buildFrame_bytes in Eb by (try lia). discriminate. }
  destruct (parseFrame_built f bytes [] Hw Eb) as (_ & _ & Hparse).
  rewrite app_nil_r in Hparse.
  exists bytes, f. split; [| split; [| split; [| split; [| split]]]];
    try reflexivity.
  - unfold Http2FrameBuilder.buildSettingsFrame.
    rewrite settings_payload_bytes by exact Hok. exact Eb.
  - rewrite Hparse. cbn [Http2Frame.payload f]. now rewrite HP.
  - unfold Http2FrameParser.parseSettingsPayload. cbn [Http2Frame.payload f].
    rewrite HP.
    replace (Z.to_nat ((6 * len settings + 5) / 6)) with (length settings).
    + apply (parseSettingsPayload_loop_built settings [] []); try assumption.
      intros e _ [].
    + unfold len. pose proof (Nat2Z.is_nonneg (length settings)).
      replace ((6 * Z.of_nat (length settings) + 5) / 6)
        with (Z.of_nat (length settings))
        by (Z.div_mod_to_equations; lia).
      lia.
Qed.

Lemma settings_frame_roundtrip_witness :
  exists bytes frame,
    Http2FrameBuilder.buildSettingsFrame [(3, 100); (4, 65535)] false
    = Returns bytes
    /\ Http2FrameParser.parseFrame bytes 0
       = Returns (Some (frame, 9 + 6 * len [(3, 100); (4, 65535)]))
    /\ Http2Frame.type frame = Http2FrameType.SETTINGS
    /\ Http2Frame.flags frame = 0
    /\ Http2Frame.streamId frame = 0
    /\ Http2FrameParser.parseSettingsPayload frame
       = Returns [(3, 100); (4, 65535)].
Proof.
  apply (proj1 settings_frame_roundtrip [(3, 100); (4, 65535)]).
  - repeat constructor; cbn; intuition discriminate.
  - repeat constructor; cbn; lia.
  - cbn. lia.
Defined.

Lemma parseSettingsPayload_loop_outcome (payload : Buffer) :
  forall (n : nat) (i : Z) (acc : NumMap),
    0 <= i <= len payload ->
    n = Z.to_nat ((len payload - i + 5) / 6) ->
    if (len payload - i) mod 6 =? 0
    then exists settings,
        Http2FrameParser.parseSettingsPayload_loop n payload i acc
        = Returns settings
    else Http2FrameParser.parseSettingsPayload_loop n payload i acc = Throws.
Proof.
  induction n as [| n IH]; intros i acc Hi Hn.
  - assert (len payload - i = 0) by (Z.div_mod_to_equations; lia).
    replace (len payload - i) with 0 by lia. cbn. now exists acc.
  - cbn [Http2FrameParser.parseSettingsPayload_loop].
    assert (Hpos : 0 < len payload - i).
    { destruct (Z.eq_dec (len payload - i) 0) as [E0 | E0]; [| lia].
      rewrite E0 in Hn. cbn in Hn. discriminate. }
    destruct (len payload - i <? 6) eqn:E6.
    + apply Z.ltb_lt in E6.
      replace ((len payload - i) mod 6 =? 0) with false
        by (symmetry; apply Z.eqb_neq; Z.div_mod_to_equations; lia).
      unfold readUInt16BE, readUInt32BE, in_range.
      destruct ((0 <=? i) && (i + 2 <=? len payload)); [| reflexivity].
      cbn [bind]. decide_cond. reflexivity.
    + apply Z.ltb_ge in E6.
      unfold readUInt16BE, readUInt32BE, in_range. decide_cond. cbn [bind].
      replace ((len payload - i) mod 6) with ((len payload - (i + 6)) mod 6)
        by (Z.div_mod_to_equations; lia).
      apply IH; [lia |].
      assert ((len payload - i + 5) / 6 = (len payload - (i + 6) + 5) / 6 + 1)
        by (Z.div_mod_to_equations; lia).
      assert (0 <= (len payload - (i + 6) + 5) / 6)
        by (Z.div_mod_to_equations; lia).
      lia.
Qed.

(** X13.  [parseSettingsPayload] throws exactly when the length of the
    payload is not a multiple of six: the last, incomplete entry is read
    past the end of the buffer. *)
Theorem parseSettingsPayload_throws (frame : Http2Frame.t) :
  Http2FrameParser.parseSettingsPayload frame = Throws
  <-> len (Http2Frame.payload frame) mod 6 <> 0.
Proof.
  unfold Http2FrameParser.parseSettingsPayload.
  pose proof (len_nonneg (Http2Frame.payload frame)) as Hlen.
  pose proof (parseSettingsPayload_loop_outcome (Http2Frame.payload frame)
                _ 0 [] ltac:(lia) eq_refl) as H.
  rewrite Z.sub_0_r in H.
  destruct (len (Http2Frame.payload frame) mod 6 =? 0) eqn:E.
  - apply Z.eqb_eq in E. destruct H as [settings ->].
    split; [discriminate | lia].
  - apply Z.eqb_neq in E. rewrite H. tauto.
Qed.

(** ** The frame layer: PRIORITY, WINDOW_UPDATE, PING and DATA *)

Ltac frame_fields :=
  unfold Http2FrameType.PRIORITY, Http2FrameType.RST_STREAM,
    Http2FrameType.SETTINGS, Http2FrameType.PING, Http2FrameType.GOAWAY,
    Http2FrameType.WINDOW_UPDATE, Http2Flags.ACK, DATA, HEADERS, len;
  cbn [app length]; lia.

Lemma bor_sign_bit (x : Z) : bor x 2147483648 < 0.
Proof.
  unfold bor. change (ToInt32 2147483648) with (-2147483648).
  apply Z.lor_neg. right. lia.
Qed.

(** X14.  [buildPriorityFrame] with [exclusive] set throws for every stream,
    dependency and weight: the dependency with the bit 0x80000000 set by the
    32-bit operator is a negative number, which [writeUInt32BE] refuses.
    Without [exclusive] the payload is the dependency in four bytes and the
    weight less one. *)
Theorem buildPriorityFrame_exclusive_throws :
  (forall streamId dependency weight : Z,
      Http2FrameBuilder.buildPriorityFrame streamId dependency weight true
      = Throws)
  /\ (forall streamId dependency weight : Z,
        0 <= streamId < 2 ^ 31 -> 0 <= dependency < 2 ^ 32 ->
        1 <= weight <= 256 ->
        Http2FrameBuilder.buildPriorityFrame streamId dependency weight false
        = Returns ([0; 0; 5; 2; 0;
                    streamId / 16777216; (streamId / 65536) mod 256;
                    (streamId / 256) mod 256; streamId mod 256;
                    dependency / 16777216; (dependency / 65536) mod 256;
                    (dependency / 256) mod 256; dependency mod 256;
                    weight - 1])).
Proof.
  split.
  - intros streamId dependency weight.
    unfold Http2FrameBuilder.buildPriorityFrame, uint32_bytes.
    pose proof (bor_sign_bit dependency). decide_cond. reflexivity.
  - intros streamId dependency weight Hs Hd Hw.
    unfold Http2FrameBuilder.buildPriorityFrame, uint32_bytes, uint8_bytes.
    decide_cond. cbn [bind].
    rewrite buildFrame_bytes by frame_fields. reflexivity.
Qed.

Lemma buildPriorityFrame_witness :
  Http2FrameBuilder.buildPriorityFrame 3 1 16 false
  = Returns [0; 0; 5; 2; 0; 0; 0; 0; 3; 0; 0; 0; 1; 15].
Proof.
  apply (proj2 buildPriorityFrame_exclusive_throws 3 1 16); lia.
Defined.

(** The mask of 31 bits keeps the number modulo 2^31, whatever its sign and
    size. *)
Lemma band_mask31_mod (x : Z) : band x 2147483647 = x mod 2 ^ 31.
Proof.
  unfold band. change (ToInt32 2147483647) with (Z.ones 31).
  rewrite Z.land_ones by lia. unfold ToInt32.
  clear. Z.div_mod_to_equations. lia.
Qed.

(** X15.  The reserved bit.  Whatever integer is given as the stream
    identifier, [buildFrame] writes it modulo 2^31, so the first bit of the
    stream field is 0 and the frame parses back with that identifier;
    [parseFrame] drops the first bit of the stream field it reads; and
    [buildWindowUpdateFrame] writes its increment modulo 2^31. *)
Theorem reserved_bit_is_masked :
  (forall (T F S : Z) (P : Buffer),
      0 <= T < 256 -> 0 <= F < 256 -> len P < 2 ^ 24 ->
      exists bytes,
        Http2FrameBuilder.buildFrame T F S P = Returns bytes
        /\ byte_at bytes 5 < 128
        /\ Http2FrameParser.parseFrame bytes 0
           = Returns (Some ({| Http2Frame.length := len P;
                               Http2Frame.type := T;
                               Http2Frame.flags := F;
                               Http2Frame.streamId := S mod 2 ^ 31;
                               Http2Frame.payload := P |}, 9 + len P)))
  /\ (forall (T F s1 s2 s3 s4 : Z),
        0 <= s1 < 256 -> 0 <= s2 < 256 -> 0 <= s3 < 256 -> 0 <= s4 < 256 ->
        Http2FrameParser.parseFrame [0; 0; 0; T; F; s1; s2; s3; s4] 0
        = Returns (Some ({| Http2Frame.length := 0;
                            Http2Frame.type := T;
                            Http2Frame.flags := F;
                            Http2Frame.streamId :=
                              (s1 mod 128) * 16777216 + s2 * 65536 + s3 * 256 + s4;
                            Http2Frame.payload := [] |}, 9)))
  /\ (forall streamId increment : Z,
        Http2FrameBuilder.buildWindowUpdateFrame streamId increment
        = let i := increment mod 2 ^ 31 in
          Http2FrameBuilder.buildFrame Http2FrameType.WINDOW_UPDATE 0 streamId
            [i / 16777216; (i / 65536) mod 256; (i / 256) mod 256; i mod 256]).
Proof.
  split; [| split].
  - intros T F S P HT HF HP.
    assert (HS : 0 <= S mod 2 ^ 31 < 2 ^ 31) by (apply Z.mod_pos_bound; lia).
    assert (Hb : Http2FrameBuilder.buildFrame T F S P
                 = Http2FrameBuilder.buildFrame T F (S mod 2 ^ 31) P).
    { unfold Http2FrameBuilder.buildFrame.
      now rewrite (band_mask31_mod S), (band_mask31 (S mod 2 ^ 31)) by exact HS. }
    set (f := {| Http2Frame.length := len P; Http2Frame.type := T;
                 Http2Frame.flags := F; Http2Frame.streamId := S mod 2 ^ 31;
                 Http2Frame.payload := P |}).
    assert (Hw : wire_frame f).
    { unfold wire_frame, f.
      cbn [Http2Frame.type Http2Frame.flags Http2Frame.streamId
           Http2Frame.length Http2Frame.payload].
      repeat split; lia. }
    pose proof (buildFrame_bytes T F (S mod 2 ^ 31) P HT HF HS HP) as Hbytes.
    eexists. split; [rewrite Hb; exact Hbytes |]. split.
    + unfold byte_at. rewrite len_app. pose proof (len_nonneg P).
      change (len [len P / 65536; (len P / 256) mod 256; len P mod 256; T; F;
                   S mod 2 ^ 31 / 16777216; (S mod 2 ^ 31 / 65536) mod 256;
                   (S mod 2 ^ 31 / 256) mod 256; (S mod 2 ^ 31) mod 256])
        with 9.
      decide_cond. nat_consts. cbn [app nth].
      clear - HS. Z.div_mod_to_equations. lia.
    + destruct (parseFrame_built f _ [] Hw Hbytes) as (_ & _ & Hparse).
      rewrite app_nil_r in Hparse. exact Hparse.
  - intros T F s1 s2 s3 s4 H1 H2 H3 H4.
    unfold Http2FrameParser.parseFrame, readUInt24BE, readUInt8, readUInt32BE,
      in_range, byte_at.
    change (len [0; 0; 0; T; F; s1; s2; s3; s4]) with 9.
    decide_cond. cbn [bind]. nat_consts. cbn [nth].
    replace (0 * 65536 + 0 * 256 + 0) with 0 by lia.
    decide_cond. rewrite band_mask31_mod.
    replace ((s1 * 16777216 + s2 * 65536 + s3 * 256 + s4) mod 2 ^ 31)
      with (s1 mod 128 * 16777216 + s2 * 65536 + s3 * 256 + s4)
      by (clear - H1 H2 H3 H4; Z.div_mod_to_equations; lia).
    reflexivity.
  - intros streamId increment. cbv zeta.
    unfold Http2FrameBuilder.buildWindowUpdateFrame, uint32_bytes.
    rewrite band_mask31_mod.
    assert (0 <= increment mod 2 ^ 31 < 2 ^ 31) by (apply Z.mod_pos_bound; lia).
    decide_cond. reflexivity.
Qed.

Lemma reserved_bit_is_masked_witness :
  exists bytes,
    Http2FrameBuilder.buildFrame 0 1 (2 ^ 31 + 5) [7] = Returns bytes
    /\ byte_at bytes 5 < 128
    /\ Http2FrameParser.parseFrame bytes 0
       = Returns (Some ({| Http2Frame.length := len [7];
                           Http2Frame.type := 0;
                           Http2Frame.flags := 1;
                           Http2Frame.streamId := (2 ^ 31 + 5) mod 2 ^ 31;
                           Http2Frame.payload := [7] |}, 9 + len [7])).
Proof.
  apply (proj1 reserved_bit_is_masked 0 1 (2 ^ 31 + 5) [7]); cbn; lia.
Defined.

(** X16.  The payload of a PING frame is eight bytes for every [data]: the
    first eight bytes of [data], or [data] followed by zero bytes when it is
    shorter.  The frame is on stream 0 and [buildPingFrame] never throws. *)
Theorem buildPingFrame_eight_bytes (data : Buffer) (ack : bool) :
  Http2FrameBuilder.buildPingFrame data ack
  = Returns ([0; 0; 8; 6; if ack then 1 else 0; 0; 0; 0; 0]
             ++ firstn 8 (data ++ repeat 0 8)).
Proof.
  unfold Http2FrameBuilder.buildPingFrame, Buffer_alloc.
  assert (E : firstn (Z.to_nat (Z.min 8 (len data))) data
              ++ repeat 0 (Z.to_nat (8 - Z.min 8 (len data)))
              = firstn 8 (data ++ repeat 0 8)).
  { destruct data as [| a0 [| a1 [| a2 [| a3 [| a4 [| a5 [| a6 [| a7 rest]]]]]]]];
      try reflexivity.
    pose proof (len_nonneg rest). rewrite !len_cons.
    rewrite Z.min_l by lia. reflexivity. }
  rewrite E.
  assert (Hlen : len (firstn 8 (data ++ repeat 0 8)) = 8).
  { unfold len. rewrite firstn_length_le; [reflexivity |].
    rewrite length_app, repeat_length. lia. }
  rewrite buildFrame_bytes; rewrite ?Hlen; try frame_fields.
  - destruct ack; reflexivity.
  - destruct ack; frame_fields.
Qed.

(** X17.  A DATA frame with a pad length from 1 to 255 carries the flag
    PADDED and the payload: pad length, data, that many zero bytes.  A pad
    length above 255 throws, and one that is 0 or negative is ignored. *)
Theorem buildDataFrame_padding (streamId : Z) (data : Buffer) (endStream : bool) :
  0 <= streamId < 2 ^ 31 ->
  (forall p : Z,
      0 < p <= 255 -> 1 + len data + p < 2 ^ 24 ->
      exists bytes,
        Http2FrameBuilder.buildDataFrame streamId data endStream (Some p)
        = Returns bytes
        /\ Http2FrameParser.parseFrame bytes 0
           = Returns (Some ({| Http2Frame.length := 1 + len data + p;
                               Http2Frame.type := DATA;
                               Http2Frame.flags :=
                                 (if endStream then END_STREAM else 0) + PADDED;
                               Http2Frame.streamId := streamId;
                               Http2Frame.payload :=
                                 [p] ++ data ++ repeat 0 (Z.to_nat p) |},
                            9 + (1 + len data + p))))
  /\ (forall p : Z,
        255 < p ->
        Http2FrameBuilder.buildDataFrame streamId data endStream (Some p) = Throws)
  /\ (forall p : Z,
        p <= 0 ->
        Http2FrameBuilder.buildDataFrame streamId data endStream (Some p)
        = Http2FrameBuilder.buildDataFrame streamId data endStream None).
Proof.
  intros Hs. split; [| split].
  - intros p Hp Hsize. unfold Http2FrameBuilder.buildDataFrame, uint8_bytes.
    decide_cond. cbn [bind]. unfold Buffer_alloc.
    set (P := [p] ++ data ++ repeat 0 (Z.to_nat p)).
    assert (HP : len P = 1 + len data + p).
    { unfold P. rewrite !len_app, len_one. unfold len at 2.
      rewrite repeat_length. lia. }
    replace (bor (if endStream then bor 0 END_STREAM else 0) PADDED)
      with ((if endStream then END_STREAM else 0) + PADDED)
      by (destruct endStream; reflexivity).
    set (f := {| Http2Frame.length := 1 + len data + p;
                 Http2Frame.type := DATA;
                 Http2Frame.flags := (if endStream then END_STREAM else 0) + PADDED;
                 Http2Frame.streamId := streamId;
                 Http2Frame.payload := P |}).
    assert (Hw : wire_frame f).
    { unfold wire_frame, f.
      cbn [Http2Frame.type Http2Frame.flags Http2Frame.streamId
           Http2Frame.length Http2Frame.payload].
      pose proof (len_nonneg data).
      repeat split; try lia; try (destruct endStream; frame_fields);
        unfold DATA, END_STREAM, PADDED; destruct endStream; lia. }
    destruct (Http2FrameBuilder.buildFrame DATA
                ((if endStream then END_STREAM else 0) + PADDED) streamId P)
      as [bytes |] eqn:Eb.
    2:{ rewrite buildFrame_bytes in Eb; try discriminate; try lia;
          unfold DATA, END_STREAM, PADDED; destruct endStream; lia. }
    exists bytes. split; [reflexivity |].
    destruct (parseFrame_built f bytes [] Hw Eb) as (_ & _ & Hparse).
    rewrite app_nil_r in Hparse. rewrite Hparse.
    cbn [Http2Frame.payload f]. now rewrite HP.
  - intros p Hp. unfold Http2FrameBuilder.buildDataFrame, uint8_bytes.
    decide_cond. reflexivity.
  - intros p Hp. unfold Http2FrameBuilder.buildDataFrame. decide_cond.
    reflexivity.
Qed.

Lemma buildDataFrame_padding_witness :
  exists bytes,
    Http2FrameBuilder.buildDataFrame 1 [104; 105] true (Some 3) = Returns bytes
    /\ Http2FrameParser.parseFrame bytes 0
       = Returns (Some ({| Http2Frame.length := 1 + len [104; 105] + 3;
                           Http2Frame.type := DATA;
                           Http2Frame.flags := (if true then END_STREAM else 0) + PADDED;
                           Http2Frame.streamId := 1;
                           Http2Frame.payload :=
                             [3] ++ [104; 105] ++ repeat 0 (Z.to_nat 3) |},
                        9 + (1 + len [104; 105] + 3))).
Proof.
  destruct (buildDataFrame_padding 1 [104; 105] true) as [H _]; [lia |].
  apply (H 3); cbn; lia.
Defined.

(** ** The frame layer: HEADERS *)

(** What [encodeHeaders] writes is read back, from any dynamic table. *)
Lemma encodeHeaders_decoded (H : Map jsstring) (fuel : nat) (dyn : Http2.table) :
  NoDup (map fst H) -> Forall hpack_header_ok H -> (length H <= fuel)%nat ->
  exists dyn',
    HpackDecoder.decodeHeaders fuel dyn (HpackEncoder.encodeHeaders H)
    = Some (H, dyn').
Proof.
  intros Hnd Hok Hfuel. rewrite Forall_forall in Hok.
  unfold HpackDecoder.decodeHeaders, HpackEncoder.encodeHeaders.
  destruct (decodeHeaders_loop_fields HpackEncoder.encodeHeader H) with
    (fuel := fuel) (dyn := dyn) (pre := @nil Z) (acc := @nil (jsstring * jsstring))
    as [dyn' Hd]; try assumption.
  - intros d p q a h Hin. apply decodeField_encodeHeader, Hok, Hin.
  - intros h _ [].
  - exists dyn'. exact Hd.
Qed.

(** The test of the first bit of a 32-bit field. *)
Lemma band_bit31 (x : Z) :
  0 <= x < 2 ^ 32 -> (band x 2147483648 =? 0) = (x <? 2 ^ 31).
Proof.
  intros Hx. unfold band. change (ToInt32 2147483648) with (Z.lnot (Z.ones 31)).
  rewrite <- Z.ldiff_land, Z.ldiff_ones_r by lia.
  rewrite Z.shiftr_div_pow2, Z.shiftl_mul_pow2 by lia. unfold ToInt32.
  destruct (x <? 2 ^ 31) eqn:E; [apply Z.ltb_lt in E | apply Z.ltb_ge in E].
  - apply Z.eqb_eq. clear - Hx E. Z.div_mod_to_equations. lia.
  - apply Z.eqb_neq. clear - Hx E. Z.div_mod_to_equations. lia.
Qed.

(** X18.  [parseHeadersPayload] honours the flags PADDED and PRIORITY of a
    HEADERS frame: it takes the pad length from the first byte and leaves
    that many bytes off the end, reads the five bytes of the priority as the
    exclusive bit, the dependency of 31 bits and the weight plus one, and
    decodes what lies between as the header block. *)
Theorem parseHeadersPayload_padding_priority
    (H : Map jsstring) (fuel : nat) (dyn : Http2.table)
    (L T S pad dep w : Z) (padding : Buffer) (padded priority : bool) :
  NoDup (map fst H) -> Forall hpack_header_ok H -> (length H <= fuel)%nat ->
  0 <= pad < 256 -> len padding = pad -> 0 <= dep < 2 ^ 32 -> 0 <= w < 256 ->
  let frame :=
    {| Http2Frame.length := L; Http2Frame.type := T;
       Http2Frame.flags := (if padded then PADDED else 0)
                           + (if priority then PRIORITY else 0) + END_HEADERS;
       Http2Frame.streamId := S;
       Http2Frame.payload :=
         (if padded then [pad] else [])
         ++ (if priority
             then [dep / 16777216; (dep / 65536) mod 256; (dep / 256) mod 256;
                   dep mod 256; w]
             else [])
         ++ HpackEncoder.encodeHeaders H
         ++ (if padded then padding else []) |} in
  exists dyn',
    Http2FrameParser.parseHeadersPayload fuel dyn frame
    = Returns (Some (H,
                     if priority
                     then Some {| Http2FrameParser.exclusive := 2 ^ 31 <=? dep;
                                  Http2FrameParser.dependency := dep mod 2 ^ 31;
                                  Http2FrameParser.weight := w + 1 |}
                     else None,
                     dyn')).
Proof.
  intros Hnd Hok Hfuel Hpad Hpadding Hdep Hw. cbv zeta.
  destruct (encodeHeaders_decoded H fuel dyn Hnd Hok Hfuel) as [dyn' Hdec].
  exists dyn'. unfold Http2FrameParser.parseHeadersPayload.
  cbn [Http2Frame.flags Http2Frame.payload].
  set (block := HpackEncoder.encodeHeaders H) in *.
  pose proof (len_nonneg block) as Hblock.
  assert (Hdep4 : dep / 16777216 * 16777216 + (dep / 65536) mod 256 * 65536
                  + (dep / 256) mod 256 * 256 + dep mod 256 = dep)
    by (clear; Z.div_mod_to_equations; lia).
  assert (Hexcl : negb (band dep 2147483648 =? 0) = (2 ^ 31 <=? dep)).
  { rewrite band_bit31 by exact Hdep.
    destruct (dep <? 2 ^ 31) eqn:E1, (2 ^ 31 <=? dep) eqn:E2;
      bool_to_prop E1; bool_to_prop E2; try reflexivity; lia. }
  destruct padded, priority;
    match goal with
    | |- context [band ?f PADDED] =>
        let v := eval vm_compute in (negb (band f PADDED =? 0)) in
        change (negb (band f PADDED =? 0)) with v
    end;
    match goal with
    | |- context [band ?f PRIORITY] =>
        let v := eval vm_compute in (negb (band f PRIORITY =? 0)) in
        change (negb (band f PRIORITY =? 0)) with v
    end; cbv iota.
  - (* padded, with priority *)
    pose proof (readUInt8_at [] [] 0 pad
                  ([dep / 16777216; (dep / 65536) mod 256; (dep / 256) mod 256;
                    dep mod 256; w] ++ block ++ padding) eq_refl) as E0.
    cbn [app] in E0. change (len [] + 0) with 0 in E0.
    cbn [app]. rewrite E0. cbn [bind].
    pose proof (readUInt32BE_at [] [pad] 1 (dep / 16777216)
                  ((dep / 65536) mod 256) ((dep / 256) mod 256) (dep mod 256)
                  (w :: block ++ padding) eq_refl) as E32.
    cbn [app] in E32. change (len [] + 1) with (0 + 1) in E32.
    rewrite E32, Hdep4. cbn [bind].
    pose proof (readUInt8_at [] [pad; dep / 16777216; (dep / 65536) mod 256;
                                 (dep / 256) mod 256; dep mod 256] 5 w
                  (block ++ padding) eq_refl) as E8.
    cbn [app] in E8. change (len [] + 5) with (0 + 1 + 4) in E8.
    rewrite E8. cbn [bind]. rewrite Hexcl, band_mask31_mod.
    change (pad :: ?a :: ?b :: ?c :: ?d :: ?e :: block ++ padding)
      with ([pad; a; b; c; d; e] ++ block ++ padding).
    rewrite !len_app.
    change (len [pad; dep / 16777216; (dep / 65536) mod 256; (dep / 256) mod 256;
                 dep mod 256; w]) with 6.
    replace (0 + 1 + 5) with (len [pad; dep / 16777216; (dep / 65536) mod 256;
                                  (dep / 256) mod 256; dep mod 256; w])
      by reflexivity.
    replace (6 + (len block + len padding) - pad)
      with (len [pad; dep / 16777216; (dep / 65536) mod 256; (dep / 256) mod 256;
                 dep mod 256; w] + len block)
      by (change (len [pad; dep / 16777216; (dep / 65536) mod 256;
                       (dep / 256) mod 256; dep mod 256; w]) with 6; lia).
    rewrite subarray_app_mid, Hdec. reflexivity.
  - (* padded *)
    pose proof (readUInt8_at [] [] 0 pad (block ++ padding) eq_refl) as E0.
    cbn [app] in E0. change (len [] + 0) with 0 in E0.
    cbn [app]. rewrite E0. cbn [bind].
    change (pad :: block ++ padding) with ([pad] ++ block ++ padding).
    rewrite !len_app. change (len [pad]) with 1.
    replace (0 + 1) with (len [pad]) by reflexivity.
    replace (1 + (len block + len padding) - pad) with (len [pad] + len block)
      by (change (len [pad]) with 1; lia).
    rewrite subarray_app_mid, Hdec. reflexivity.
  - (* with priority *)
    cbn [bind app].
    pose proof (readUInt32BE_at [] [] 0 (dep / 16777216)
                  ((dep / 65536) mod 256) ((dep / 256) mod 256) (dep mod 256)
                  (w :: block ++ []) eq_refl) as E32.
    cbn [app] in E32. change (len [] + 0) with 0 in E32.
    rewrite E32, Hdep4. cbn [bind].
    pose proof (readUInt8_at [] [dep / 16777216; (dep / 65536) mod 256;
                                 (dep / 256) mod 256; dep mod 256] 4 w
                  (block ++ []) eq_refl) as E8.
    cbn [app] in E8. change (len [] + 4) with (0 + 4) in E8.
    rewrite E8. cbn [bind]. rewrite Hexcl, band_mask31_mod.
    change (?a :: ?b :: ?c :: ?d :: ?e :: block ++ [])
      with ([a; b; c; d; e] ++ block ++ []).
    rewrite !len_app.
    change (len [dep / 16777216; (dep / 65536) mod 256; (dep / 256) mod 256;
                 dep mod 256; w]) with 5.
    replace (0 + 5) with (len [dep / 16777216; (dep / 65536) mod 256;
                              (dep / 256) mod 256; dep mod 256; w])
      by reflexivity.
    replace (5 + (len block + len []) - 0)
      with (len [dep / 16777216; (dep / 65536) mod 256; (dep / 256) mod 256;
                 dep mod 256; w] + len block)
      by (change (len [dep / 16777216; (dep / 65536) mod 256;
                       (dep / 256) mod 256; dep mod 256; w]) with 5;
          change (len (@nil Z)) with 0; lia).
    rewrite subarray_app_mid, Hdec. reflexivity.
  - (* neither *)
    cbn [bind app]. rewrite app_nil_r, Z.sub_0_r.
    pose proof (subarray_app_mid [] block []) as Hsub.
    rewrite app_nil_r in Hsub. cbn [app] in Hsub.
    change (len []) with 0 in Hsub. rewrite Z.add_0_l in Hsub.
    rewrite Hsub, Hdec. reflexivity.
Qed.

Lemma parseHeadersPayload_padding_priority_witness :
  exists dyn',
    Http2FrameParser.parseHeadersPayload 2 []
      {| Http2Frame.length := 13; Http2Frame.type := 1;
         Http2Frame.flags := 44; Http2Frame.streamId := 1;
         Http2Frame.payload :=
           [2] ++ [128; 0; 0; 3; 15]
           ++ HpackEncoder.encodeHeaders [(str ":status", str "200");
                                          (str "x-a", str "b")]
           ++ [0; 0] |}
    = Returns (Some ([(str ":status", str "200"); (str "x-a", str "b")],
                     Some {| Http2FrameParser.exclusive := true;
                             Http2FrameParser.dependency := 3;
                             Http2FrameParser.weight := 16 |},
                     dyn')).
Proof.
  apply (parseHeadersPayload_padding_priority
           [(str ":status", str "200"); (str "x-a", str "b")] 2 [] 13 1 1
           2 2147483651 15 [0; 0] true true).
  - repeat constructor; cbn; intuition discriminate.
  - repeat constructor; vm_compute; discriminate.
  - cbn. lia.
  - lia.
  - reflexivity.
  - lia.
  - lia.
Defined.

(** A frame without the flags PADDED and PRIORITY whose payload is a block
    written by [encodeHeaders]. *)
Lemma parseHeadersPayload_plain (H : Map jsstring) (fuel : nat)
    (dyn : Http2.table) (frame : Http2Frame.t) :
  NoDup (map fst H) -> Forall hpack_header_ok H -> (length H <= fuel)%nat ->
  Http2Frame.payload frame = HpackEncoder.encodeHeaders H ->
  band (Http2Frame.flags frame) PADDED = 0
  /\ band (Http2Frame.flags frame) PRIORITY = 0 ->
  exists dyn',
    Http2FrameParser.parseHeadersPayload fuel dyn frame
    = Returns (Some (H, None, dyn')).
Proof.
  intros Hnd Hok Hfuel Hpay [Hp1 Hp2].
  destruct (encodeHeaders_decoded H fuel dyn Hnd Hok Hfuel) as [dyn' Hdec].
  exists dyn'. unfold Http2FrameParser.parseHeadersPayload.
  rewrite Hp1, Hp2, Hpay. cbn [Z.eqb negb bind]. rewrite Z.sub_0_r.
  pose proof (subarray_app_mid [] (HpackEncoder.encodeHeaders H) []) as Hsub.
  rewrite app_nil_r in Hsub. cbn [app] in Hsub.
  change (len []) with 0 in Hsub. rewrite Z.add_0_l in Hsub.
  rewrite Hsub, Hdec. reflexivity.
Qed.

(** X19.  A HEADERS frame built with the indexed encoding from a map of
    headers parses back: the frame has the type HEADERS, the stream given,
    the flags END_STREAM and END_HEADERS as asked and no others, and
    [parseHeadersPayload] reads the map back with no priority. *)
Theorem headers_frame_roundtrip (streamId : Z) (H : Map jsstring)
    (endStream endHeaders : bool) (fuel : nat) (dyn : Http2.table) :
  0 <= streamId < 2 ^ 31 ->
  NoDup (map fst H) -> Forall hpack_header_ok H -> (length H <= fuel)%nat ->
  len (HpackEncoder.encodeHeaders H) < 2 ^ 24 ->
  exists bytes frame dyn',
    Http2FrameBuilder.buildHeadersFrame streamId H endStream endHeaders false
    = Returns bytes
    /\ Http2FrameParser.parseFrame bytes 0 = Returns (Some (frame, len bytes))
    /\ Http2Frame.type frame = HEADERS
    /\ Http2Frame.streamId frame = streamId
    /\ Http2Frame.flags frame
       = (if endStream then END_STREAM else 0)
         + (if endHeaders then END_HEADERS else 0)
    /\ Http2FrameParser.parseHeadersPayload fuel dyn frame
       = Returns (Some (H, None, dyn')).
Proof.
  intros Hs Hnd Hok Hfuel Hsize.
  set (block := HpackEncoder.encodeHeaders H) in *.
  set (F := (if endStream then END_STREAM else 0)
            + (if endHeaders then END_HEADERS else 0)).
  set (f := {| Http2Frame.length := len block; Http2Frame.type := HEADERS;
               Http2Frame.flags := F; Http2Frame.streamId := streamId;
               Http2Frame.payload := block |}).
  assert (HF : 0 <= F < 256)
    by (unfold F, END_STREAM, END_HEADERS; destruct endStream, endHeaders; lia).
  assert (Hw : wire_frame f).
  { unfold wire_frame, f.
    cbn [Http2Frame.type Http2Frame.flags Http2Frame.streamId
         Http2Frame.length Http2Frame.payload].
    unfold HEADERS. repeat split; lia. }
  assert (Hbuild : Http2FrameBuilder.buildHeadersFrame streamId H endStream
                     endHeaders false
                   = Http2FrameBuilder.buildFrame HEADERS F streamId block).
  { unfold Http2FrameBuilder.buildHeadersFrame, F. fold block.
    destruct endStream, endHeaders; reflexivity. }
  destruct (Http2FrameBuilder.buildFrame HEADERS F streamId block)
    as [bytes |] eqn:Eb.
  2:{ rewrite buildFrame_bytes in Eb; try discriminate; try lia.
      unfold HEADERS. lia. }
  destruct (parseFrame_built f bytes [] Hw Eb) as (Hlen & _ & Hparse).
  rewrite app_nil_r in Hparse.
  destruct (parseHeadersPayload_plain H fuel dyn f Hnd Hok Hfuel)
    as [dyn' Hdec]; [reflexivity | |].
  { unfold f, F, END_STREAM, END_HEADERS. cbn [Http2Frame.flags].
    destruct endStream, endHeaders; split; reflexivity. }
  exists bytes, f, dyn'.
  split; [exact Hbuild |]. split; [now rewrite Hparse, Hlen |].
  repeat split. exact Hdec.
Qed.

Lemma headers_frame_roundtrip_witness :
  exists bytes frame dyn',
    Http2FrameBuilder.buildHeadersFrame 1
      [(str ":method", str "GET"); (str "x-a", str "b")] true true false
    = Returns bytes
    /\ Http2FrameParser.parseFrame bytes 0 = Returns (Some (frame, len bytes))
    /\ Http2Frame.type frame = HEADERS
    /\ Http2Frame.streamId frame = 1
    /\ Http2Frame.flags frame
       = (if true then END_STREAM else 0) + (if true then END_HEADERS else 0)
    /\ Http2FrameParser.parseHeadersPayload 2 [] frame
       = Returns (Some ([(str ":method", str "GET"); (str "x-a", str "b")],
                        None, dyn')).
Proof.
  apply (headers_frame_roundtrip 1
           [(str ":method", str "GET"); (str "x-a", str "b")] true true 2 []).
  - lia.
  - repeat constructor; cbn; intuition discriminate.
  - repeat constructor; vm_compute; discriminate.
  - cbn. lia.
  - vm_compute. reflexivity.
Defined.

(** X20.  What [buildRequest] sends: the 24 bytes of the preface, then
    frames that [parseAllFrames] reads back as a SETTINGS frame on stream 0
    that announces 100 concurrent streams and a window of 65535, a HEADERS
    frame on stream 1 with END_HEADERS, and, only for a body that is not
    empty, a DATA frame on stream 1 with the bytes of the body.  END_STREAM
    is on the last frame of stream 1 and on no other. *)
Theorem buildRequest_frames (options : Http2RequestOptions) :
  let block :=
    HpackEncoder.encodeHeaders (Http2FrameBuilder.buildRequest_headers options) in
  let body := Http2FrameBuilder.buildRequest_bodyBuffer options in
  let hasBody := Http2FrameBuilder.buildRequest_hasBody options in
  len block < 2 ^ 24 -> len body < 2 ^ 24 ->
  exists bytes,
    Http2FrameBuilder.buildRequest options = Returns bytes
    /\ firstn 24 bytes = HTTP2_PREFACE
    /\ Http2FrameParser.parseAllFrames 4 (skipn 24 bytes)
       = Returns (Some
           ([{| Http2Frame.length := 12;
                Http2Frame.type := Http2FrameType.SETTINGS;
                Http2Frame.flags := 0; Http2Frame.streamId := 0;
                Http2Frame.payload := [0; 3; 0; 0; 0; 100; 0; 4; 0; 0; 255; 255] |};
             {| Http2Frame.length := len block;
                Http2Frame.type := HEADERS;
                Http2Frame.flags :=
                  if hasBody then END_HEADERS else END_STREAM + END_HEADERS;
                Http2Frame.streamId := 1;
                Http2Frame.payload := block |}]
            ++ (if hasBody
                then [{| Http2Frame.length := len body;
                         Http2Frame.type := DATA;
                         Http2Frame.flags := END_STREAM;
                         Http2Frame.streamId := 1;
                         Http2Frame.payload := body |}]
                else []))).
Proof.
  cbv zeta. intros Hblock Hbody.
  set (block := HpackEncoder.encodeHeaders
                  (Http2FrameBuilder.buildRequest_headers options)) in *.
  set (body := Http2FrameBuilder.buildRequest_bodyBuffer options) in *.
  set (hasBody := Http2FrameBuilder.buildRequest_hasBody options).
  pose proof (len_nonneg block) as Hb0. pose proof (len_nonneg body) as Hd0.
  set (fs := {| Http2Frame.length := 12;
                Http2Frame.type := Http2FrameType.SETTINGS;
                Http2Frame.flags := 0; Http2Frame.streamId := 0;
                Http2Frame.payload := [0; 3; 0; 0; 0; 100; 0; 4; 0; 0; 255; 255] |}).
  set (fh := {| Http2Frame.length := len block; Http2Frame.type := HEADERS;
                Http2Frame.flags :=
                  if hasBody then END_HEADERS else END_STREAM + END_HEADERS;
                Http2Frame.streamId := 1; Http2Frame.payload := block |}).
  set (fd := {| Http2Frame.length := len body; Http2Frame.type := DATA;
                Http2Frame.flags := END_STREAM; Http2Frame.streamId := 1;
                Http2Frame.payload := body |}).
  assert (Hws : wire_frame fs).
  { unfold wire_frame, fs, Http2FrameType.SETTINGS.
    cbn [Http2Frame.type Http2Frame.flags Http2Frame.streamId
         Http2Frame.length Http2Frame.payload].
    change (len [0; 3; 0; 0; 0; 100; 0; 4; 0; 0; 255; 255]) with 12. lia. }
  assert (Hwh : wire_frame fh).
  { unfold wire_frame, fh.
    cbn [Http2Frame.type Http2Frame.flags Http2Frame.streamId
         Http2Frame.length Http2Frame.payload].
    unfold HEADERS, END_HEADERS, END_STREAM. destruct hasBody; repeat split; lia. }
  assert (Hwd : wire_frame fd).
  { unfold wire_frame, fd.
    cbn [Http2Frame.type Http2Frame.flags Http2Frame.streamId
         Http2Frame.length Http2Frame.payload].
    unfold DATA, END_STREAM. repeat split; lia. }
  destruct (frame_bytes fh) as [bh |] eqn:Ebh.
  2:{ unfold frame_bytes in Ebh. destruct Hwh as (? & ? & ? & ? & ?).
      rewrite buildFrame_bytes in Ebh by assumption. discriminate. }
  destruct (frame_bytes fd) as [bd |] eqn:Ebd.
  2:{ unfold frame_bytes in Ebd. destruct Hwd as (? & ? & ? & ? & ?).
      rewrite buildFrame_bytes in Ebd by assumption. discriminate. }
  set (bs := [0; 0; 12; 4; 0; 0; 0; 0; 0; 0; 3; 0; 0; 0; 100; 0; 4; 0; 0; 255; 255]).
  assert (Ebs : frame_bytes fs = Returns bs) by reflexivity.
  assert (Hhead : Http2FrameBuilder.buildHeadersFrame 1
                    (Http2FrameBuilder.buildRequest_headers options)
                    (negb hasBody) true false = Returns bh).
  { rewrite <- Ebh. unfold frame_bytes, fh, Http2FrameBuilder.buildHeadersFrame.
    cbn [Http2Frame.type Http2Frame.flags Http2Frame.streamId Http2Frame.payload].
    fold block. destruct hasBody; reflexivity. }
  assert (Hdata : Http2FrameBuilder.buildDataFrame 1 body true None = Returns bd).
  { rewrite <- Ebd. reflexivity. }
  assert (Hbuild : Http2FrameBuilder.buildRequest options
                   = Returns (HTTP2_PREFACE
                              ++ concat (bs :: bh :: if hasBody then [bd] else []))).
  { unfold Http2FrameBuilder.buildRequest.
    change (Http2FrameBuilder.buildSettingsFrame _ false) with (Returns bs).
    cbn [bind]. fold hasBody. rewrite Hhead. cbn [bind].
    destruct hasBody.
    - fold body. rewrite Hdata. cbn [bind concat]. now rewrite app_nil_r.
    - cbn [concat]. now rewrite app_nil_r. }
  eexists. split; [exact Hbuild |]. split; [reflexivity |].
  change (skipn 24 (HTTP2_PREFACE ++ ?x)) with x.
  unfold Http2FrameParser.parseAllFrames.
  pose proof (parseAllFrames_loop_built
                (fs :: fh :: if hasBody then [fd] else [])
                (bs :: bh :: if hasBody then [bd] else []) [] [] [] 4) as Hloop.
  rewrite app_nil_r in Hloop. cbn [app] in Hloop.
  change (len (@nil Z)) with 0 in Hloop.
  rewrite Hloop; [reflexivity | | | reflexivity | | ].
  - destruct hasBody; repeat (apply Forall_cons; [assumption |]); apply Forall_nil.
  - destruct hasBody; repeat (apply Forall2_cons; [assumption |]);
      apply Forall2_nil.
  - intros length Hl. discriminate Hl.
  - destruct hasBody; cbn; lia.
Qed.

Lemma buildRequest_frames_witness :
  let options :=
    {| o_method := str "POST"; o_path := str "/upload";
       o_authority := str "example.com"; o_scheme := None;
       o_headers := Some [(str "Content-Type", str "text/plain")];
       o_body := Some (BodyString (str "hi")) |} in
  let block :=
    HpackEncoder.encodeHeaders (Http2FrameBuilder.buildRequest_headers options) in
  exists bytes,
    Http2FrameBuilder.buildRequest options = Returns bytes
    /\ firstn 24 bytes = HTTP2_PREFACE
    /\ Http2FrameParser.parseAllFrames 4 (skipn 24 bytes)
       = Returns (Some
           [{| Http2Frame.length := 12;
               Http2Frame.type := Http2FrameType.SETTINGS;
               Http2Frame.flags := 0; Http2Frame.streamId := 0;
               Http2Frame.payload := [0; 3; 0; 0; 0; 100; 0; 4; 0; 0; 255; 255] |};
            {| Http2Frame.length := len block;
               Http2Frame.type := HEADERS;
               Http2Frame.flags := END_HEADERS;
               Http2Frame.streamId := 1;
               Http2Frame.payload := block |};
            {| Http2Frame.length := 2;
               Http2Frame.type := DATA;
               Http2Frame.flags := END_STREAM;
               Http2Frame.streamId := 1;
               Http2Frame.payload := str "hi" |}]).
Proof.
  cbv zeta.
  apply (buildRequest_frames
           {| o_method := str "POST"; o_path := str "/upload";
              o_authority := str "example.com"; o_scheme := None;
              o_headers := Some [(str "Content-Type", str "text/plain")];
              o_body := Some (BodyString (str "hi")) |});
    vm_compute; reflexivity.
Defined.

(** X21.  Padding is not removed on the way back.  A response sent as a
    HEADERS frame and a padded DATA frame, both as the builder writes them,
    is read by [parseAllFrames] and [extractResponse] with the status and
    the headers that were sent, but its body is the whole payload of the
    DATA frame: the pad length, the data and the zero bytes of the
    padding. *)
Theorem padded_data_reaches_body (streamId p : Z) (H : Map jsstring)
    (data : Buffer) (fuel : nat) (dyn : Http2.table) :
  0 <= streamId < 2 ^ 31 ->
  NoDup (map fst H) -> Forall hpack_header_ok H -> (length H <= fuel)%nat ->
  len (HpackEncoder.encodeHeaders H) < 2 ^ 24 ->
  0 < p <= 255 -> 1 + len data + p < 2 ^ 24 ->
  exists hb db frames response,
    Http2FrameBuilder.buildHeadersFrame streamId H false true false = Returns hb
    /\ Http2FrameBuilder.buildDataFrame streamId data true (Some p) = Returns db
    /\ Http2FrameParser.parseAllFrames 3 (hb ++ db) = Returns (Some frames)
    /\ Http2FrameParser.extractResponse fuel dyn frames streamId
       = Returns (Some (Some response))
    /\ Http2Response.statusCode response = response_status H
    /\ Http2Response.headers response = response_headers H
    /\ Http2Response.body response = [p] ++ data ++ repeat 0 (Z.to_nat p).
Proof.
  intros Hs Hnd Hok Hfuel Hblock Hp Hsize.
  set (block := HpackEncoder.encodeHeaders H) in *.
  set (P := [p] ++ data ++ repeat 0 (Z.to_nat p)).
  assert (HP : len P = 1 + len data + p).
  { unfold P. rewrite !len_app, len_one. unfold len at 2.
    rewrite repeat_length. lia. }
  set (fh := {| Http2Frame.length := len block; Http2Frame.type := HEADERS;
                Http2Frame.flags := END_HEADERS;
                Http2Frame.streamId := streamId; Http2Frame.payload := block |}).
  set (fd := {| Http2Frame.length := len P; Http2Frame.type := DATA;
                Http2Frame.flags := END_STREAM + PADDED;
                Http2Frame.streamId := streamId; Http2Frame.payload := P |}).
  assert (Hwh : wire_frame fh).
  { unfold wire_frame, fh.
    cbn [Http2Frame.type Http2Frame.flags Http2Frame.streamId
         Http2Frame.length Http2Frame.payload].
    unfold HEADERS, END_HEADERS. repeat split; lia. }
  assert (Hwd : wire_frame fd).
  { unfold wire_frame, fd.
    cbn [Http2Frame.type Http2Frame.flags Http2Frame.streamId
         Http2Frame.length Http2Frame.payload].
    unfold DATA, END_STREAM, PADDED. repeat split; lia. }
  destruct (frame_bytes fh) as [bh |] eqn:Ebh.
  2:{ unfold frame_bytes in Ebh. destruct Hwh as (? & ? & ? & ? & ?).
      rewrite buildFrame_bytes in Ebh by assumption. discriminate. }
  destruct (frame_bytes fd) as [bd |] eqn:Ebd.
  2:{ unfold frame_bytes in Ebd. destruct Hwd as (? & ? & ? & ? & ?).
      rewrite buildFrame_bytes in Ebd by assumption. discriminate. }
  assert (Hhead : Http2FrameBuilder.buildHeadersFrame streamId H false true false
                  = Returns bh).
  { rewrite <- Ebh. reflexivity. }
  assert (Hdata : Http2FrameBuilder.buildDataFrame streamId data true (Some p)
                  = Returns bd).
  { rewrite <- Ebd. unfold Http2FrameBuilder.buildDataFrame, uint8_bytes.
    decide_cond. reflexivity. }
  assert (Hframes : Http2FrameParser.parseAllFrames 3 (bh ++ bd)
                    = Returns (Some [fh; fd])).
  { unfold Http2FrameParser.parseAllFrames.
    pose proof (parseAllFrames_loop_built [fh; fd] [bh; bd] [] [] [] 3) as Hloop.
    cbn [concat app] in Hloop. rewrite !app_nil_r in Hloop.
    change (len (@nil Z)) with 0 in Hloop.
    apply Hloop; [| | reflexivity | | cbn; lia].
    - repeat (apply Forall_cons; [assumption |]); apply Forall_nil.
    - repeat (apply Forall2_cons; [assumption |]); apply Forall2_nil.
    - intros length Hl. discriminate Hl. }
  destruct (parseHeadersPayload_plain H fuel dyn fh Hnd Hok Hfuel eq_refl
              (conj eq_refl eq_refl)) as [dyn' Hparse].
  exists bh, bd, [fh; fd].
  eexists. split; [exact Hhead |]. split; [exact Hdata |].
  split; [exact Hframes |].
  assert (Hkept : Http2FrameParser.streamFrames [fh; fd] streamId = [fh; fd]).
  { unfold Http2FrameParser.streamFrames. cbn [filter].
    change (Http2Frame.streamId fh) with streamId.
    change (Http2Frame.streamId fd) with streamId.
    rewrite Z.eqb_refl. reflexivity. }
  unfold Http2FrameParser.extractResponse. rewrite Hkept.
  cbn [find filter]. change (Http2Frame.type fh =? HEADERS) with true.
  change (Http2Frame.type fh =? DATA) with false.
  change (Http2Frame.type fd =? DATA) with true. cbv iota.
  rewrite Hparse. cbn [bind].
  pose proof (responseHeaders_fold H Hnd (Num 200) []
                ltac:(intros k _ [])) as Hfold.
  match goal with
  | |- context [fold_left ?f ?l ?a] =>
      replace (fold_left f l a)
        with (response_status H, response_headers H)
        by (symmetry; exact Hfold)
  end.
  cbn [map concat app]. change (Http2Frame.payload fd) with P.
  rewrite app_nil_r.
  split; [reflexivity |].
  cbn [Http2Response.statusCode Http2Response.headers Http2Response.body].
  repeat split.
Qed.

(** A response with the status 200, one header and two bytes of data,
    padded by three. *)
Lemma padded_data_reaches_body_witness :
  exists hb db frames response,
    Http2FrameBuilder.buildHeadersFrame 1
      [(str ":status", str "200"); (str "server", str "x")] false true false
    = Returns hb
    /\ Http2FrameBuilder.buildDataFrame 1 [104; 105] true (Some 3) = Returns db
    /\ Http2FrameParser.parseAllFrames 3 (hb ++ db) = Returns (Some frames)
    /\ Http2FrameParser.extractResponse 2 [] frames 1
       = Returns (Some (Some response))
    /\ Http2Response.statusCode response
       = response_status [(str ":status", str "200"); (str "server", str "x")]
    /\ Http2Response.headers response
       = response_headers [(str ":status", str "200"); (str "server", str "x")]
    /\ Http2Response.body response = [3] ++ [104; 105] ++ repeat 0 (Z.to_nat 3).
Proof.
  apply (padded_data_reaches_body 1 3
           [(str ":status", str "200"); (str "server", str "x")]
           [104; 105] 2 []).
  - lia.
  - repeat constructor; cbn; intuition discriminate.
  - repeat constructor; vm_compute; intuition discriminate.
  - cbn; lia.
  - vm_compute; reflexivity.
  - lia.
  - cbn; lia.
Defined.

(** ** The response parser and the analyzer *)

Import ResponseAnalyzer.

Lemma Map_get_set {V : Type} (m : Map V) (k k' : jsstring) (v : V) :
  Map_get (Map_set m k v) k' = if streq k' k then Some v else Map_get m k'.
Proof.
  induction m as [| [k0 v0] m IH]; cbn [Map_set Map_get]; [reflexivity |].
  destruct (streq k k0) eqn:E.
  - apply streq_eq in E. subst k0. cbn [Map_get].
    destruct (streq k' k); reflexivity.
  - cbn [Map_get]. rewrite IH. destruct (streq k' k0) eqn:E0; [| reflexivity].
    apply streq_eq in E0. subst k0.
    destruct (streq k' k) eqn:E1; [| reflexivity].
    apply streq_eq in E1. subst k'. rewrite streq_refl in E. discriminate.
Qed.

Lemma header_step_field (headers : Map (list jsstring)) (line : jsstring) :
  header_step headers line
  = match header_field line with
    | Some (n, v) =>
        Map_set headers n (match Map_get headers n with
                           | Some existing => existing ++ [v]
                           | None => [v]
                           end)
    | None => headers
    end.
Proof.
  unfold header_step, header_field. destruct line as [| c line]; [reflexivity |].
  destruct (0 <? indexOf (c :: line) (str ":")); [| reflexivity].
  destruct (Map_get headers _); reflexivity.
Qed.

(** The multimap after the loop over the lines: under every name, what was
    there before and then the values of the lines of that name. *)
Lemma header_fold_get (lines : list jsstring) :
  forall (headers : Map (list jsstring)) (name : jsstring),
    Map_get (fold_left header_step lines headers) name
    = match Map_get headers name, header_values name lines with
      | None, [] => None
      | None, vs => Some vs
      | Some l, vs => Some (l ++ vs)
      end.
Proof.
  induction lines as [| line lines IH]; intros headers name.
  - cbn [fold_left header_values flat_map].
    destruct (Map_get headers name); [now rewrite app_nil_r | reflexivity].
  - cbn [fold_left header_values flat_map]. fold (header_values name lines).
    rewrite IH, header_step_field.
    destruct (header_field line) as [[n v] |].
    + rewrite Map_get_set. destruct (streq name n) eqn:E.
      * apply streq_eq in E. subst n.
        destruct (Map_get headers name) as [l |].
        -- cbn [app]. now rewrite <- app_assoc.
        -- reflexivity.
      * cbn [app]. reflexivity.
    + cbn [app]. reflexivity.
Qed.


(** X23.  The smuggling indicators of a parsed response count lines:
    [contentLengthCount] and [transferEncodingCount] are the numbers of
    header lines named [content-length] and [transfer-encoding], and
    [hasBothCLTE] says that neither number is 0. *)
Theorem checkSmugglingIndicators_counts (raw : Buffer) :
  let cl := len (header_values (str "content-length") (header_lines raw)) in
  let te := len (header_values (str "transfer-encoding") (header_lines raw)) in
  checkSmugglingIndicators (parse raw)
  = {| hasContentLength := 0 <? cl;
       hasTransferEncoding := 0 <? te;
       hasBothCLTE := (0 <? cl) && (0 <? te);
       contentLengthCount := cl;
       transferEncodingCount := te |}.
Proof.
  cbv zeta. unfold checkSmugglingIndicators, header_lines, parse.
  destruct (header_end (utf8_decode raw)) as [headerEndIndex separatorLength].
  cbn [fst].
  destruct (statusMatch _) as [[[version code] message] |];
    cbn [RawResponse.headers]; rewrite !header_fold_get; cbn [Map_get];
    destruct (header_values (str "content-length") _),
             (header_values (str "transfer-encoding") _); reflexivity.
Qed.





(** *** The body *)

Lemma ascii_text_skipn (n : nat) (s : jsstring) :
  ascii_text s -> ascii_text (skipn n s).
Proof.
  unfold ascii_text. revert s. induction n as [| n IH]; intros s H; [exact H |].
  destruct s as [| c s]; [exact H |]. cbn [skipn]. cbn [forallb] in H.
  apply andb_prop in H as [_ H]. now apply IH.
Qed.

Lemma ascii_text_firstn (n : nat) (s : jsstring) :
  ascii_text s -> ascii_text (firstn n s).
Proof.
  unfold ascii_text. revert s. induction n as [| n IH]; intros s H; [reflexivity |].
  destruct s as [| c s]; [exact H |]. cbn [firstn forallb]. cbn [forallb] in H.
  apply andb_prop in H as [Hc H]. now rewrite Hc, IH.
Qed.

Lemma header_end_nonneg (s : jsstring) :
  0 <= fst (header_end s) + snd (header_end s).
Proof.
  unfold header_end. rewrite !indexOf_first. pose proof (len_nonneg s).
  destruct (first_occurrence CRLFCRLF s) as [d |].
  - replace (Z.of_nat d =? -1) with false by (symmetry; apply Z.eqb_neq; lia).
    cbv beta iota zeta. cbn [fst snd]. lia.
  - change (-1 =? -1) with true. cbv beta iota zeta.
    destruct (first_occurrence LFLF s) as [d |].
    + replace (Z.of_nat d =? -1) with false by (symmetry; apply Z.eqb_neq; lia).
      cbv beta iota zeta. cbn [fst snd]. lia.
    + change (-1 =? -1) with true. cbv beta iota zeta. cbn [fst snd]. lia.
Qed.

Lemma subarrayFrom_substringFrom (s : list Z) (a : Z) :
  0 <= a -> subarrayFrom s a = substringFrom s a.
Proof.
  intros Ha. unfold subarrayFrom, subarray, rel_index, substringFrom, substring, clamp.
  pose proof (len_nonneg s).
  destruct (a <? 0) eqn:E1; [apply Z.ltb_lt in E1; lia |].
  destruct (len s <? 0) eqn:E2; [apply Z.ltb_lt in E2; lia |].
  rewrite (Z.min_id (len s)), (Z.max_r 0 (len s)) by lia.
  rewrite (Z.max_r 0 (Z.min (len s) a)) by lia.
  rewrite (Z.min_comm (len s) a).
  rewrite (Z.min_l (Z.min a (len s)) (len s)), (Z.max_r (Z.min a (len s)) (len s))
    by lia.
  reflexivity.
Qed.

(** X25.  For input of seven-bit bytes the body bytes of a parsed response
    are the bytes of its body text.  With other bytes in the header section
    they can differ, because the position found in the text is used as a
    position in the bytes: after a header of two bytes that encode one
    character, the body bytes begin one byte early. *)
Theorem parse_body_bytes :
  (forall raw : Buffer,
      ascii_text raw ->
      RawResponse.bodyBuffer (parse raw) = utf8_encode (RawResponse.body (parse raw)))
  /\ (let r := parse ([195; 169] ++ LFLF ++ str "ab") in
      RawResponse.body r = str "ab"
      /\ RawResponse.bodyBuffer r = [LF] ++ str "ab").
Proof.
  split; [| split; reflexivity].
  intros raw Hraw. unfold parse. rewrite utf8_decode_ascii by exact Hraw.
  pose proof (header_end_nonneg raw) as Hpos.
  destruct (header_end raw) as [headerEndIndex separatorLength].
  cbn [fst snd] in Hpos.
  assert (E : subarrayFrom raw (headerEndIndex + separatorLength)
              = utf8_encode (substringFrom raw (headerEndIndex + separatorLength))).
  { rewrite subarrayFrom_substringFrom by exact Hpos.
    symmetry. apply utf8_encode_ascii.
    unfold substringFrom, substring. apply ascii_text_firstn, ascii_text_skipn, Hraw. }
  destruct (statusMatch _) as [[[version code] message] |];
    cbn [RawResponse.bodyBuffer RawResponse.body]; exact E.
Qed.

Lemma parse_body_bytes_witness :
  RawResponse.bodyBuffer (parse (str "HTTP/1.1 200 OK" ++ CRLFCRLF ++ str "hi"))
  = utf8_encode (RawResponse.body
                   (parse (str "HTTP/1.1 200 OK" ++ CRLFCRLF ++ str "hi"))).
Proof.
  apply (proj1 parse_body_bytes). reflexivity.
Defined.

(** ** The comparison of raw texts *)

Lemma flat_map_nil {A B : Type} (f : A -> list B) (l : list A) :
  flat_map f l = [] <-> forall x, In x l -> f x = [].
Proof.
  induction l as [| a l IH]; cbn [flat_map].
  - split; [intros _ x [] | reflexivity].
  - split.
    + intros H x [<- | Hin]; apply app_eq_nil in H as [Ha Hl]; [exact Ha |].
      now apply IH.
    + intros H. rewrite (H a (or_introl eq_refl)). apply IH.
      intros x Hin. apply H. now right.
Qed.

Lemma compareRaw_step_nil (str1 str2 : jsstring) (i : nat) :
  Diff.compareRaw_step str1 str2 i = [] <-> nth_error str1 i = nth_error str2 i.
Proof.
  unfold Diff.compareRaw_step, Diff.char_differs.
  destruct (nth_error str1 i) as [a |], (nth_error str2 i) as [b |];
    try (split; [discriminate | discriminate]); [| tauto].
  destruct (a =? b) eqn:E; cbn [negb].
  - apply Z.eqb_eq in E. subst. tauto.
  - apply Z.eqb_neq in E. split; [discriminate | intros [= ->]; contradiction].
Qed.

(** X26.  [compareRaw] reports two texts as identical exactly when they are
    equal; the difference of the lengths is that of the second text less
    that of the first, and every position by which one text is longer is
    among the differences reported. *)
Theorem compareRaw_identical (str1 str2 : jsstring) :
  (Diff.identical (Diff.compareRaw str1 str2) = true <-> str1 = str2)
  /\ Diff.lengthDiff (Diff.compareRaw str1 str2) = len str2 - len str1
  /\ (Z.abs (Diff.lengthDiff (Diff.compareRaw str1 str2))
      <= len (Diff.differences (Diff.compareRaw str1 str2))).
Proof.
  unfold Diff.compareRaw.
  cbn [Diff.identical Diff.lengthDiff Diff.differences].
  set (maxLen := Nat.max (length str1) (length str2)).
  split; [| split; [reflexivity |]].
  - assert (H : flat_map (Diff.compareRaw_step str1 str2) (seq 0 maxLen) = []
                <-> str1 = str2).
    { rewrite flat_map_nil. split.
      - intros H. apply nth_error_ext. intros i.
        destruct (Nat.lt_ge_cases i maxLen) as [Hi | Hi].
        + apply compareRaw_step_nil, H, in_seq. lia.
        + rewrite (proj2 (nth_error_None str1 i)), (proj2 (nth_error_None str2 i));
            [reflexivity | unfold maxLen in Hi; lia | unfold maxLen in Hi; lia].
      - intros -> i _. now apply compareRaw_step_nil. }
    destruct (flat_map _ _); [tauto |].
    split; [discriminate |]. intros E. apply H in E. discriminate.
  - assert (Hone : forall i, (Nat.min (length str1) (length str2) <= i < maxLen)%nat ->
                              length (Diff.compareRaw_step str1 str2 i) = 1%nat).
    { intros i Hi. unfold Diff.compareRaw_step, Diff.char_differs, maxLen in *.
      destruct (Nat.le_ge_cases (length str1) (length str2)) as [Hle | Hle].
      - rewrite (proj2 (nth_error_None str1 i)) by lia.
        destruct (nth_error str2 i) eqn:E; [reflexivity |].
        apply nth_error_None in E. lia.
      - rewrite (proj2 (nth_error_None str2 i)) by lia.
        destruct (nth_error str1 i) eqn:E; [reflexivity |].
        apply nth_error_None in E. lia. }
    assert (Hcount : forall a n,
               (Nat.min (length str1) (length str2) <= a)%nat ->
               (a + n <= maxLen)%nat ->
               length (flat_map (Diff.compareRaw_step str1 str2) (seq a n)) = n).
    { intros a n. revert a. induction n as [| n IH]; intros a Ha Hn; [reflexivity |].
      cbn [seq flat_map]. rewrite length_app, Hone, IH by lia. reflexivity. }
    set (minLen := Nat.min (length str1) (length str2)) in *.
    replace (seq 0 maxLen) with (seq 0 (minLen + (maxLen - minLen)))
      by (f_equal; unfold maxLen, minLen; lia).
    rewrite seq_app, flat_map_app. unfold len. rewrite length_app.
    rewrite (Hcount (0 + minLen)%nat (maxLen - minLen)%nat)
      by (unfold maxLen, minLen; lia).
    unfold maxLen, minLen. lia.
Qed.

(** ** The dynamic table of the decoder *)

(** One field written by [encodeHeaders], with the table the turn leaves. *)
Lemma decodeField_encodeHeader_table (dyn : Http2.table) (pre post : Buffer)
    (acc : Map jsstring) (h : jsstring * jsstring) :
  hpack_header_ok h ->
  0 < len (HpackEncoder.encodeHeader h)
  /\ HpackDecoder.decodeField dyn (pre ++ HpackEncoder.encodeHeader h ++ post)
                              (len pre) acc
     = (len pre + len (HpackEncoder.encodeHeader h),
        Map_set acc (fst h) (snd h),
        if written_as_literal h then h :: dyn else dyn).
Proof.
  intros Hok. destruct (hpack_header_ok_lengths h Hok) as [HLn HLv].
  destruct Hok as (Han & Hav & Hlow & _). destruct h as [n v]. cbn [fst snd] in *.
  unfold HpackEncoder.encodeHeader, written_as_literal. cbn [fst snd].
  remember (HpackEncoder.findStaticTableExactIndex n v) as i eqn:Hidef.
  remember (HpackEncoder.findStaticTableIndex n) as j eqn:Hjdef.
  destruct (0 <? i) eqn:Ex; cbn [negb].
  - apply Z.ltb_lt in Ex.
    destruct (static_entry _ i (eq_sym Hidef) Ex) as [Hi [e [Hn Hp]]].
    rewrite toLowerCase_lower in Hp by assumption.
    apply andb_prop in Hp as [Hp1 Hp2]. apply streq_eq in Hp1, Hp2.
    destruct (index_byte_facts i Hi) as (E1 & _ & B1 & B2 & _).
    rewrite E1, len_one. split; [lia |]. cbn [app].
    unfold HpackDecoder.decodeField. rewrite byte_at_head, B1. cbn [negb].
    rewrite (decodeInteger_one_byte _ _ _ 7 i)
      by (change (shl 1 7 - 1) with 127; first [exact B2 | lia]).
    rewrite getTableEntry_static, Hn, Hp1, Hp2 by exact Hi. reflexivity.
  - clear Hidef Ex i. destruct (0 <? j) eqn:En.
    + apply Z.ltb_lt in En.
      destruct (static_entry _ j (eq_sym Hjdef) En) as [Hi [e [Hn Hp]]].
      rewrite toLowerCase_lower in Hp by assumption. apply streq_eq in Hp.
      destruct (index_byte_facts j Hi) as (_ & E2 & _ & _ & B1 & B2 & B3).
      rewrite E2. cbn [app]. rewrite len_cons.
      pose proof (len_nonneg (HpackEncoder.encodeString v false)).
      split; [lia |].
      unfold HpackDecoder.decodeField. rewrite byte_at_head, B1, B2. cbn [negb].
      rewrite (decodeLiteral_indexed_name dyn pre (64 + j) post v 6 j e);
        [| change (shl 1 6 - 1) with 63; exact B3
         | change (shl 1 6 - 1) with 63; lia | lia
         | rewrite getTableEntry_static by exact Hi; exact Hn
         | exact Hav | exact HLv ].
      rewrite Hp, <- Z.add_assoc. reflexivity.
    + change (Buffer_from_array [64]) with [64]. cbn [app]. rewrite <- app_assoc.
      rewrite len_cons, len_app.
      pose proof (len_nonneg (HpackEncoder.encodeString n false)).
      pose proof (len_nonneg (HpackEncoder.encodeString v false)).
      split; [lia |].
      unfold HpackDecoder.decodeField. rewrite byte_at_head.
      change (band 64 128 =? 0) with true. change (band 64 64 =? 0) with false.
      cbn [negb].
      rewrite (decodeLiteral_new_name dyn pre 64 post n v 6)
        by (try assumption; try reflexivity; discriminate).
      rewrite <- !Z.add_assoc. reflexivity.
Qed.

(** The decoder's loop over the block of [encodeHeaders]: the headers in
    their order, and every literal field put in front of the table. *)
Lemma decodeHeaders_loop_table (H : Map jsstring) :
  Forall hpack_header_ok H -> NoDup (map fst H) ->
  forall (fuel : nat) (dyn : Http2.table) (pre : Buffer) (acc : Map jsstring),
    (length H <= fuel)%nat ->
    (forall h, In h H -> ~ In (fst h) (map fst acc)) ->
    HpackDecoder.decodeHeaders_loop fuel dyn
      (pre ++ flat_map HpackEncoder.encodeHeader H) (len pre) acc
    = Some (acc ++ H, rev (filter written_as_literal H) ++ dyn).
Proof.
  induction H as [| h H IH]; intros Hok Hnd fuel dyn pre acc Hfuel Hfresh.
  - cbn [flat_map filter rev app]. rewrite !app_nil_r.
    destruct fuel; cbn [HpackDecoder.decodeHeaders_loop];
      rewrite Z.ltb_irrefl; reflexivity.
  - destruct fuel as [| fuel]; [cbn [length] in Hfuel; lia |].
    cbn [flat_map HpackDecoder.decodeHeaders_loop].
    inversion Hok as [| x l Hh Hok' Heq]; subst.
    destruct (decodeField_encodeHeader_table dyn pre
                (flat_map HpackEncoder.encodeHeader H) acc h Hh)
      as [Hpos Hstep].
    rewrite !len_app.
    pose proof (len_nonneg (flat_map HpackEncoder.encodeHeader H)).
    destruct (len pre <? len pre + (len (HpackEncoder.encodeHeader h)
                + len (flat_map HpackEncoder.encodeHeader H))) eqn:E;
      [| lia].
    rewrite Hstep.
    rewrite Map_set_fresh by (apply Hfresh; now left).
    inversion Hnd as [| x l Hnotin Hnd' Heq]; subst.
    pose proof (IH Hok' Hnd' fuel
                  (if written_as_literal h then h :: dyn else dyn)
                  (pre ++ HpackEncoder.encodeHeader h) (acc ++ [h])) as Hrest.
    rewrite len_app, <- app_assoc in Hrest.
    destruct h as [n v]. cbn [fst snd] in *.
    etransitivity; [apply Hrest |].
    3:{ rewrite <- app_assoc. cbn [filter app].
      destruct (written_as_literal (n, v)); [| reflexivity].
      cbn [rev]. rewrite <- app_assoc. reflexivity. }
    + cbn [length] in Hfuel. lia.
    + intros h' Hin Hbad. rewrite map_app, in_app_iff in Hbad.
      destruct Hbad as [Hbad | Hbad].
      * apply (Hfresh h' (or_intror Hin)). exact Hbad.
      * cbn [map In] in Hbad. destruct Hbad as [Hbad | []].
        apply Hnotin. cbn [fst] in Hbad. rewrite Hbad. apply in_map.
        exact Hin.
Qed.

(** An indexed field of one byte that names an entry of the dynamic
    table. *)
Lemma decodeHeaders_reference (fuel : nat) (dyn : Http2.table) (k : Z) :
  0 <= k <= 64 ->
  HpackDecoder.decodeHeaders (S fuel) dyn [190 + k]
  = Some (table_reference dyn k, dyn).
Proof.
  intros Hk.
  pose proof (forall_range
    (fun k => negb (band (190 + k) 128 =? 0)
              && ((band (190 + k) 127 =? 62 + k))) 0 65 eq_refl k
    ltac:(lia)) as E.
  cbv beta in E. apply andb_prop in E as [E1 E2]. apply Z.eqb_eq in E2.
  pose proof (byte_at_head [] (190 + k) []) as Hbyte.
  pose proof (decodeInteger_one_byte [] (190 + k) [] 7 (62 + k)) as Hint.
  change (shl 1 7 - 1) with 127 in Hint. cbn [app] in Hbyte, Hint.
  change (len (@nil Z)) with 0 in Hbyte, Hint.
  specialize (Hint E2 ltac:(lia)).
  unfold HpackDecoder.decodeHeaders.
  cbn [HpackDecoder.decodeHeaders_loop].
  change (0 <? len [190 + k]) with true. cbv iota.
  unfold HpackDecoder.decodeField. rewrite Hbyte, E1, Hint.
  change (0 + 1) with 1.
  replace (HpackDecoder.decodeHeaders_loop fuel dyn [190 + k] 1)
    with (fun headers : Map jsstring => Some (headers, dyn))
    by (destruct fuel; reflexivity).
  unfold HpackDecoder.getTableEntry, table_reference.
  change (len HPACK_STATIC_TABLE) with 62.
  destruct (62 + k <=? 0) eqn:A; [lia |].
  destruct (62 + k <? 62) eqn:B; [lia |].
  replace (62 + k - 62) with k by lia.
  destruct (nth_error dyn (Z.to_nat k)) as [[n v] |]; reflexivity.
Qed.

(** X27.  The decoder keeps every literal field of a block in its dynamic
    table, the latest first and without limit: after the block that
    [encodeHeaders] writes for headers with distinct seven-bit lower-case
    names, the table holds, before what it held, the headers the static
    table does not have with their value, in reverse order.  In the next
    block on the same decoder the one-byte indexed field [0x80 | (62 + k)]
    gives entry [k] of that table, and nothing when the table is shorter. *)
Theorem hpack_dynamic_table (H : Map jsstring) (fuel : nat) (dyn : Http2.table) :
  NoDup (map fst H) -> Forall hpack_header_ok H -> (length H <= fuel)%nat ->
  let dyn' := rev (filter written_as_literal H) ++ dyn in
  HpackDecoder.decodeHeaders fuel dyn (HpackEncoder.encodeHeaders H)
  = Some (H, dyn')
  /\ forall k, 0 <= k <= 64 ->
       HpackDecoder.decodeHeaders (S fuel) dyn' [190 + k]
       = Some (table_reference dyn' k, dyn').
Proof.
  intros Hnd Hok Hfuel dyn'. split.
  - unfold HpackDecoder.decodeHeaders, HpackEncoder.encodeHeaders.
    apply (decodeHeaders_loop_table H Hok Hnd fuel dyn [] []); [exact Hfuel |].
    intros h _ [].
  - intros k Hk. apply decodeHeaders_reference. exact Hk.
Qed.

(** Two headers: [:method: GET] is in the static table, [x-trace] is not and
    is found at index 62 afterwards. *)
Lemma hpack_dynamic_table_witness :
  let H := [(str ":method", str "GET"); (str "x-trace", str "abc")] in
  HpackDecoder.decodeHeaders 2 [] (HpackEncoder.encodeHeaders H)
  = Some (H, [(str "x-trace", str "abc")])
  /\ HpackDecoder.decodeHeaders 3 [(str "x-trace", str "abc")] [190]
     = Some ([(str "x-trace", str "abc")], [(str "x-trace", str "abc")]).
Proof.
  cbv zeta.
  assert (Hnd : NoDup (map fst [(str ":method", str "GET");
                                (str "x-trace", str "abc")])).
  { repeat constructor; cbn; intuition discriminate. }
  assert (Hok : Forall hpack_header_ok [(str ":method", str "GET");
                                        (str "x-trace", str "abc")]).
  { repeat constructor; vm_compute; intuition discriminate. }
  destruct (hpack_dynamic_table _ 2 [] Hnd Hok ltac:(cbn; lia)) as [H1 H2].
  split; [exact H1 |]. exact (H2 0 ltac:(lia)).
Defined.

(** ** Chunked bodies and the splitter *)

Lemma first_occurrence_skip (p u z : jsstring) :
  (forall i, (i < length u)%nat -> starts_with p (skipn i (u ++ z)) = false) ->
  first_occurrence p (u ++ z)
  = option_map (fun d => (length u + d)%nat) (first_occurrence p z).
Proof.
  induction u as [| c u IH]; intros H.
  - cbn [app length]. destruct (first_occurrence p z); reflexivity.
  - cbn [app first_occurrence].
    pose proof (H O ltac:(cbn [length]; lia)) as H0. cbn [skipn app] in H0.
    rewrite H0, IH.
    + destruct (first_occurrence p z); reflexivity.
    + intros i Hi. apply (H (S i)). cbn [length]. lia.
Qed.

Lemma no_terminator_app (a b z : jsstring) :
  no_terminator_in a (b ++ z) -> no_terminator_in b z ->
  no_terminator_in (a ++ b) z.
Proof.
  intros Ha Hb i Hi. rewrite length_app in Hi. rewrite <- app_assoc.
  destruct (Nat.lt_ge_cases i (length a)) as [Hlt | Hge].
  - apply Ha, Hlt.
  - replace i with ((i - length a) + length a)%nat by lia.
    rewrite <- skipn_skipn, skipn_app, skipn_all, Nat.sub_diag.
    cbn [app skipn]. apply Hb. lia.
Qed.

(** A text without a carriage return holds no terminator, and none begins
    in it when none begins at its last character. *)
Lemma no_terminator_no_cr (s rest : jsstring) :
  ~ In CR s ->
  (forall c, starts_with chunked_terminator (c :: rest) = false) ->
  no_terminator_in s rest.
Proof.
  intros Hcr Hlast. induction s as [| c s IH]; intros i Hi; [cbn in Hi; lia |].
  destruct i as [| i].
  - cbn [skipn app]. destruct s as [| c' s]; [apply Hlast |].
    cbn [app starts_with chunked_terminator].
    assert (c' <> CR) by (intros ->; apply Hcr; right; left; reflexivity).
    replace (CR =? c') with false by (symmetry; apply Z.eqb_neq; congruence).
    cbn [andb]. apply andb_false_r.
  - cbn [skipn app]. apply IH.
    + intros Hin. apply Hcr. now right.
    + cbn [length] in Hi. lia.
Qed.

Lemma no_terminator_crlf (z : jsstring) : no_terminator_in CRLF z.
Proof.
  intros i Hi. cbn [length CRLF] in Hi.
  destruct i as [| [| i]]; [reflexivity | reflexivity | lia].
Qed.

(** The size line: it is not empty and holds no carriage return. *)
Lemma number_toStringRadix_16 (n : Z) :
  number_toStringRadix n 16 <> []
  /\ forallb (fun c => negb (c =? CR)) (number_toStringRadix n 16) = true.
Proof.
  assert (Hd : forall d, 0 <= d < 16 -> negb (digit_char d =? CR) = true).
  { intros d Hd.
    exact (forall_range (fun d => negb (digit_char d =? CR)) 0 16 eq_refl d
             ltac:(lia)). }
  unfold number_toStringRadix. destruct (n <? 0) eqn:E.
  - split; [discriminate |]. cbn [forallb].
    change (negb (45 =? CR)) with true. cbn [andb].
    apply Z.ltb_lt in E. apply toStringRadix_class; [lia | exact Hd | lia].
  - apply Z.ltb_ge in E. split.
    + unfold toStringRadix. apply digits_of_nonempty.
    + apply toStringRadix_class; [lia | exact Hd | lia].
Qed.

Lemma no_cr_forallb (s : jsstring) :
  forallb (fun c => negb (c =? CR)) s = true -> ~ In CR s.
Proof.
  intros H Hin. rewrite forallb_forall in H. specialize (H CR Hin).
  discriminate H.
Qed.

(** The two lines of a chunk: the size line is not empty, and no line holds
    a carriage return. *)
Lemma chunk_text_lines (chunk : Chunk.t) :
  ~ In CR (Chunk.data chunk) ->
  exists c line,
    ~ In CR (c :: line)
    /\ chunk_text chunk = (c :: line) ++ CRLF ++ Chunk.data chunk ++ CRLF.
Proof.
  intros Hdata. unfold chunk_text.
  set (n := match Chunk.size chunk with
            | Some n => n
            | None => len (utf8_encode (Chunk.data chunk))
            end).
  destruct (number_toStringRadix_16 n) as [Hne Hcr].
  destruct (number_toStringRadix n 16) as [| c line]; [contradiction |].
  destruct (Chunk.malformed chunk).
  - exists c, (line ++ str "; extension=value"). split.
    + apply no_cr_forallb. change (c :: line ++ str "; extension=value")
        with ((c :: line) ++ str "; extension=value").
      rewrite forallb_app, Hcr. reflexivity.
    + cbn [app]. rewrite <- !app_assoc. reflexivity.
  - exists c, line. split; [apply no_cr_forallb, Hcr |].
    cbn [app]. rewrite <- !app_assoc. reflexivity.
Qed.

(** No terminator begins in a chunk whose data is not empty, when what
    follows does not begin with a carriage return. *)
Lemma no_terminator_chunk (chunk : Chunk.t) (z : jsstring) :
  Chunk.data chunk <> [] -> ~ In CR (Chunk.data chunk) ->
  hd 0 z <> CR ->
  no_terminator_in (chunk_text chunk) z.
Proof.
  intros Hne Hcr Hz.
  destruct (chunk_text_lines chunk Hcr) as (c & line & Hline & ->).
  destruct (Chunk.data chunk) as [| e d] eqn:Ed; [contradiction |].
  assert (He : e <> CR) by (intros ->; apply Hcr; left; reflexivity).
  apply no_terminator_app; [| apply no_terminator_app;
                               [| apply no_terminator_app]].
  - apply no_terminator_no_cr; [exact Hline |].
    intros x. cbn [app CRLF starts_with chunked_terminator].
    replace (CR =? e) with false by (symmetry; apply Z.eqb_neq; congruence).
    rewrite !Z.eqb_refl. cbn [andb]. apply andb_false_r.
  - apply no_terminator_crlf.
  - apply no_terminator_no_cr; [exact Hcr |].
    intros x. cbn [app CRLF starts_with chunked_terminator].
    destruct z as [| y z].
    + rewrite !Z.eqb_refl. cbn [andb]. apply andb_false_r.
    + cbn [hd] in Hz.
      replace (CR =? y) with false by (symmetry; apply Z.eqb_neq; congruence).
      rewrite !Z.eqb_refl. cbn [andb]. apply andb_false_r.
  - apply no_terminator_crlf.
Qed.

Lemma createChunkedBody_concat (chunks : list Chunk.t) :
  createChunkedBody chunks
  = concat (map chunk_text chunks) ++ chunked_terminator.
Proof.
  unfold createChunkedBody.
  assert (H : forall acc,
             fold_left (fun body chunk => body ++ chunk_text chunk) chunks acc
             = acc ++ concat (map chunk_text chunks)).
  { induction chunks as [| c chunks IH]; intros acc; cbn [fold_left map concat].
    - now rewrite app_nil_r.
    - rewrite IH, <- app_assoc. reflexivity. }
  rewrite H. reflexivity.
Qed.

(** The first terminator in the chunks and the terminator after them is the
    one after them. *)
Lemma chunks_first_terminator (chunks : list Chunk.t) :
  Forall (fun c => Chunk.data c <> [] /\ ~ In CR (Chunk.data c)) chunks ->
  hd 0 (concat (map chunk_text chunks) ++ chunked_terminator) <> CR
  /\ first_occurrence chunked_terminator
       (concat (map chunk_text chunks) ++ chunked_terminator)
     = Some (length (concat (map chunk_text chunks))).
Proof.
  induction 1 as [| c chunks [Hne Hcr] _ [IHhd IH]].
  - split; [discriminate | reflexivity].
  - cbn [map concat]. rewrite <- app_assoc. split.
    + destruct (chunk_text_lines c Hcr) as (x & line & Hline & ->).
      cbn [app hd]. intros ->. apply Hline. left. reflexivity.
    + rewrite first_occurrence_skip
        by (apply no_terminator_chunk; assumption).
      rewrite IH. cbn [option_map]. now rewrite length_app.
Qed.

(** X28.  A message whose body [createChunkedBody] builds is taken whole by
    the splitter.  When the header section says the body is chunked and has
    no content length, and the data of every chunk is not empty and holds no
    carriage return, the message is framed: the first terminator is the last
    five characters, whatever sizes the chunks declare.  So a message of
    seven-bit characters is split off what follows it.  An empty chunk
    without size is itself a terminator: the splitter ends the message
    nine characters after the header section. *)
Theorem createChunkedBody_framed (head : jsstring) (chunks : list Chunk.t) :
  indexOf (head ++ CRLFCRLF) CRLFCRLF = len head ->
  clMatch head = None -> teMatch head = true ->
  (Forall (fun c => Chunk.data c <> [] /\ ~ In CR (Chunk.data c)) chunks ->
   let r := head ++ CRLFCRLF ++ createChunkedBody chunks in
   framed r = true
   /\ (ascii_text r ->
       forall (rest : Buffer) (n : nat),
         ascii_text rest ->
         parseMultipleResponses (S n) (r ++ rest)
         = ResponseParser.parse r :: parseMultipleResponses n rest))
  /\ (let empty := {| Chunk.size := None; Chunk.data := [];
                      Chunk.malformed := false |} in
      bodyEnd_of (head ++ CRLFCRLF ++ createChunkedBody (empty :: chunks))
                 (len head) 4
      = len head + 9).
Proof.
  intros Hsep Hcl Hte.
  assert (Hhe : forall body,
             find_header_end (head ++ CRLFCRLF ++ body) = (len head, 4)).
  { intros body. unfold find_header_end. rewrite app_assoc.
    rewrite indexOf_first in Hsep |- *.
    destruct (first_occurrence CRLFCRLF (head ++ CRLFCRLF)) as [d |] eqn:E;
      [| pose proof (len_nonneg head); lia].
    rewrite (first_occurrence_app _ _ body _ E), Hsep.
    pose proof (len_nonneg head).
    replace (len head =? -1) with false by (symmetry; apply Z.eqb_neq; lia).
    reflexivity. }
  assert (Hhead : forall body,
             substring (head ++ CRLFCRLF ++ body) 0 (len head) = head).
  { intros body. pose proof (len_nonneg head).
    rewrite substring_prefix by lia.
    replace (Z.to_nat (len head)) with (length head) by (unfold len; lia).
    apply firstn_all. }
  assert (Hfrom : forall body d,
             first_occurrence chunked_terminator (CRLFCRLF ++ body) = Some d ->
             indexOfFrom (head ++ CRLFCRLF ++ body) chunked_terminator (len head)
             = len head + Z.of_nat d).
  { intros body d Hd. pose proof (len_nonneg head).
    rewrite indexOfFrom_first
      by (rewrite len_app; pose proof (len_nonneg (CRLFCRLF ++ body)); lia).
    replace (Z.to_nat (len head)) with (length head) by (unfold len; lia).
    rewrite skipn_app, skipn_all, Nat.sub_diag. cbn [app skipn].
    rewrite Hd. reflexivity. }
  split.
  - intros Hchunks r.
    destruct (chunks_first_terminator chunks Hchunks) as [_ Hfirst].
    assert (Hend : indexOfFrom r chunked_terminator (len head) + 5 = len r
                   /\ 0 <= indexOfFrom r chunked_terminator (len head)).
    { unfold r. rewrite createChunkedBody_concat.
      rewrite (Hfrom _ (4 + length (concat (map chunk_text chunks)))%nat).
      - rewrite !len_app. change (len CRLFCRLF) with 4.
        change (len chunked_terminator) with 5. unfold len. lia.
      - rewrite first_occurrence_skip.
        + rewrite Hfirst. reflexivity.
        + intros i Hi. cbn [length CRLFCRLF] in Hi.
          destruct i as [| [| [| [| i]]]]; [reflexivity .. | lia]. }
    assert (Hfr : framed r = true).
    { pose proof (len_nonneg head). pose proof (len_nonneg r).
      unfold framed. unfold r at 1. rewrite Hhe. cbv beta iota zeta.
      rewrite !(Hhead (createChunkedBody chunks) : substring r 0 (len head) = head).
      rewrite Hcl, Hte.
      replace (len head =? -1) with false by (symmetry; apply Z.eqb_neq; lia).
      replace (indexOfFrom r chunked_terminator (len head) =? -1) with false
        by (symmetry; apply Z.eqb_neq; lia).
      cbn [negb andb]. apply Z.eqb_eq. lia. }
    split; [exact Hfr |].
    intros Ha rest n Hrest. unfold parseMultipleResponses.
    rewrite !utf8_decode_ascii
      by (try apply ascii_text_app; try split; assumption).
    apply splitter_step; [exact Ha | exact Hfr |]. left.
    pose proof (Hhe (createChunkedBody chunks)) as Hh. unfold find_header_end in Hh.
    fold r in Hh. destruct (indexOf r CRLFCRLF =? -1) eqn:E.
    + inversion Hh.
    + apply Z.eqb_neq in E. exact E.
  - cbv zeta. unfold bodyEnd_of. rewrite Hhead, Hcl, Hte.
    rewrite createChunkedBody_concat.
    rewrite (Hfrom _ 4%nat) by reflexivity.
    pose proof (len_nonneg head).
    replace (len head + Z.of_nat 4 =? -1) with false
      by (symmetry; apply Z.eqb_neq; lia).
    cbn [negb]. lia.
Qed.

(** A chunked response of two chunks, one with a size of its own and an
    extension, followed by the start of another response. *)
Lemma createChunkedBody_framed_witness :
  let head := str "HTTP/1.1 200 OK" ++ CRLF ++ str "Transfer-Encoding: chunked" in
  let chunks := [ {| Chunk.size := None; Chunk.data := str "hello";
                     Chunk.malformed := false |};
                  {| Chunk.size := Some 255; Chunk.data := str "0";
                     Chunk.malformed := true |} ] in
  let r := head ++ CRLFCRLF ++ createChunkedBody chunks in
  framed r = true
  /\ parseMultipleResponses 2 (r ++ str "HTTP/1.1 204")
     = [ResponseParser.parse r; ResponseParser.parse (str "HTTP/1.1 204")].
Proof.
  cbv zeta.
  destruct (createChunkedBody_framed
              (str "HTTP/1.1 200 OK" ++ CRLF ++ str "Transfer-Encoding: chunked")
              [ {| Chunk.size := None; Chunk.data := str "hello";
                   Chunk.malformed := false |};
                {| Chunk.size := Some 255; Chunk.data := str "0";
                   Chunk.malformed := true |} ])
    as [H _]; [vm_compute; reflexivity .. |].
  destruct H as [Hfr Hsplit].
  - repeat constructor; cbn; try discriminate; intuition discriminate.
  - split; [exact Hfr |].
    rewrite (Hsplit ltac:(vm_compute; reflexivity) (str "HTTP/1.1 204") 1%nat
               ltac:(vm_compute; reflexivity)).
    f_equal.
Defined.
